(** * tw2wa: feed resolution, normalisation and delivery gating

    A shallow embedding of [tw2wa.js].  JavaScript strings are modelled as
    [string]; a character stands for one code unit below 256.  The dedup
    registry [seen] (a JS object used as a map) is a [gmap string bool].
    Effects (HTTP, sleeping, logging, WhatsApp sends, the registry and its
    file) are threaded explicitly through a state-and-error monad. *)

From Stdlib Require Import ZArith Ascii String List Bool Lia.
From stdpp Require Import base option list gmap strings pretty.

Local Open Scope Z_scope.
Local Open Scope string_scope.

(** Strings are appended with [+:+]; [++] is kept for lists. *)
Disable Notation "x ++ y" : string_scope.

(** ** JavaScript string primitives *)

Module Js.

Definition code (c : ascii) : N := N_of_ascii c.

(** The regular-expression class [\s] and the set removed by [trim()],
    restricted to code units below 256. *)
Definition is_space (c : ascii) : bool :=
  let n := code c in
  (((9 <=? n) && (n <=? 13)) || (n =? 32) || (n =? 160))%N.

Definition is_digit (c : ascii) : bool :=
  let n := code c in ((48 <=? n) && (n <=? 57))%N.

(** Case folding of the [i] flag, which for the ASCII patterns of the
    program only identifies [A-Z] with [a-z]. *)
Definition lower (c : ascii) : ascii :=
  let n := code c in
  if ((65 <=? n) && (n <=? 90))%N then ascii_of_N (n + 32) else c.

Definition eqb_ci (a b : ascii) : bool := Ascii.eqb (lower a) (lower b).

(** [s.startsWith(p)] *)
Fixpoint startsWith (p s : string) : bool :=
  match p, s with
  | EmptyString, _ => true
  | String a p', String b s' => Ascii.eqb a b && startsWith p' s'
  | String _ _, EmptyString => false
  end.

(** A literal pattern anchored at the current position, under [i]. *)
Fixpoint startsWith_ci (p s : string) : bool :=
  match p, s with
  | EmptyString, _ => true
  | String a p', String b s' => eqb_ci a b && startsWith_ci p' s'
  | String _ _, EmptyString => false
  end.

(** [s.includes(p)] *)
Fixpoint includes (p s : string) : bool :=
  startsWith p s ||
  match s with
  | EmptyString => false
  | String _ s' => includes p s'
  end.

(** [/p/i.test(s)] for a literal pattern [p]. *)
Fixpoint test_ci (p s : string) : bool :=
  startsWith_ci p s ||
  match s with
  | EmptyString => false
  | String _ s' => test_ci p s'
  end.

(** Index of the first match of the literal [p] under [i]. *)
Fixpoint search_ci (p s : string) : option nat :=
  if startsWith_ci p s then Some 0%nat
  else match s with
       | EmptyString => None
       | String _ s' => S <$> search_ci p s'
       end.

Fixpoint drop (n : nat) (s : string) : string :=
  match n, s with
  | O, _ => s
  | S n', String _ s' => drop n' s'
  | S _, EmptyString => EmptyString
  end.

Fixpoint take_while (f : ascii -> bool) (s : string) : string :=
  match s with
  | String c s' => if f c then String c (take_while f s') else EmptyString
  | EmptyString => EmptyString
  end.

Fixpoint drop_while (f : ascii -> bool) (s : string) : string :=
  match s with
  | String c s' => if f c then drop_while f s' else s
  | EmptyString => EmptyString
  end.

(** [s.replace(/\s+$/g, "")]: the string without its trailing white space. *)
Fixpoint trimEnd (s : string) : string :=
  match s with
  | EmptyString => EmptyString
  | String c s' =>
      match trimEnd s' with
      | EmptyString => if is_space c then EmptyString else String c EmptyString
      | r => String c r
      end
  end.

Definition trimStart (s : string) : string := drop_while is_space s.

(** [s.trim()] *)
Definition trim (s : string) : string := trimEnd (trimStart s).

(** [s.split("\n")]; the result is never empty. *)
Fixpoint split_lines (s : string) : list string :=
  match s with
  | EmptyString => [EmptyString]
  | String c s' =>
      if Ascii.eqb c "010" then EmptyString :: split_lines s'
      else match split_lines s' with
           | l :: ls => String c l :: ls
           | [] => [String c EmptyString]
           end
  end.

(** [ls.join("\n")] *)
Fixpoint join_lines (ls : list string) : string :=
  match ls with
  | [] => EmptyString
  | [l] => l
  | l :: ls' => l +:+ String "010" (join_lines ls')
  end.

(** Global replacement driven by a matcher: [m s] is the length of the
    match that starts at the head of [s], if there is one.  Scanning
    resumes after each match, as [String.prototype.replace] does under
    the [g] flag; [skip] counts the characters of the current match that
    are still to be consumed. *)
Fixpoint replace_go (m : string -> option nat) (r : string)
         (skip : nat) (s : string) : string :=
  match s with
  | EmptyString => EmptyString
  | String c s' =>
      match skip with
      | S k => replace_go m r k s'
      | O =>
          match m s with
          | Some (S k) => r +:+ replace_go m r k s'
          | _ => String c (replace_go m r O s')
          end
      end
  end.

Definition replace_all (m : string -> option nat) (r s : string) : string :=
  replace_go m r O s.

(** Truthiness of a string-valued property that may be absent. *)
Definition truthy (o : option string) : bool :=
  match o with
  | Some EmptyString | None => false
  | Some _ => true
  end.

(** [a || b] on such properties. *)
Definition or (a b : option string) : option string :=
  if truthy a then a else b.

Definition nonempty (s : string) : bool :=
  match s with EmptyString => false | _ => true end.

(** [arr.slice(start, end)] for integral arguments. *)
Definition slice {A} (start : Z) (end_ : option Z) (l : list A) : list A :=
  let len := Z.of_nat (length l) in
  let rel (i : Z) := (if i <? 0 then Z.max (len + i) 0 else Z.min i len)%Z in
  let k := rel start in
  let e := match end_ with None => len | Some e => rel e end in
  take (Z.to_nat (e - k)%Z) (List.skipn (Z.to_nat k) l).

Definition hex_digit (n : N) : ascii :=
  if (n <? 10)%N then ascii_of_N (48 + n) else ascii_of_N (55 + n).

Definition pct (n : N) : string :=
  String "%" (String (hex_digit (n / 16)) (String (hex_digit (n mod 16)) EmptyString)).

Definition uri_unreserved (c : ascii) : bool :=
  let n := code c in
  (((65 <=? n) && (n <=? 90)) || ((97 <=? n) && (n <=? 122)) || is_digit c
   || existsb (Ascii.eqb c) ["-"; "_"; "."; "!"; "~"; "*"; "'"; "("; ")"]%char)%N.

(** [encodeURIComponent(s)]: unreserved characters stay, every other code
    unit is written as the percent-escaped bytes of its UTF-8 form. *)
Fixpoint encodeURIComponent (s : string) : string :=
  match s with
  | EmptyString => EmptyString
  | String c s' =>
      let n := code c in
      (if uri_unreserved c then String c EmptyString
       else if (n <? 128)%N then pct n
       else pct (192 + n / 64) +:+ pct (128 + n mod 64))
      +:+ encodeURIComponent s'
  end.

End Js.

(** ** Data *)

(** A JavaScript [Error]; only its message is ever read. *)
Inductive Err : Type := Error (message : string).

Definition message (e : Err) : string := let (m) := e in m.

(** A feed item as the scheduler reads it.  The tiers build items of
    different shapes; an absent property is [None]. *)
Record Item : Type := mkItem {
  link : option string;
  content_encoded : option string;     (* item["content:encoded"] *)
  content : option string;
  title : option string;
  isoDate : option string;
  _ts : option string;
  _image : option string;
  enclosure_url : option string;       (* item.enclosure.url *)
  enclosures0_url : option string      (* item.enclosures[0].url *)
}.

Record Feed : Type := mkFeed { items : list Item }.

(** What the DOM library hands to [parseNitterHTML] for one timeline node:
    the anchor selected by [a[href*="/status/"]] with its [href] and [title]
    attributes, the markup of the content element, and the [src] attribute
    of the selected image element. *)
Record TimelineNode : Type := mkTimelineNode {
  tn_link : option (option string * option string);
  tn_content : string;
  tn_img : option (option string)
}.

(** What the DOM library hands to [fetchSyndication] for one widget node:
    its [data-tweet-id] attribute, the markup of the text element, and the
    [src] and [data-src] attributes of its first image element. *)
Record WidgetNode : Type := mkWidgetNode {
  wn_id : option string;
  wn_text : string;
  wn_img : option (option string * option string)
}.

(** The libraries and built-ins the program calls ([he], [node-html-parser],
    [rss-parser], [JSON], [Date], [Intl]).  They are not part of the program
    and are taken as an interface. *)
Record Host : Type := mkHost {
  he_decode : string -> string;
  html_innerText : string -> string;         (* htmlParse(s).innerText *)
  html_text : string -> string;              (* htmlParse(s).text *)
  parser_parseString : string -> Err + Feed;
  Date_parse : string -> option Z;           (* [None] is NaN *)
  Intl_format : Z -> option string;          (* [None] when formatting throws *)
  Date_toString : Z -> string;
  JSON_parse_body : string -> option (option string);  (* [None]: SyntaxError *)
  dom_timeline : string -> list TimelineNode;
  dom_widget : string -> list WidgetNode;
  dom_og : string -> option string * option string;
  dom_status_title : string -> option string
}.

(** What one HTTP request comes back with. *)
Inductive FetchOutcome : Type :=
| FetchFailed (e : Err)
| FetchResponse (ok : bool) (status : Z) (text : string).

Inductive Message : Type :=
| MsgMedia (imageUrl caption : string)
| MsgText (body : string).

(** Observable actions, in the order they happen.  [EvDelivered] is a ghost
    event: it marks the point where [sendToWhatsApp] has returned for the
    post with the given dedup key. *)
Inductive Event : Type :=
| EvFetch (url : string) (referer : option string)
| EvSleep (ms : Z)
| EvLog (line : string)
| EvMediaFromUrl (imageUrl : string)
| EvSendMessage (chatId : string) (m : Message)
| EvSaveSeen
| EvDelivered (key : string).

Definition Trace : Type := list Event.

(** The outside world: every answer may depend on all that happened before. *)
Record World : Type := mkWorld {
  http : Trace -> string -> option string -> FetchOutcome;
  media_fromUrl : Trace -> string -> option Err;
  client_sendMessage : Trace -> string -> Message -> option Err;
  fs_writeFileSync : Trace -> option Err   (* [Some e]: the write of seen.json throws [e] *)
}.

Record Config : Type := mkConfig {
  handles : list string;
  labels : option (gmap string string);
  maxItemsPerHandle : option Z
}.

(** The scheduler's state: the trace, the in-memory registry [seen], the
    contents of [seen.json] as the last completed write left them, and the
    local flag [changed] of [pollOnce]. *)
Record State : Type := mkState {
  trace : Trace;
  seen : gmap string bool;
  disk : gmap string bool;
  changed : bool
}.

(** ** A state-and-error monad *)

Definition SE (S A : Type) : Type := S -> (Err + A) * S.

Definition ret {S A} (a : A) : SE S A := fun s => (inr a, s).

Definition throw {S A} (e : Err) : SE S A := fun s => (inl e, s).

Definition bind {S A B} (m : SE S A) (k : A -> SE S B) : SE S B :=
  fun s => match m s with
           | (inr a, s') => k a s'
           | (inl e, s') => (inl e, s')
           end.

(** [try { m } catch (e) { h e }] *)
Definition try_catch {S A} (m : SE S A) (h : Err -> SE S A) : SE S A :=
  fun s => match m s with
           | (inr a, s') => (inr a, s')
           | (inl e, s') => h e s'
           end.

Declare Scope se_scope.
Delimit Scope se_scope with se.
Notation "x <- m ;; k" := (bind m (fun x => k))
  (at level 100, m at level 99, k at level 200, right associativity) : se_scope.
Notation "m ;; k" := (bind m (fun _ => k))
  (at level 100, k at level 200, right associativity) : se_scope.
Local Open Scope se_scope.

Definition IO (A : Type) : Type := SE Trace A.
Definition M (A : Type) : Type := SE State A.

Definition emit (e : Event) : IO unit := fun tr => (inr tt, tr ++ [e]).

Definition with_trace (s : State) (tr : Trace) : State :=
  mkState tr (seen s) (disk s) (changed s).

(** Network and messaging code never touches the registry. *)
Definition liftIO {A} (m : IO A) : M A :=
  fun s => let (r, tr) := m (trace s) in (r, with_trace s tr).

Definition sleep (ms : Z) : IO unit := emit (EvSleep ms).
Definition console_log (line : string) : IO unit := emit (EvLog line).

(** ** Constants *)

Definition nl : string := String "010" EmptyString.
Definition dq : string := String "034" EmptyString.

Definition PRIORITY_HANDLES : list string :=
  ["@LiveLawIndia"; "@lawbarandbench"; "@barandbench";
   "@TheLeaflet_in"; "@LawBeatInd"; "@verdictum_in"].

Definition PER_HANDLE_PAUSE_MS : Z := 700.
Definition CAPTION_MAX : Z := 1000.

Definition NITTER_BASES : list string :=
  ["https://nitter.net"; "https://nitter.poast.org";
   "https://nitter.privacydev.net"; "https://nitter.tiekoetter.com";
   "https://nitter.space"].

(** [[...new Set(arr)]]: the first occurrence of every element, in order. *)
Fixpoint uniq_go (acc l : list string) : list string :=
  match l with
  | [] => []
  | x :: l' =>
      if bool_decide (x ∈ acc) then uniq_go acc l'
      else x :: uniq_go (x :: acc) l'
  end.

Definition uniq (l : list string) : list string := uniq_go [] l.

(** [cfg.handles] after the start-up normalisation. *)
Definition prioritized (cfg : Config) : list string :=
  let allHandles := uniq (List.filter Js.nonempty (map Js.trim (handles cfg))) in
  uniq (PRIORITY_HANDLES ++ allHandles).

(** [Number(cfg.maxItemsPerHandle || 8)] for an integral setting. *)
Definition MAX_ITEMS_PER_HANDLE (cfg : Config) : Z :=
  match maxItemsPerHandle cfg with
  | Some z => if (z =? 0)%Z then 8 else z
  | None => 8
  end.

(** ** Response classification *)

Definition isXMLish (s : string) : bool :=
  Js.startsWith "<" (Js.trim s) && (Js.test_ci "<rss" s || Js.test_ci "<feed" s).

Definition looksLikeWhitelistBlock (s : string) : bool :=
  Js.test_ci "whitelist" s && Js.test_ci "rss reader not yet whitelist" s.

Definition looksLikeRateLimit (s : string) : bool :=
  Js.test_ci "rate limit" s || Js.test_ci "try again later" s
  || Js.test_ci "too many requests" s.

Definition looksLikeEmptyTimeline (s : string) : bool :=
  Js.test_ci "no tweets found" s || Js.test_ci "no statuses found" s
  || Js.test_ci "this account is private" s.

(** [h.replace(/^@/, "")] *)
Definition handleToUser (h : string) : string :=
  match h with
  | String "@" r => r
  | _ => h
  end.

(** What a plain object inherits from [Object.prototype] under the name
    [key], as a template literal renders it: the members are functions,
    rendered by Node as their native-code text, and the accessor
    [__proto__], which yields the prototype object itself.  All of them
    are truthy. *)
Definition Object_prototype (key : string) : option string :=
  if String.eqb key "constructor" then Some "function Object() { [native code] }"
  else if String.eqb key "__proto__" then Some "[object Object]"
  else if bool_decide (key ∈ ["__defineGetter__"; "__defineSetter__"; "hasOwnProperty";
                              "__lookupGetter__"; "__lookupSetter__"; "isPrototypeOf";
                              "propertyIsEnumerable"; "toString"; "valueOf";
                              "toLocaleString"])
  then Some ("function " +:+ key +:+ "() { [native code] }")
  else None.

(** [obj[key]] on an object parsed from JSON: the own property, else the
    inherited one. *)
Definition property_get (obj : gmap string string) (key : string) : option string :=
  match obj !! key with
  | Some v => Some v
  | None => Object_prototype key
  end.

(** ** Pattern matchers of the parsers *)

(** [/<br\s*\/?>/i] at the head of [s]. *)
Definition match_br (s : string) : option nat :=
  if Js.startsWith_ci "<br" s then
    let r := Js.drop 3 s in
    let ws := Js.take_while Js.is_space r in
    match Js.drop (String.length ws) r with
    | String "/" (String ">" _) => Some (3 + String.length ws + 2)%nat
    | String ">" _ => Some (3 + String.length ws + 1)%nat
    | _ => None
    end
  else None.

(** A literal closing tag under [i], at the head of [s]. *)
Definition match_tag (t s : string) : option nat :=
  if Js.startsWith_ci t s then Some (String.length t) else None.

(** [/\n{3,}/] at the head of [s]. *)
Definition match_newlines (s : string) : option nat :=
  let n := String.length (Js.take_while (Ascii.eqb "010") s) in
  if (3 <=? n)%nat then Some n else None.

(** [/<open[\s\S]*?close/i] at the head of [s]: up to the nearest [close]. *)
Definition match_block (open close s : string) : option nat :=
  if Js.startsWith_ci open s then
    match Js.search_ci close (Js.drop (String.length open) s) with
    | Some i => Some (String.length open + i + String.length close)%nat
    | None => None
    end
  else None.

(** The capture of the first match of [pre(\d+)] in [s]. *)
Fixpoint match_id (pre s : string) : option string :=
  let here :=
    if Js.startsWith pre s
    then Js.take_while Js.is_digit (Js.drop (String.length pre) s)
    else EmptyString in
  if Js.nonempty here then Some here
  else match s with
       | EmptyString => None
       | String _ s' => match_id pre s'
       end.

(** [s.replace(/^[^:]+:\s*/, "")] *)
Definition strip_label (s : string) : string :=
  let not_colon c := negb (Ascii.eqb c ":") in
  let pre := Js.take_while not_colon s in
  match pre, Js.drop (String.length pre) s with
  | String _ _, String ":" r => Js.drop_while Js.is_space r
  | _, _ => s
  end.

(** [url.replace(/^https?:\/\//i, "")] *)
Definition strip_scheme (url : string) : string :=
  if Js.startsWith_ci "https://" url then Js.drop 8 url
  else if Js.startsWith_ci "http://" url then Js.drop 7 url
  else url.

(** The tail of the image pattern at the head of [s]: [src=] under [i], a
    double quote, the captured non-empty run of characters other than a
    double quote, and the closing double quote. *)
Definition src_attr (s : string) : option string :=
  if Js.startsWith_ci ("src=" +:+ dq) s then
    let r := Js.drop 5 s in
    let u := Js.take_while (fun c => negb (Ascii.eqb c "034")) r in
    if Js.nonempty u && Js.startsWith dq (Js.drop (String.length u) r)
    then Some u else None
  else None.

(** The greedy [[^>]+] followed by [src_attr]: the last position, reached
    through characters other than [>], where [src_attr] matches. *)
Fixpoint img_scan (s : string) (best : option string) : option string :=
  let best' := match src_attr s with Some u => Some u | None => best end in
  match s with
  | EmptyString => best'
  | String c s' => if Ascii.eqb c ">" then best' else img_scan s' best'
  end.

Definition img_here (s : string) : option string :=
  if Js.startsWith_ci "<img" s then
    match Js.drop 4 s with
    | String c r => if Ascii.eqb c ">" then None else img_scan r None
    | EmptyString => None
    end
  else None.

(** The capture of the image pattern of [pickImage] ([<img] under [i], one
    or more characters other than [>], then the quoted [src] attribute) at
    its first match in [s]. *)
Fixpoint img_src_match (s : string) : option string :=
  match img_here s with
  | Some u => Some u
  | None => match s with
            | EmptyString => None
            | String _ s' => img_src_match s'
            end
  end.

Definition status_digit (s : string) : bool :=
  Js.startsWith "/status/" s &&
  match Js.drop 8 s with
  | String d _ => Js.is_digit d
  | EmptyString => false
  end.

Fixpoint some_suffix (f : string -> bool) (s : string) : bool :=
  f s || match s with
         | EmptyString => false
         | String _ s' => some_suffix f s'
         end.

(** The Markdown link pattern of [extractStatusLinksMD] at the head of [s]:
    an opening parenthesis, [http://] or [https://], characters other than a
    closing parenthesis that contain [/status/] and a digit after at least
    one character, and the closing parenthesis.  The result is the length
    of the match and the capture (all between the parentheses). *)
Definition match_md_link (s : string) : option (nat * string) :=
  let not_rparen c := negb (Ascii.eqb c ")") in
  match s with
  | String "(" r =>
      let scheme :=
        if Js.startsWith "https://" r then Some 8%nat
        else if Js.startsWith "http://" r then Some 7%nat else None in
      match scheme with
      | None => None
      | Some n =>
          let cap := Js.take_while not_rparen r in
          match Js.drop n cap, Js.drop (String.length cap) r with
          | String _ seg, String ")" _ =>
              if some_suffix status_digit seg
              then Some (String.length cap + 2, cap)%nat else None
          | _, _ => None
          end
      end
  | _ => None
  end.

(** Successive [re.exec] calls under [g]: the captures of all matches. *)
Fixpoint exec_all {A} (m : string -> option (nat * A)) (skip : nat)
         (s : string) : list A :=
  match s with
  | EmptyString => []
  | String _ s' =>
      match skip with
      | S k => exec_all m k s'
      | O => match m s with
             | Some (S k, a) => a :: exec_all m k s'
             | _ => exec_all m O s'
             end
      end
  end.

Definition extractStatusLinksMD (markdownText : string) : list string :=
  uniq (exec_all match_md_link O markdownText).

(** [getTweetIdFromLink] *)
Definition getTweetIdFromLink (l : option string) : option string :=
  if negb (Js.truthy l) then None
  else match l with
       | Some s => match match_id "status/" s with
                   | Some id => Some id
                   | None => Some s
                   end
       | None => None
       end.

(** The dedup key of an item, when [pollOnce] does not skip it for want of
    an id: [id = getTweetIdFromLink(item.link); if (!id) continue;
    key = handle + ":" + id]. *)
Definition dedup_key (handle : string) (item : Item) : option string :=
  let id := getTweetIdFromLink (link item) in
  if negb (Js.truthy id) then None
  else Some (handle +:+ ":" +:+ default "" id).

(** [pickImage] *)
Definition pickImage (item : Item) : option string :=
  if Js.truthy (_image item) then _image item
  else if Js.truthy (enclosure_url item) then enclosure_url item
  else if Js.truthy (enclosures0_url item) then enclosures0_url item
  else
    let html := default "" (Js.or (Js.or (content_encoded item) (content item)) (Some "")) in
    img_src_match html.

(** The image steps of the tiers. *)

(** [fetchSyndication], widget markup:
    [img = src || data-src || null; if (img && img.startsWith("//")) img = "https:" + img]. *)
Definition syndication_image (imgEl : option (option string * option string))
  : option string :=
  match imgEl with
  | None => None
  | Some (src, data_src) =>
      let img := Js.or (Js.or src data_src) None in
      match img with
      | Some u => if Js.truthy img && Js.startsWith "//" u
                  then Some ("https:" +:+ u) else img
      | None => None
      end
  end.

(** [fetchStatusViaOG], [og:image]. *)
Definition og_image (content : option string) : option string :=
  let ogImg := Js.or content None in
  match ogImg with
  | Some u => if Js.truthy ogImg && Js.startsWith "//" u
              then Some ("https:" +:+ u) else ogImg
  | None => None
  end.

(** [parseNitterHTML], first image of a timeline node:
    [if (src && src.startsWith("/")) src = base + src; img = src || null]. *)
Definition nitter_image (base : string) (imgEl : option (option string))
  : option string :=
  match imgEl with
  | None => None
  | Some src =>
      let src' := match src with
                  | Some u => if Js.truthy src && Js.startsWith "/" u
                              then Some (base +:+ u) else src
                  | None => None
                  end in
      Js.or src' None
  end.

(** ** Text and time formatting, DOM parsing *)

Section Pure.

Variable H : Host.

(** [htmlToText] *)
Definition htmlToText (html : string) : string :=
  if negb (Js.nonempty html) then EmptyString
  else
    let normalized :=
      Js.replace_all (match_tag "</ul>") nl
        (Js.replace_all (match_tag "</li>") nl
           (Js.replace_all (match_tag "</p>") (nl +:+ nl)
              (Js.replace_all match_br nl html))) in
    let innerText := html_innerText H normalized in
    let text :=
      he_decode H (if Js.nonempty innerText then innerText
                   else html_text H normalized) in
    Js.trim
      (Js.replace_all match_newlines (nl +:+ nl)
         (Js.join_lines (map Js.trimEnd (Js.split_lines text)))).

(** [extractText] *)
Definition extractText (item : Item) : string :=
  let rawHtml :=
    default "" (Js.or (Js.or (content_encoded item) (content item)) (Some "")) in
  let text := htmlToText rawHtml in
  if negb (Js.nonempty text) then
    let t := default "" (Js.or (title item) (Some "")) in
    Js.trim (he_decode H (strip_label t))
  else text.

(** [formatIST], on the time value of the date. *)
Definition formatIST (d : Z) : string :=
  match Intl_format H d with
  | Some s => s +:+ " IST"
  | None => Date_toString H d
  end.

(** [s.replace(/\uFFFD/g, "")].  U+FFFD is not a code unit below 256, so
    on the strings of this model the replacement finds nothing. *)
Definition without_FFFD (s : string) : string := s.

(** The node loop of [parseNitterHTML]; [seenIds] is the [Set] of ids met
    so far on the page. *)
Fixpoint parse_nodes (base : string) (nodes : list TimelineNode)
         (seenIds : list string) : list Item :=
  match nodes with
  | [] => []
  | node :: rest =>
      match tn_link node with
      | None => parse_nodes base rest seenIds
      | Some (href_attr, title_attr) =>
          let href := default "" (Js.or href_attr (Some "")) in
          match match_id "/status/" href with
          | None => parse_nodes base rest seenIds
          | Some id =>
              if bool_decide (id ∈ seenIds) then parse_nodes base rest seenIds
              else
                let seenIds' := id :: seenIds in
                let text := htmlToText (tn_content node) in
                if negb (Js.nonempty text) then parse_nodes base rest seenIds'
                else
                  let abs := if Js.startsWith "/" href then base +:+ href else href in
                  let tsTitle :=
                    Js.or (Some (Js.trim (default "" (Js.or title_attr (Some ""))))) None in
                  let img := nitter_image base (tn_img node) in
                  mkItem (Some abs) None (Some text) None None tsTitle img None None
                  :: parse_nodes base rest seenIds'
          end
      end
  end.

(** [parseNitterHTML] *)
Definition parseNitterHTML (cfg : Config) (html base : string) : list Item :=
  let stripped :=
    Js.replace_all (match_block "<style" "</style>") EmptyString
      (Js.replace_all (match_block "<script" "</script>") EmptyString html) in
  let nodes := dom_timeline H stripped in
  parse_nodes base (Js.slice 0 (Some (MAX_ITEMS_PER_HANDLE cfg)) nodes) [].

End Pure.

(** ** Transport, tiers, resolver, messaging, scheduler *)

Section Program.

Variable H : Host.
Variable W : World.
Variable cfg : Config.
Variable chatId : string.

(** [withRetry(fn, { retries, minTimeout })]; [retries] counts the
    attempts that may still follow a failure. *)
Fixpoint withRetry {A} (fn : IO A) (retries : nat) (minTimeout : Z) : IO A :=
  try_catch fn (fun e =>
    match retries with
    | O => throw e
    | S r => sleep minTimeout ;; withRetry fn r minTimeout
    end).

(** What [fetchRaw] makes of the outcome of its request:
    [if (!res.ok) throw new Error(...); return await res.text()]. *)
Definition response_text (url : string) (o : FetchOutcome) : Err + string :=
  match o with
  | FetchFailed e => inl e
  | FetchResponse ok status text =>
      if ok then inr text
      else inl (Error ("HTTP " +:+ pretty status +:+ " @ " +:+ url))
  end.

(** [fetchRaw]; the [Referer] header is sent when [referer] is truthy. *)
Definition fetchRaw (url : string) (referer : option string) : IO string :=
  fun tr =>
    let hdr := Js.or referer None in
    (response_text url (http W tr url hdr), tr ++ [EvFetch url hdr]).

Definition viaHttp (url : string) : string :=
  "https://r.jina.ai/http://" +:+ strip_scheme url.

Definition viaHttps (url : string) : string :=
  "https://r.jina.ai/https://" +:+ strip_scheme url.

(** [fetchTextSmart] *)
Definition fetchTextSmart (url : string) (referer : option string) : IO string :=
  try_catch (fetchRaw url referer) (fun e1 =>
    try_catch (fetchRaw (viaHttp url) referer) (fun e2 =>
      try_catch (fetchRaw (viaHttps url) referer) (fun _ => throw e1))).

(** The mirror loop shared by the two Nitter tiers:
    [for (const base of bases) { try { return attempt } catch (e) { lastErr = e } }
     throw lastErr || new Error(none)]. *)
Fixpoint for_mirrors {A} (attempt : string -> IO A) (bases : list string)
         (lastErr : option Err) (none : string) : IO A :=
  match bases with
  | [] => throw (default (Error none) lastErr)
  | base :: rest =>
      try_catch (attempt base)
                (fun e => for_mirrors attempt rest (Some e) none)
  end.

(** One iteration of the loop of [fetchNitterRSS]. *)
Definition rss_attempt (user base : string) : IO Feed :=
  let url := base +:+ "/" +:+ Js.encodeURIComponent user +:+ "/rss" in
  body <- fetchTextSmart url (Some base) ;;
  if looksLikeWhitelistBlock body || looksLikeRateLimit body
     || looksLikeEmptyTimeline body
  then throw (Error "Mirror refused or empty timeline")
  else if negb (isXMLish body) then throw (Error "Non-XML response")
  else match parser_parseString H body with
       | inr feed => ret feed
       | inl e => throw e
       end.

Definition fetchNitterRSS_from (bases : list string) (handle : string) : IO Feed :=
  for_mirrors (rss_attempt (handleToUser handle)) bases None
              "All Nitter RSS mirrors failed".

(** [fetchNitterRSS] *)
Definition fetchNitterRSS (handle : string) : IO Feed :=
  fetchNitterRSS_from NITTER_BASES handle.

(** [fetchStatusViaOG]: the text and the image. *)
Definition fetchStatusViaOG (absUrl : string) : IO (string * option string) :=
  body <- fetchTextSmart absUrl None ;;
  let (desc, img) := dom_og H body in
  let ogDesc := default "" (Js.or desc (Some "")) in
  ret (Js.trim (he_decode H ogDesc), og_image img).

(** [getTweetTimeFromStatus] *)
Definition getTweetTimeFromStatus (absUrl : string) : IO (option string) :=
  body <- fetchTextSmart absUrl None ;;
  let t := dom_status_title H body in
  let raw := if Js.truthy t then Some (Js.trim (default "" t)) else None in
  match raw with
  | Some r =>
      if negb (Js.nonempty r) then ret None
      else match Date_parse H (without_FFFD r) with
           | Some parsed => ret (Some (formatIST H parsed))
           | None => ret (Some r)
           end
  | None => ret None
  end.

(** The Markdown harvest loop of [fetchNitterHTML]. *)
Fixpoint harvest (mdLinks : list string) (acc : list Item) : IO (list Item) :=
  match mdLinks with
  | [] => ret acc
  | abs :: rest =>
      og <- fetchStatusViaOG abs ;;
      ts <- getTweetTimeFromStatus abs ;;
      let acc' :=
        if Js.nonempty (fst og)
        then acc ++ [mkItem (Some abs) None (Some (fst og)) None None
                            (Js.or ts None) (Js.or (snd og) None) None None]
        else acc in
      sleep 300 ;;
      harvest rest acc'
  end.

(** One iteration of the loop of [fetchNitterHTML]. *)
Definition html_attempt (user base : string) : IO Feed :=
  let url := base +:+ "/" +:+ Js.encodeURIComponent user in
  body <- fetchTextSmart url (Some base) ;;
  if looksLikeWhitelistBlock body || looksLikeRateLimit body
  then throw (Error "Mirror refused")
  else
    harvested <-
      (if Js.test_ci "Markdown Content:" body then
         let mdLinks :=
           Js.slice 0 (Some (MAX_ITEMS_PER_HANDLE cfg)) (extractStatusLinksMD body) in
         harvest mdLinks []
       else ret []) ;;
    match harvested with
    | _ :: _ => ret (mkFeed harvested)
    | [] =>
        match parseNitterHTML H cfg body base with
        | [] => throw (Error "No tweets found in HTML")
        | itemsDom => ret (mkFeed itemsDom)
        end
    end.

Definition fetchNitterHTML_from (bases : list string) (handle : string) : IO Feed :=
  for_mirrors (html_attempt (handleToUser handle)) bases None
              "All Nitter HTML mirrors failed".

(** [fetchNitterHTML] *)
Definition fetchNitterHTML (handle : string) : IO Feed :=
  fetchNitterHTML_from NITTER_BASES handle.

(** The node loop of [fetchSyndication]. *)
Fixpoint widget_items (user : string) (nodes : list WidgetNode)
         (acc : list Item) : IO (list Item) :=
  match nodes with
  | [] => ret acc
  | node :: rest =>
      if negb (Js.truthy (wn_id node)) then widget_items user rest acc
      else
        let id := default "" (wn_id node) in
        let text := htmlToText H (wn_text node) in
        if negb (Js.nonempty text) then widget_items user rest acc
        else
          let nitterLink := "https://nitter.net/" +:+ user +:+ "/status/" +:+ id in
          ts <- getTweetTimeFromStatus nitterLink ;;
          let img := syndication_image (wn_img node) in
          sleep 250 ;;
          widget_items user rest
            (acc ++ [mkItem (Some nitterLink) None (Some text) None None
                            (Js.or ts None) img None None])
  end.

(** [fetchSyndication] *)
Definition fetchSyndication (handle : string) : IO Feed :=
  let user := handleToUser handle in
  let url :=
    "https://cdn.syndication.twimg.com/widgets/timelines/profile?screen_name="
    +:+ Js.encodeURIComponent user +:+ "&dnt=false&lang=en" in
  txt <- fetchRaw url None ;;
  match JSON_parse_body H txt with
  | None => throw (Error "Syndication JSON parse error")
  | Some body =>
      if negb (Js.truthy body) then throw (Error "Syndication returned no body")
      else
        let nodes := dom_widget H (default "" body) in
        its <- widget_items user
                 (Js.slice 0 (Some (MAX_ITEMS_PER_HANDLE cfg)) nodes) [] ;;
        match its with
        | [] => throw (Error "Syndication returned no tweets")
        | _ => ret (mkFeed its)
        end
  end.

(** [fetchFeed] *)
Definition fetchFeed (handle : string) : IO Feed :=
  try_catch (withRetry (fetchNitterRSS handle) 1 1200) (fun _ =>
    try_catch (withRetry (fetchNitterHTML handle) 1 1200) (fun _ =>
      withRetry (fetchSyndication handle) 1 1200)).

(** [getDisplayTime] *)
Definition getDisplayTime (item : Item) : IO string :=
  let fromIso :=
    if Js.truthy (isoDate item) then
      match Date_parse H (default "" (isoDate item)) with
      | Some d => Some (formatIST H d)
      | None => None
      end
    else None in
  match fromIso with
  | Some shown => ret shown
  | None =>
      if Js.truthy (_ts item) then
        let ts := default "" (_ts item) in
        match Date_parse H (without_FFFD ts) with
        | Some parsed => ret (formatIST H parsed)
        | None => ret ts
        end
      else if Js.truthy (link item) && Js.includes "/status/" (default "" (link item))
      then
        ts <- getTweetTimeFromStatus (default "" (link item)) ;;
        if Js.truthy ts then ret (default "" ts) else ret EmptyString
      else ret EmptyString
  end.

Definition MessageMedia_fromUrl (imageUrl : string) : IO unit :=
  fun tr =>
    let tr' := tr ++ [EvMediaFromUrl imageUrl] in
    match media_fromUrl W tr imageUrl with
    | Some e => (inl e, tr')
    | None => (inr tt, tr')
    end.

Definition sendMessage (m : Message) : IO unit :=
  fun tr =>
    let tr' := tr ++ [EvSendMessage chatId m] in
    match client_sendMessage W tr chatId m with
    | Some e => (inl e, tr')
    | None => (inr tt, tr')
    end.

(** [sendToWhatsApp]; the inner action yields [true] where the source
    returns from inside the [try] block. *)
Definition sendToWhatsApp (label timeStr text : string)
           (imageUrl : option string) : IO unit :=
  let timeLine := if Js.nonempty timeStr then timeStr +:+ nl +:+ nl else EmptyString in
  let body := label +:+ ":" +:+ nl +:+ timeLine +:+ text in
  sent <-
    (if Js.truthy imageUrl then
       let url := default "" imageUrl in
       try_catch
         (MessageMedia_fromUrl url ;;
          (if (CAPTION_MAX <? Z.of_nat (String.length body))%Z then
             let shortCap := Js.trim (label +:+ ":" +:+ nl +:+ timeStr) in
             sendMessage (MsgMedia url shortCap) ;;
             sendMessage (MsgText text)
           else sendMessage (MsgMedia url body)) ;;
          ret true)
         (fun e =>
            console_log ("Image send failed, sending text only: " +:+ message e) ;;
            ret false)
     else ret false) ;;
  if sent : bool then ret tt else sendMessage (MsgText body).

(** Registry accesses of [pollOnce]. *)
Definition is_seen (key : string) : M bool :=
  fun s => (inr (match seen s !! key with Some true => true | _ => false end), s).

Definition set_seen (key : string) : M unit :=
  fun s => (inr tt, mkState (trace s) (<[key := true]> (seen s)) (disk s) (changed s)).

Definition set_changed (b : bool) : M unit :=
  fun s => (inr tt, mkState (trace s) (seen s) (disk s) b).

Definition get_changed : M bool := fun s => (inr (changed s), s).

(** [saveSeen]: the whole registry is written to [seen.json].  The write
    is synchronous and may throw; [pollOnce] calls it outside its [try]
    block, so the error leaves [pollOnce].  After a write that threw, what
    the file holds is not in the hands of the program: [disk] then keeps
    the registry of the last write that returned. *)
Definition saveSeen : M unit :=
  fun s =>
    let tr' := trace s ++ [EvSaveSeen] in
    match fs_writeFileSync W (trace s) with
    | Some e => (inl e, mkState tr' (seen s) (disk s) (changed s))
    | None => (inr tt, mkState tr' (seen s) (seen s) (changed s))
    end.

(** [(cfg.labels && cfg.labels[handle]) || handle.replace(/^@/, "")], as
    the template literals of [sendToWhatsApp] render it. *)
Definition label_of (handle : string) : string :=
  let configured :=
    match labels cfg with
    | Some m => property_get m handle
    | None => None
    end in
  default "" (Js.or configured (Some (handleToUser handle))).

(** The body of the inner loop of [pollOnce]. *)
Definition process_item (handle : string) (item : Item) : M unit :=
  match dedup_key handle item with
  | None => ret tt
  | Some key =>
    known <- is_seen key ;;
    if known : bool then ret tt
    else
      let text := extractText H item in
      if negb (Js.nonempty text) then set_seen key ;; set_changed true
      else
        let label := label_of handle in
        timeStr <- liftIO (getDisplayTime item) ;;
        let imageUrl := pickImage item in
        liftIO (sendToWhatsApp label timeStr text imageUrl) ;;
        liftIO (emit (EvDelivered key)) ;;
        set_seen key ;;
        set_changed true
  end.

Fixpoint for_each {S A} (f : A -> SE S unit) (l : list A) : SE S unit :=
  match l with
  | [] => ret tt
  | x :: l' => f x ;; for_each f l'
  end.

(** The items of one handle in processing order:
    [items.slice(-MAX_ITEMS_PER_HANDLE).reverse()]. *)
Definition subset_reversed (its : list Item) : list Item :=
  rev (Js.slice (- MAX_ITEMS_PER_HANDLE cfg) None its).

(** The [try] block of the outer loop of [pollOnce]. *)
Definition fetch_and_deliver (handle : string) : M unit :=
  feed <- liftIO (fetchFeed handle) ;;
  for_each (process_item handle) (subset_reversed (items feed)).

(** The body of the outer loop of [pollOnce]. *)
Definition poll_handle (handle : string) : M unit :=
  set_changed false ;;
  try_catch
    (fetch_and_deliver handle)
    (fun e => liftIO (console_log ("Feed error for " +:+ handle +:+ ": " +:+ message e))) ;;
  c <- get_changed ;;
  (if c : bool then saveSeen else ret tt) ;;
  liftIO (sleep PER_HANDLE_PAUSE_MS).

(** [pollOnce] *)
Definition pollOnce : M unit := for_each poll_handle (prioritized cfg).

(** [n] turns of the polling loop of [main]; the timer between two turns
    does not act on the state.  An error that leaves [pollOnce] ends the
    loop: the next turn is scheduled only after [pollOnce] has returned. *)
Fixpoint cycles (n : nat) : M unit :=
  match n with
  | O => ret tt
  | S n' => pollOnce ;; cycles n'
  end.

End Program.

(** ** A small executable host and world

    An instance of the interfaces on which the model can be run.  It covers
    tag-free markup, the basic named entities, and date strings in the
    ECMAScript date-time format; the rendering of dates is a stand-in. *)

Module Sample.

Definition entity (s : string) : option (nat * string) :=
  if Js.startsWith "&lt;" s then Some (4%nat, "<")
  else if Js.startsWith "&gt;" s then Some (4%nat, ">")
  else if Js.startsWith "&amp;" s then Some (5%nat, "&")
  else if Js.startsWith "&quot;" s then Some (6%nat, dq)
  else if Js.startsWith "&#39;" s then Some (5%nat, "'")
  else if Js.startsWith "&nbsp;" s then Some (6%nat, String "160" EmptyString)
  else None.

Fixpoint decode_go (skip : nat) (s : string) : string :=
  match s with
  | EmptyString => EmptyString
  | String c s' =>
      match skip with
      | S k => decode_go k s'
      | O => match entity s with
             | Some (S k, r) => r +:+ decode_go k s'
             | _ => String c (decode_go O s')
             end
      end
  end.

Definition decode (s : string) : string := decode_go O s.

(** Text content: everything outside [<...>]. *)
Fixpoint strip_tags (inside : bool) (s : string) : string :=
  match s with
  | EmptyString => EmptyString
  | String c s' =>
      if inside then strip_tags (negb (Ascii.eqb c ">")) s'
      else if Ascii.eqb c "<" then strip_tags true s'
      else String c (strip_tags false s')
  end.

Definition digits (s : string) : option Z :=
  if Js.nonempty s && Js.nonempty (Js.take_while Js.is_digit s)
     && (String.length (Js.take_while Js.is_digit s) =? String.length s)%nat
  then Some (fold_left (fun a c => 10 * a + Z.of_N (Js.code c) - 48)
                       (list_ascii_of_string s) 0)
  else None.

(** Days since 1970-01-01 of a proleptic Gregorian date. *)
Definition days_from_civil (y m d : Z) : Z :=
  let y' := (if m <=? 2 then y - 1 else y)%Z in
  let era := y' / 400 in
  let yoe := y' - era * 400 in
  let mp := (m + 9) mod 12 in
  let doy := (153 * mp + 2) / 5 + d - 1 in
  let doe := yoe * 365 + yoe / 4 - yoe / 100 + doy in
  era * 146097 + doe - 719468.

(** [YYYY-MM-DDTHH:mm:ssZ], optionally with [.sss] before the [Z]. *)
Definition parse_iso (s : string) : option Z :=
  let f i n := digits (substring i n s) in
  let tail := Js.drop 19 s in
  let ms :=
    if String.eqb tail "Z" then Some 0
    else if (String.length tail =? 5)%nat && Js.startsWith "." tail
            && String.eqb (Js.drop 4 tail) "Z"
         then digits (substring 1 3 tail) else None in
  if String.eqb (substring 4 1 s) "-" && String.eqb (substring 7 1 s) "-"
     && String.eqb (substring 10 1 s) "T" && String.eqb (substring 13 1 s) ":"
     && String.eqb (substring 16 1 s) ":"
  then
    match f 0%nat 4%nat, f 5%nat 2%nat, f 8%nat 2%nat,
          f 11%nat 2%nat, f 14%nat 2%nat, f 17%nat 2%nat, ms with
    | Some y, Some mo, Some d, Some h, Some mi, Some sec, Some ms =>
        if ((1 <=? mo) && (mo <=? 12) && (1 <=? d) && (d <=? 31)
            && (h <=? 23) && (mi <=? 59) && (sec <=? 59))%Z
        then Some ((((days_from_civil y mo d * 24 + h) * 60 + mi) * 60 + sec) * 1000 + ms)
        else None
    | _, _, _, _, _, _, _ => None
    end
  else None.

(** A host whose feed parser is the table [feeds]. *)
Definition host (feeds : string -> Err + Feed) : Host :=
  {| he_decode := decode;
     html_innerText := strip_tags false;
     html_text := fun s => decode (strip_tags false s);
     parser_parseString := feeds;
     Date_parse := parse_iso;
     Intl_format := fun d => Some (pretty d +:+ " ms");
     Date_toString := fun d => pretty d;
     JSON_parse_body := fun _ => None;
     dom_timeline := fun _ => [];
     dom_widget := fun _ => [];
     dom_og := fun _ => (None, None);
     dom_status_title := fun _ => None |}.

Definition no_feed : string -> Err + Feed := fun _ => inl (Error "Invalid feed").

(** Every request is answered with [body]; every send succeeds. *)
Definition serving (body : string) : World :=
  {| http := fun _ _ _ => FetchResponse true 200 body;
     media_fromUrl := fun _ _ => None;
     client_sendMessage := fun _ _ _ => None;
     fs_writeFileSync := fun _ => None |}.

(** Every request fails with status 503. *)
Definition offline : World :=
  {| http := fun _ _ _ => FetchResponse false 503 EmptyString;
     media_fromUrl := fun _ _ => None;
     client_sendMessage := fun _ _ _ => None;
     fs_writeFileSync := fun _ => None |}.

(** A feed entry with the given status id and text. *)
Definition post (id text : string) : Item :=
  mkItem (Some ("https://nitter.net/h/status/" +:+ id)) None (Some text)
         None None None None None None.

Definition config (hs : list string) (cap : option Z) : Config :=
  mkConfig hs None cap.

Definition start : State := mkState [] ∅ ∅ false.

(** A feed whose entries have the given ids, in the given order. *)
Definition posts (ids : list string) : Feed :=
  mkFeed (map (fun id => post id ("post " +:+ id)) ids).

Definition feed3 : Feed := posts ["12"; "11"; "10"].

Definition feed9 : Feed := posts ["9"; "8"; "7"; "6"; "5"; "4"; "3"; "2"; "1"].

Definition rss : string := "<rss></rss>".

(** Only the second mirror answers. *)
Definition second_mirror_up : World :=
  {| http := fun _ url _ =>
       if Js.includes "nitter.poast.org" url
       then FetchResponse true 200 rss
       else FetchResponse false 503 EmptyString;
     media_fromUrl := fun _ _ => None;
     client_sendMessage := fun _ _ _ => None;
     fs_writeFileSync := fun _ => None |}.

Definition cap8 : Config := config [] (Some 8).

(** An item with both a structured date and a raw timestamp. *)
Definition dated (iso ts : string) : Item :=
  mkItem (Some "https://nitter.net/h/status/1") None (Some "x") None
         (Some iso) (Some ts) None None None.

Definition relative_image : string := "//example.com/x.jpg".

(** A timeline node whose image has a protocol-relative address. *)
Definition node_with_relative_image : TimelineNode :=
  mkTimelineNode (Some (Some "/h/status/1#m", Some "Jan 1, 2024"))
                 "<div>hello</div>" (Some (Some relative_image)).

(** A feed entry whose markup embeds such an image. *)
Definition post_with_relative_image : Item :=
  post "1" ("<p>hello</p><img alt='' src=" +:+ dq +:+ relative_image +:+ dq +:+ ">").

End Sample.

(** ** Vocabulary of the statements *)

Definition is_net (e : Event) : Prop :=
  match e with
  | EvFetch _ _ | EvSleep _ => True
  | _ => False
  end.

(** Requests made on behalf of the mirror [b]: they carry its address as
    referer, or none. *)
Definition by_mirror (b : string) (e : Event) : Prop :=
  match e with
  | EvFetch _ (Some m) => m = b
  | EvFetch _ None | EvSleep _ => True
  | _ => False
  end.

Definition is_messaging (e : Event) : Prop :=
  match e with
  | EvMediaFromUrl _ | EvSendMessage _ _ | EvLog _ => True
  | _ => False
  end.

Definition not_delivery (e : Event) : Prop :=
  match e with
  | EvDelivered _ => False
  | _ => True
  end.

(** The keys of the deliveries recorded in a trace, oldest first. *)
Fixpoint delivered (tr : Trace) : list string :=
  match tr with
  | [] => []
  | EvDelivered k :: tr' => k :: delivered tr'
  | _ :: tr' => delivered tr'
  end.

(** [emits P m]: whatever [m] returns, it extends the trace by events that
    satisfy [P]. *)
Definition emits {A} (P : Event -> Prop) (m : IO A) : Prop :=
  forall tr, exists evs, snd (m tr) = tr ++ evs /\ Forall P evs.

(** [all_fail attempt bs tr tr']: tried one after the other from trace
    [tr], the mirrors [bs] are all rejected, which leaves trace [tr']. *)
Inductive all_fail {A} (attempt : string -> IO A) : list string -> Trace -> Trace -> Prop :=
| all_fail_nil tr : all_fail attempt [] tr tr
| all_fail_cons b bs tr e tr1 tr2 :
    attempt b tr = (inl e, tr1) ->
    all_fail attempt bs tr1 tr2 ->
    all_fail attempt (b :: bs) tr tr2.

(** The two tiers that go through the mirror list. *)
Inductive NitterTier : Type := TierRSS | TierHTML.

Definition tier_attempt (H : Host) (W : World) (cfg : Config)
           (t : NitterTier) (handle base : string) : IO Feed :=
  match t with
  | TierRSS => rss_attempt H W (handleToUser handle) base
  | TierHTML => html_attempt H W cfg (handleToUser handle) base
  end.

Definition tier_fetch (H : Host) (W : World) (cfg : Config)
           (t : NitterTier) (handle : string) : IO Feed :=
  match t with
  | TierRSS => fetchNitterRSS H W handle
  | TierHTML => fetchNitterHTML H W cfg handle
  end.

(** [u] is one of the addresses under which the transport asks for [url]:
    the address itself, or the address of the proxy followed by the plain
    or by the secure scheme and by [url] without its own scheme. *)
Definition address_of (url u : string) : Prop :=
  u = url \/
  u = "https://r.jina.ai/http://" +:+ strip_scheme url \/
  u = "https://r.jina.ai/https://" +:+ strip_scheme url.

(** The page of the mirror [base] that a tier asks for. *)
Definition page_of (t : NitterTier) (user base : string) : string :=
  match t with
  | TierRSS => base +:+ "/" +:+ Js.encodeURIComponent user +:+ "/rss"
  | TierHTML => base +:+ "/" +:+ Js.encodeURIComponent user
  end.




(** [key] is marked as delivered in the registry. *)
Definition marked (s : State) (key : string) : Prop := seen s !! key = Some true.

(** No key was delivered twice, and every delivered key is marked. *)
Definition registry_sound (s : State) : Prop :=
  NoDup (delivered (trace s)) /\ forall key, key ∈ delivered (trace s) -> marked s key.

(** From [s] to [s'] the trace is extended, no mark is lost and soundness
    is kept. *)
Definition grows (s s' : State) : Prop :=
  (exists evs, trace s' = trace s ++ evs) /\
  (forall key, marked s key -> marked s' key) /\
  (registry_sound s -> registry_sound s').

Definition not_save (e : Event) : Prop :=
  match e with
  | EvSaveSeen => False
  | _ => True
  end.

(** Within the [try] block of one handle: the file is not written, no mark
    is lost, and either the flag [changed] and the registry are as they
    were, or the flag is raised and some key that was not marked is now
    marked. *)
Definition turn_step (s s' : State) : Prop :=
  (exists evs, trace s' = trace s ++ evs /\ Forall not_save evs) /\
  disk s' = disk s /\
  (forall key, marked s key -> marked s' key) /\
  ((changed s' = changed s /\ seen s' = seen s) \/
   (changed s' = true /\ exists key, ~ marked s key /\ marked s' key)).

(** The state [s'] was left by a write of the registry that threw [e]. *)
Definition write_failed (W : World) (e : Err) (s' : State) : Prop :=
  exists tr0, trace s' = tr0 ++ [EvSaveSeen] /\ fs_writeFileSync W tr0 = Some e.

(** [m] relates every state to the state it leaves. *)
Definition preserves {A} (R : State -> State -> Prop) (m : M A) : Prop :=
  forall s, R s (snd (m s)).

(** The line feed. *)
Definition nl_char : ascii := "010"%char.

(** The number of line feeds at the head of [s]. *)
Definition nl_run (s : string) : nat :=
  String.length (Js.take_while (Ascii.eqb nl_char) s).

(** [c] does not occur in [s]. *)
Fixpoint lacks (c : ascii) (s : string) : bool :=
  match s with
  | EmptyString => true
  | String d s' => negb (Ascii.eqb d c) && lacks c s'
  end.

(** Nowhere in [s] do three line feeds follow one another. *)
Fixpoint no_triple (s : string) : Prop :=
  (nl_run s < 3)%nat /\
  match s with
  | EmptyString => True
  | String _ s' => no_triple s'
  end.

(** [s] is empty or begins with a line feed: a line ends here. *)
Definition starts_line (s : string) : Prop :=
  match s with
  | EmptyString => True
  | String d _ => d = nl_char
  end.

(** No line of [s] ends with white space. *)
Fixpoint lines_trimmed (s : string) : Prop :=
  match s with
  | EmptyString => True
  | String c s' =>
      (Js.is_space c = true -> c <> nl_char -> ~ starts_line s') /\ lines_trimmed s'
  end.

(** The three closing steps of [htmlToText]: trailing white space is cut
    from every line, runs of three or more line feeds become two, and the
    result is trimmed. *)
Definition trim_lines (s : string) : string :=
  Js.join_lines (map Js.trimEnd (Js.split_lines s)).

Definition collapse (s : string) : string :=
  Js.replace_all match_newlines (nl +:+ nl) s.

Definition tidy (text : string) : string :=
  Js.trim (collapse (trim_lines text)).


(** ** Further parts of the program *)

(** [s.toLowerCase()] on code units below 256: the letters [A-Z] and the
    Latin-1 capitals U+00C0 to U+00DE, U+00D7 excepted, move up by 32. *)
Definition toLower_char (c : ascii) : ascii :=
  let n := Js.code c in
  if (((65 <=? n) && (n <=? 90))
      || ((192 <=? n) && (n <=? 222) && negb (n =? 215)))%N
  then ascii_of_N (n + 32) else c.

Fixpoint toLowerCase (s : string) : string :=
  match s with
  | EmptyString => EmptyString
  | String c s' => String (toLower_char c) (toLowerCase s')
  end.

(** A chat as [getChatIdByName] reads it: [c.name] and [c.id._serialized]. *)
Record Chat : Type := mkChat {
  chat_name : option string;
  chat_id : string
}.

(** [c.name && c.name.trim() === name.trim()] *)
Definition chat_matches_exactly (name : string) (c : Chat) : bool :=
  Js.truthy (chat_name c)
  && String.eqb (Js.trim (default "" (chat_name c))) (Js.trim name).

(** [(c.name || "").toLowerCase() === name.trim().toLowerCase()] *)
Definition chat_matches_ci (name : string) (c : Chat) : bool :=
  String.eqb (toLowerCase (default "" (Js.or (chat_name c) (Some ""))))
             (toLowerCase (Js.trim name)).

(** [getChatIdByName], on the chats that [client.getChats()] returned. *)
Definition getChatIdByName (chats : list Chat) (name : string) : Err + string :=
  match List.find (chat_matches_exactly name) chats with
  | Some exact => inr (chat_id exact)
  | None =>
      match List.find (chat_matches_ci name) chats with
      | Some ci => inr (chat_id ci)
      | None =>
          inl (Error ("WhatsApp chat named " +:+ dq +:+ name +:+ dq
                      +:+ " not found. Create a group named exactly "
                      +:+ name +:+ "."))
      end
  end.

(** The pattern of [extractStatusLinks] at the head of [s]: [href=], a
    double quote, the captured characters other than a double quote, which
    contain [/status/] and a digit, and the closing double quote.  The
    result is the length of the match and the capture. *)
Definition match_href (s : string) : option (nat * string) :=
  if Js.startsWith ("href=" +:+ dq) s then
    let r := Js.drop 6 s in
    let cap := Js.take_while (fun c => negb (Ascii.eqb c "034")) r in
    match Js.drop (String.length cap) r with
    | String _ _ =>
        if some_suffix status_digit cap
        then Some (String.length cap + 7, cap)%nat else None
    | EmptyString => None
    end
  else None.

(** [extractStatusLinks] *)
Definition extractStatusLinks (html base : string) : list string :=
  uniq (map (fun href =>
               if Js.startsWith "http" href then href
               else if Js.startsWith "/" href then base +:+ href
                    else base +:+ "/" +:+ href)
            (exec_all match_href O html)).

(** The text that [sendToWhatsApp] composes:
    [label + ":\n" + (timeStr ? timeStr + "\n\n" : "") + text]. *)
Definition message_body (label timeStr text : string) : string :=
  label +:+ ":" +:+ nl +:+
  (if Js.nonempty timeStr then timeStr +:+ nl +:+ nl else EmptyString) +:+ text.

(** [d] is a non-empty run of digits. *)
Definition is_digits (d : string) : Prop :=
  Js.nonempty d = true /\ Js.take_while Js.is_digit d = d.

(** [s] does not begin with a digit. *)
Definition no_digit_ahead (s : string) : Prop :=
  Js.take_while Js.is_digit s = EmptyString.

(** Between [s] and [s'] every key of the registry keeps its value or
    becomes marked. *)
Definition appended (s s' : State) : Prop :=
  forall key, seen s' !! key = seen s !! key \/ seen s' !! key = Some true.

(** [retries_fail fn t k tr tr']: from trace [tr], [k] attempts of [fn] fail
    one after the other, each followed by a pause of [t]; [tr'] is the
    trace at which the next attempt starts. *)
Inductive retries_fail {A} (fn : IO A) (t : Z) : nat -> Trace -> Trace -> Prop :=
| retries_fail_O tr : retries_fail fn t O tr tr
| retries_fail_S k tr e tr1 tr2 :
    fn tr = (inl e, tr1) ->
    retries_fail fn t k (tr1 ++ [EvSleep t]) tr2 ->
    retries_fail fn t (S k) tr tr2.

(** An event of network or messaging code. *)
Definition is_io (e : Event) : Prop := is_net e \/ is_messaging e.

(** An item that carries a link and a text. *)
Definition has_link_and_text (item : Item) : Prop :=
  Js.truthy (link item) = true /\ Js.truthy (content item) = true.

(** An item of the syndication tier for the account [user]: its link is the
    status page of a non-empty id on the first mirror. *)
Definition is_widget_item (user : string) (item : Item) : Prop :=
  Js.truthy (content item) = true /\
  exists id, Js.nonempty id = true /\
             link item = Some ("https://nitter.net/" +:+ user +:+ "/status/" +:+ id).

(** A body that the feed tier refuses before parsing. *)
Definition refused (body : string) : bool :=
  looksLikeWhitelistBlock body || looksLikeRateLimit body || looksLikeEmptyTimeline body.

(** The markup that [parseNitterHTML] hands to the parser: the page without
    its [script] and [style] elements. *)
Definition without_scripts (html : string) : string :=
  Js.replace_all (match_block "<style" "</style>") EmptyString
    (Js.replace_all (match_block "<script" "</script>") EmptyString html).

(** The status id that [parseNitterHTML] reads off a timeline node. *)
Definition node_id (node : TimelineNode) : option string :=
  match tn_link node with
  | Some (href_attr, _) => match_id "/status/" (default "" (Js.or href_attr (Some "")))
  | None => None
  end.

(** A host with a timeline of one node and a widget of three, one of them
    without an id, on which the fallback tiers can be run. *)
Module Demo.

Definition widget : list WidgetNode :=
  [mkWidgetNode (Some "41") "<p>first</p>" (Some (Some "//pbs.example/a.jpg", None));
   mkWidgetNode (Some "") "<p>no id</p>" None;
   mkWidgetNode (Some "42") "<p>second</p>" None].

Definition dom_host : Host :=
  {| he_decode := Sample.decode;
     html_innerText := Sample.strip_tags false;
     html_text := fun s => Sample.decode (Sample.strip_tags false s);
     parser_parseString := Sample.no_feed;
     Date_parse := Sample.parse_iso;
     Intl_format := fun d => Some (pretty d +:+ " ms");
     Date_toString := fun d => pretty d;
     JSON_parse_body := fun _ => Some (Some "<div></div>");
     dom_timeline := fun _ => [Sample.node_with_relative_image];
     dom_widget := fun _ => widget;
     dom_og := fun _ => (None, None);
     dom_status_title := fun _ => None |}.

(** The first two attempts fail, the third succeeds. *)
Definition third_time_lucky : IO nat :=
  fun tr => if (length tr <? 4)%nat
            then (inl (Error "not yet"), tr ++ [EvFetch "u" None])
            else (inr 7%nat, tr ++ [EvFetch "u" None]).

Definition chats : list Chat :=
  [mkChat None "0@g.us"; mkChat (Some "tweets") "1@g.us";
   mkChat (Some " Tweets ") "2@g.us"].

(** Requests and images load; every send is refused. *)
Definition rejecting : World :=
  {| http := fun _ _ _ => FetchResponse true 200 Sample.rss;
     media_fromUrl := fun _ _ => None;
     client_sendMessage := fun _ _ _ => Some (Error "closed");
     fs_writeFileSync := fun _ => None |}.

(** The post 12 as another mirror links to it. *)
Definition mirrored_post : Item :=
  mkItem (Some "https://nitter.poast.org/h/status/12#m") None (Some "x")
         None None None None None None.

(** A second node for the status 1. *)
Definition repeated_node : TimelineNode :=
  mkTimelineNode (Some (Some "/h/status/1", None)) "<div>again</div>" None.

(** A profile page with a relative link, the same link again, a bare one
    and an absolute one. *)
Definition profile_page : string :=
  "<a href=" +:+ dq +:+ "/h/status/12#m" +:+ dq +:+ ">" +:+
  "<a href=" +:+ dq +:+ "/h/status/12#m" +:+ dq +:+ ">" +:+
  "<a href=" +:+ dq +:+ "h/status/13" +:+ dq +:+ ">" +:+
  "<a href=" +:+ dq +:+ "/h/about" +:+ dq +:+ ">" +:+
  "<a href=" +:+ dq +:+ "https://x.example/h/status/14" +:+ dq +:+ ">".

(** A node for the status 3. *)
Definition third_node : TimelineNode :=
  mkTimelineNode (Some (Some "/h/status/3", None)) "<div>third</div>" None.

(** A host whose parser finds the status 1 a second time on every page
    that says [twice]. *)
Definition paging_host : Host :=
  {| he_decode := Sample.decode;
     html_innerText := Sample.strip_tags false;
     html_text := fun s => Sample.decode (Sample.strip_tags false s);
     parser_parseString := Sample.no_feed;
     Date_parse := Sample.parse_iso;
     Intl_format := fun d => Some (pretty d +:+ " ms");
     Date_toString := fun d => pretty d;
     JSON_parse_body := fun _ => None;
     dom_timeline := fun page =>
       if Js.includes "twice" page
       then [Sample.node_with_relative_image; repeated_node; third_node]
       else [Sample.node_with_relative_image; third_node];
     dom_widget := fun _ => [];
     dom_og := fun _ => (None, None);
     dom_status_title := fun _ => None |}.

(** A host whose feed parser accepts the body [Sample.rss] only. *)
Definition feed_host : Host :=
  Sample.host (fun body => if String.eqb body Sample.rss
                           then inr Sample.feed3 else inl (Error "Invalid feed")).


(** Requests are answered and sends succeed, but the file cannot be
    written. *)
Definition read_only_disk : World :=
  {| http := fun _ _ _ => FetchResponse true 200 Sample.rss;
     media_fromUrl := fun _ _ => None;
     client_sendMessage := fun _ _ _ => None;
     fs_writeFileSync := fun _ => Some (Error "EROFS: read-only file system") |}.


End Demo.

(** * Properties *)

(** ** What an action adds to the trace *)

Lemma emits_mono {A} (P Q : Event -> Prop) (m : IO A) :
  (forall e, P e -> Q e) -> emits P m -> emits Q m.
Proof.
  intros HPQ Hm tr. destruct (Hm tr) as (evs & Heq & Hevs).
  exists evs. split; [exact Heq | eapply Forall_impl; eauto].
Qed.

Lemma emits_ret {A} P (a : A) : emits P (ret a).
Proof. intros tr. exists []. simpl. rewrite app_nil_r. auto. Qed.

Lemma emits_throw {A} P e : emits P (@throw Trace A e).
Proof. intros tr. exists []. simpl. rewrite app_nil_r. auto. Qed.

Lemma emits_emit (P : Event -> Prop) e : P e -> emits P (emit e).
Proof. intros He tr. exists [e]. simpl. auto. Qed.

Lemma emits_bind {A B} P (m : IO A) (k : A -> IO B) :
  emits P m -> (forall a, emits P (k a)) -> emits P (bind m k).
Proof.
  intros Hm Hk tr. unfold bind. destruct (Hm tr) as (evs & Heq & Hevs).
  destruct (m tr) as [[e|a] tr1]; simpl in *; subst tr1.
  - exists evs. auto.
  - destruct (Hk a (tr ++ evs)) as (evs' & Heq' & Hevs').
    exists (evs ++ evs'). rewrite Heq', app_assoc. split; [reflexivity|].
    apply Forall_app; auto.
Qed.

Lemma emits_try_catch {A} P (m : IO A) (h : Err -> IO A) :
  emits P m -> (forall e, emits P (h e)) -> emits P (try_catch m h).
Proof.
  intros Hm Hh tr. unfold try_catch. destruct (Hm tr) as (evs & Heq & Hevs).
  destruct (m tr) as [[e|a] tr1]; simpl in *; subst tr1.
  - destruct (Hh e (tr ++ evs)) as (evs' & Heq' & Hevs').
    exists (evs ++ evs'). rewrite Heq', app_assoc. split; [reflexivity|].
    apply Forall_app; auto.
  - exists evs. auto.
Qed.

(** One step of the syntax-directed proof that an action only emits
    events of a given kind. *)
Ltac emits_step :=
  lazymatch goal with
  | |- emits _ (bind _ _) => apply emits_bind; [| intros ?]
  | |- emits _ (try_catch _ _) => apply emits_try_catch; [| intros ?]
  | |- emits _ (ret _) => apply emits_ret
  | |- emits _ (throw _) => apply emits_throw
  | |- emits _ (sleep _) => apply emits_emit; exact I
  | |- emits _ (console_log _) => apply emits_emit; exact I
  | |- emits _ (emit _) => apply emits_emit; exact I
  | |- emits _ (if ?b then _ else _) => destruct b
  | |- emits _ (match ?x with _ => _ end) => destruct x
  end.

Lemma delivered_app tr1 tr2 : delivered (tr1 ++ tr2) = delivered tr1 ++ delivered tr2.
Proof.
  induction tr1 as [|e tr1 IH]; simpl; [reflexivity|].
  destruct e; simpl; rewrite ?IH; reflexivity.
Qed.

Lemma delivered_none evs : Forall not_delivery evs -> delivered evs = [].
Proof.
  induction 1 as [|e evs He _ IH]; simpl; [reflexivity|].
  destruct e; simpl in *; auto. contradiction.
Qed.

Lemma is_net_not_delivery e : is_net e -> not_delivery e.
Proof. destruct e; simpl; auto. Qed.

Lemma by_mirror_is_net b e : by_mirror b e -> is_net e.
Proof. destruct e; simpl; auto. Qed.

Lemma is_net_not_save e : is_net e -> not_save e.
Proof. destruct e; simpl; auto. Qed.

Lemma is_messaging_not_save e : is_messaging e -> not_save e.
Proof. destruct e; simpl; auto. Qed.

Lemma is_messaging_not_delivery e : is_messaging e -> not_delivery e.
Proof. destruct e; simpl; auto. Qed.

Section Facts.

Variable H : Host.
Variable W : World.
Variable cfg : Config.
Variable chatId : string.

(** *** Transport *)

Lemma fetchRaw_emits b url referer :
  referer = Some b \/ referer = None ->
  emits (by_mirror b) (fetchRaw W url referer).
Proof.
  intros Href tr. eexists [_]. simpl. split; [reflexivity|].
  repeat constructor. unfold Js.or.
  destruct Href as [-> | ->]; simpl; [destruct b|]; simpl; auto.
Qed.

Lemma fetchTextSmart_emits b url referer :
  referer = Some b \/ referer = None ->
  emits (by_mirror b) (fetchTextSmart W url referer).
Proof.
  intros Href. unfold fetchTextSmart.
  repeat (emits_step || apply fetchRaw_emits; try exact Href).
Qed.

Lemma withRetry_emits {A} (fn : IO A) retries minTimeout :
  emits is_net fn -> emits is_net (withRetry fn retries minTimeout).
Proof.
  intros Hfn. induction retries as [|r IH]; simpl.
  - repeat (emits_step || exact Hfn).
  - repeat (emits_step || exact Hfn || exact IH).
Qed.

Lemma for_mirrors_emits {A} (attempt : string -> IO A) bases lastErr none :
  (forall b, emits is_net (attempt b)) ->
  emits is_net (for_mirrors attempt bases lastErr none).
Proof.
  intros Hat. revert lastErr. induction bases as [|b bases IH]; intros lastErr; simpl.
  - emits_step.
  - emits_step; [apply Hat | apply IH].
Qed.

Lemma rss_attempt_emits user base :
  emits (by_mirror base) (rss_attempt H W user base).
Proof.
  unfold rss_attempt. repeat (emits_step || apply fetchTextSmart_emits; auto).
Qed.

Lemma fetchStatusViaOG_emits b absUrl :
  emits (by_mirror b) (fetchStatusViaOG H W absUrl).
Proof.
  unfold fetchStatusViaOG. repeat (emits_step || apply fetchTextSmart_emits; auto).
Qed.

Lemma getTweetTimeFromStatus_emits b absUrl :
  emits (by_mirror b) (getTweetTimeFromStatus H W absUrl).
Proof.
  unfold getTweetTimeFromStatus.
  repeat (emits_step || apply fetchTextSmart_emits; auto).
Qed.

Lemma harvest_emits b mdLinks acc : emits (by_mirror b) (harvest H W mdLinks acc).
Proof.
  revert acc. induction mdLinks as [|abs rest IH]; intros acc; simpl.
  - emits_step.
  - emits_step; [apply fetchStatusViaOG_emits|].
    emits_step; [apply getTweetTimeFromStatus_emits|].
    emits_step; [emits_step | apply IH].
Qed.

Lemma html_attempt_emits user base :
  emits (by_mirror base) (html_attempt H W cfg user base).
Proof.
  unfold html_attempt.
  repeat (emits_step || (apply fetchTextSmart_emits; auto) || apply harvest_emits).
Qed.

Lemma widget_items_emits user nodes acc : emits is_net (widget_items H W user nodes acc).
Proof.
  revert acc. induction nodes as [|node rest IH]; intros acc; simpl.
  - emits_step.
  - emits_step; [apply IH|]. emits_step; [apply IH|].
    emits_step.
    { eapply emits_mono; [apply by_mirror_is_net|].
      apply (getTweetTimeFromStatus_emits EmptyString). }
    emits_step; [emits_step | apply IH].
Qed.

Lemma fetchSyndication_emits handle : emits is_net (fetchSyndication H W cfg handle).
Proof.
  unfold fetchSyndication.
  emits_step.
  { eapply emits_mono; [apply by_mirror_is_net|].
    apply (fetchRaw_emits EmptyString); auto. }
  repeat (emits_step || apply widget_items_emits).
Qed.

Lemma fetchFeed_emits handle : emits is_net (fetchFeed H W cfg handle).
Proof.
  unfold fetchFeed, fetchNitterRSS, fetchNitterHTML, fetchNitterRSS_from,
    fetchNitterHTML_from.
  repeat (emits_step || apply withRetry_emits || apply for_mirrors_emits
          || apply fetchSyndication_emits || intros ?).
  - eapply emits_mono; [apply by_mirror_is_net | apply rss_attempt_emits].
  - eapply emits_mono; [apply by_mirror_is_net | apply html_attempt_emits].
Qed.

Lemma getDisplayTime_emits item : emits is_net (getDisplayTime H W item).
Proof.
  unfold getDisplayTime.
  repeat (emits_step
          || (eapply emits_mono;
              [apply by_mirror_is_net
              | apply (getTweetTimeFromStatus_emits EmptyString)])).
Qed.

Lemma sendMessage_emits m : emits is_messaging (sendMessage W chatId m).
Proof.
  intros tr. exists [EvSendMessage chatId m]. unfold sendMessage.
  destruct (client_sendMessage W tr chatId m); simpl; repeat constructor.
Qed.

Lemma MessageMedia_fromUrl_emits u : emits is_messaging (MessageMedia_fromUrl W u).
Proof.
  intros tr. exists [EvMediaFromUrl u]. unfold MessageMedia_fromUrl.
  destruct (media_fromUrl W tr u); simpl; repeat constructor.
Qed.

Lemma sendToWhatsApp_emits label timeStr text imageUrl :
  emits is_messaging (sendToWhatsApp W chatId label timeStr text imageUrl).
Proof.
  unfold sendToWhatsApp.
  repeat (emits_step || apply sendMessage_emits || apply MessageMedia_fromUrl_emits).
Qed.


(** *** Mirror order *)



Lemma tier_fetch_eq t handle :
  tier_fetch H W cfg t handle =
  for_mirrors (tier_attempt H W cfg t handle) NITTER_BASES None
    (match t with
     | TierRSS => "All Nitter RSS mirrors failed"
     | TierHTML => "All Nitter HTML mirrors failed"
     end).
Proof. destruct t; reflexivity. Qed.

(** *** Scheduler *)

Lemma liftIO_run {A} (P : Event -> Prop) (m : IO A) (s : State) :
  emits P m ->
  exists r evs, Forall P evs /\ m (trace s) = (r, trace s ++ evs) /\
                liftIO m s = (r, with_trace s (trace s ++ evs)).
Proof.
  intros Hm. destruct (Hm (trace s)) as (evs & Heq & Hevs).
  unfold liftIO. destruct (m (trace s)) as [r tr1]. simpl in Heq. subst tr1.
  exists r, evs. auto.
Qed.

Lemma preserves_ret {A} (R : State -> State -> Prop) `{!Reflexive R} (a : A) :
  preserves R (ret a).
Proof. intros s. simpl. reflexivity. Qed.

Lemma preserves_bind {A B} (R : State -> State -> Prop) `{!Transitive R}
      (m : M A) (k : A -> M B) :
  preserves R m -> (forall a, preserves R (k a)) -> preserves R (bind m k).
Proof.
  intros Hm Hk s. unfold bind. specialize (Hm s).
  destruct (m s) as [[e|a] s1]; simpl in *; [exact Hm|].
  etransitivity; [exact Hm | apply Hk].
Qed.

Lemma preserves_try_catch {A} (R : State -> State -> Prop) `{!Transitive R}
      (m : M A) (h : Err -> M A) :
  preserves R m -> (forall e, preserves R (h e)) -> preserves R (try_catch m h).
Proof.
  intros Hm Hh s. unfold try_catch. specialize (Hm s).
  destruct (m s) as [[e|a] s1]; simpl in *; [|exact Hm].
  etransitivity; [exact Hm | apply Hh].
Qed.

Lemma preserves_for_each {A} (R : State -> State -> Prop) `{!PreOrder R}
      (f : A -> M unit) (l : list A) :
  (forall a, preserves R (f a)) -> preserves R (for_each f l).
Proof.
  intros Hf. induction l as [|a l IH]; simpl.
  - apply preserves_ret; apply _.
  - apply preserves_bind; [apply _ | apply Hf | intros _; exact IH].
Qed.

#[local] Instance grows_preorder : PreOrder grows.
Proof.
  split.
  - intros s. split; [exists []; rewrite app_nil_r; reflexivity | split; auto].
  - intros s1 s2 s3 ((e12 & He12) & Hm12 & Hs12) ((e23 & He23) & Hm23 & Hs23).
    split; [|split; auto].
    exists (e12 ++ e23). rewrite He23, He12, app_assoc. reflexivity.
Qed.

#[local] Instance turn_step_preorder : PreOrder turn_step.
Proof.
  split.
  - intros s. split; [exists []; rewrite app_nil_r; auto | split; auto].
  - intros s1 s2 s3 ((e12 & He12 & Hf12) & Hd12 & Hm12 & H12)
      ((e23 & He23 & Hf23) & Hd23 & Hm23 & H23).
    split; [|split; [congruence|split; [auto|]]].
    + exists (e12 ++ e23). rewrite He23, He12, app_assoc. split; [reflexivity|].
      apply Forall_app; auto.
    + destruct H23 as [[Hc Hs]|[Hc (key & Hno & Hyes)]].
      * destruct H12 as [[Hc' Hs']|[Hc' (key & Hno & Hyes)]];
          [left; split; congruence | right].
        split; [congruence|]. exists key. split; [exact Hno | apply Hm23, Hyes].
      * right. split; [exact Hc|]. exists key. split; [|exact Hyes].
        intros Hk. apply Hno, Hm12, Hk.
Qed.

Lemma with_trace_grows s evs :
  Forall not_delivery evs -> grows s (with_trace s (trace s ++ evs)).
Proof.
  intros Hevs. split; [exists evs; reflexivity|]. split; [auto|].
  unfold registry_sound, marked. simpl.
  rewrite delivered_app, (delivered_none _ Hevs), app_nil_r. auto.
Qed.

Lemma liftIO_grows {A} (m : IO A) :
  emits not_delivery m -> preserves grows (liftIO m).
Proof.
  intros Hm s. destruct (liftIO_run _ m s Hm) as (r & evs & Hevs & _ & ->).
  simpl. apply with_trace_grows, Hevs.
Qed.

Lemma liftIO_turn_step {A} (m : IO A) :
  emits not_save m -> preserves turn_step (liftIO m).
Proof.
  intros Hm s. destruct (liftIO_run _ m s Hm) as (r & evs & Hevs & _ & ->).
  simpl. split; [exists evs; auto | split; [|split]; auto].
Qed.

Lemma is_seen_spec key s :
  is_seen key s = (inr true, s) /\ marked s key \/
  is_seen key s = (inr false, s) /\ ~ marked s key.
Proof.
  unfold is_seen, marked.
  destruct (seen s !! key) as [[|]|]; [left | right | right]; split; congruence.
Qed.

Lemma process_item_seen handle item key s :
  dedup_key handle item = Some key ->
  marked s key ->
  process_item H W cfg chatId handle item s = (inr tt, s).
Proof.
  intros Hkey Hmark. unfold process_item. rewrite Hkey. unfold bind at 1.
  destruct (is_seen_spec key s) as [[-> _] | [_ Hno]]; [reflexivity | contradiction].
Qed.

Lemma mark_grows key s :
  grows s (mkState (trace s) (<[key := true]> (seen s)) (disk s) true).
Proof.
  assert (Hmono : forall k, marked s k ->
            marked (mkState (trace s) (<[key := true]> (seen s)) (disk s) true) k).
  { intros k Hk. unfold marked in *. simpl.
    destruct (decide (key = k)) as [->|Hne];
      [apply lookup_insert_eq | rewrite lookup_insert_ne; auto]. }
  split; [exists []; simpl; rewrite app_nil_r; reflexivity|].
  split; [exact Hmono|].
  intros [Hnd Hall]. split; simpl; auto.
Qed.

Lemma deliver_mark_grows key s evs :
  Forall not_delivery evs ->
  ~ marked s key ->
  grows s (mkState ((trace s ++ evs) ++ [EvDelivered key])
                   (<[key := true]> (seen s)) (disk s) true).
Proof.
  intros Hevs Hno.
  assert (Hd : delivered ((trace s ++ evs) ++ [EvDelivered key])
               = delivered (trace s) ++ [key]).
  { rewrite !delivered_app, (delivered_none _ Hevs), app_nil_r. reflexivity. }
  split; [exists (evs ++ [EvDelivered key]); simpl; apply eq_sym, app_assoc|].
  split.
  - intros k Hk. unfold marked in *. simpl.
    destruct (decide (key = k)) as [->|Hne];
      [apply lookup_insert_eq | rewrite lookup_insert_ne; auto].
  - intros [Hnd Hall]. split; simpl; rewrite Hd.
    + apply NoDup_app. split; [exact Hnd|]. split; [|apply NoDup_singleton].
      intros k Hk Hin. apply list_elem_of_singleton in Hin. subst k.
      apply Hno, Hall, Hk.
    + intros k Hk. unfold marked. simpl.
      destruct (decide (key = k)) as [->|Hne]; [apply lookup_insert_eq|].
      rewrite lookup_insert_ne by exact Hne.
      apply elem_of_app in Hk. destruct Hk as [Hk|Hk]; [apply Hall, Hk|].
      apply list_elem_of_singleton in Hk. congruence.
Qed.

Lemma process_item_grows handle item :
  preserves grows (process_item H W cfg chatId handle item).
Proof.
  intros s. unfold process_item.
  destruct (dedup_key handle item) as [key|]; [|simpl; reflexivity].
  unfold bind at 1.
  destruct (is_seen_spec key s) as [[-> _] | [-> Hno]]; [simpl; reflexivity|].
  destruct (Js.nonempty (extractText H item)); simpl.
  2:{ unfold bind, set_seen, set_changed. simpl. apply mark_grows. }
  unfold bind at 1.
  destruct (liftIO_run not_delivery (getDisplayTime H W item) s)
    as (r1 & evs1 & Hevs1 & _ & ->).
  { eapply emits_mono; [apply is_net_not_delivery | apply getDisplayTime_emits]. }
  destruct r1 as [e|timeStr]; [simpl; apply with_trace_grows, Hevs1|].
  unfold bind at 1.
  set (s1 := with_trace s (trace s ++ evs1)).
  destruct (liftIO_run not_delivery
              (sendToWhatsApp W chatId (label_of cfg handle) timeStr
                 (extractText H item) (pickImage item)) s1)
    as (r2 & evs2 & Hevs2 & _ & ->).
  { eapply emits_mono; [apply is_messaging_not_delivery | apply sendToWhatsApp_emits]. }
  assert (Hevs : Forall not_delivery (evs1 ++ evs2)) by (apply Forall_app; auto).
  subst s1. unfold with_trace at 1 2. simpl.
  rewrite <- (app_assoc (trace s) evs1 evs2).
  destruct r2 as [e|[]]; simpl.
  - apply with_trace_grows, Hevs.
  - unfold bind, liftIO, emit, set_seen, set_changed. simpl.
    apply deliver_mark_grows; assumption.
Qed.

Lemma insert_marked key s tr c :
  (forall k, marked s k ->
             marked (mkState tr (<[key := true]> (seen s)) (disk s) c) k) /\
  marked (mkState tr (<[key := true]> (seen s)) (disk s) c) key.
Proof.
  unfold marked. simpl. split; [|apply lookup_insert_eq].
  intros k Hk. destruct (decide (key = k)) as [->|Hne];
    [apply lookup_insert_eq | rewrite lookup_insert_ne; auto].
Qed.

Lemma with_trace_turn_step s evs :
  Forall not_save evs -> turn_step s (with_trace s (trace s ++ evs)).
Proof. intros Hevs. split; [exists evs; auto | split; [|split]; auto]. Qed.

Lemma mark_turn_step key s evs :
  Forall not_save evs ->
  ~ marked s key ->
  turn_step s (mkState (trace s ++ evs) (<[key := true]> (seen s)) (disk s) true).
Proof.
  intros Hevs Hno.
  destruct (insert_marked key s (trace s ++ evs) true) as [Hmono Hyes].
  split; [exists evs; auto|]. split; [reflexivity|]. split; [exact Hmono|].
  right. split; [reflexivity|]. exists key. auto.
Qed.

Lemma process_item_turn_step handle item :
  preserves turn_step (process_item H W cfg chatId handle item).
Proof.
  intros s. unfold process_item.
  destruct (dedup_key handle item) as [key|]; [|simpl; reflexivity].
  unfold bind at 1.
  destruct (is_seen_spec key s) as [[-> _] | [-> Hno]]; [simpl; reflexivity|].
  destruct (Js.nonempty (extractText H item)); simpl.
  2:{ unfold bind, set_seen, set_changed. simpl.
      rewrite <- (app_nil_r (trace s)). apply mark_turn_step; [constructor | exact Hno]. }
  unfold bind at 1.
  destruct (liftIO_run not_save (getDisplayTime H W item) s)
    as (r1 & evs1 & Hevs1 & _ & ->).
  { eapply emits_mono; [apply is_net_not_save | apply getDisplayTime_emits]. }
  destruct r1 as [e|timeStr]; [simpl; apply with_trace_turn_step, Hevs1|].
  unfold bind at 1.
  set (s1 := with_trace s (trace s ++ evs1)).
  destruct (liftIO_run not_save
              (sendToWhatsApp W chatId (label_of cfg handle) timeStr
                 (extractText H item) (pickImage item)) s1)
    as (r2 & evs2 & Hevs2 & _ & ->).
  { eapply emits_mono; [apply is_messaging_not_save | apply sendToWhatsApp_emits]. }
  assert (Hevs : Forall not_save (evs1 ++ evs2)) by (apply Forall_app; auto).
  subst s1. unfold with_trace at 1 2. simpl.
  rewrite <- (app_assoc (trace s) evs1 evs2).
  destruct r2 as [e|[]]; simpl.
  - apply with_trace_turn_step, Hevs.
  - unfold bind, liftIO, emit, set_seen, set_changed. simpl.
    rewrite <- (app_assoc (trace s)).
    apply mark_turn_step; [|exact Hno].
    apply Forall_app. split; [exact Hevs | repeat constructor].
Qed.

Lemma set_changed_grows b : preserves grows (set_changed b).
Proof.
  intros s. simpl. split; [exists []; simpl; rewrite app_nil_r; reflexivity|].
  split; auto.
Qed.

Lemma saveSeen_grows : preserves grows (saveSeen W).
Proof.
  intros s. unfold saveSeen.
  destruct (fs_writeFileSync W (trace s)); simpl;
    (split; [exists [EvSaveSeen]; reflexivity|];
     split; [auto|]; unfold registry_sound, marked; simpl;
     rewrite delivered_app; simpl; rewrite app_nil_r; auto).
Qed.

Lemma poll_handle_grows handle : preserves grows (poll_handle H W cfg chatId handle).
Proof.
  unfold poll_handle.
  apply preserves_bind; [apply _ | apply set_changed_grows | intros _].
  apply preserves_bind; [apply _ | | intros _].
  { apply preserves_try_catch; [apply _ | | intros e].
    - unfold fetch_and_deliver. apply preserves_bind; [apply _ | | intros feed].
      + apply liftIO_grows.
        eapply emits_mono; [apply is_net_not_delivery | apply fetchFeed_emits].
      + apply preserves_for_each; [apply _ | apply process_item_grows].
    - apply liftIO_grows. apply emits_emit. exact I. }
  apply preserves_bind; [apply _ | intros s; simpl; reflexivity | intros c].
  apply preserves_bind; [apply _ | | intros _].
  { destruct c; [apply saveSeen_grows | apply preserves_ret; apply _]. }
  apply liftIO_grows. apply emits_emit. exact I.
Qed.

Lemma pollOnce_grows : preserves grows (pollOnce H W cfg chatId).
Proof. apply preserves_for_each; [apply _ | apply poll_handle_grows]. Qed.

Lemma cycles_grows n : preserves grows (cycles H W cfg chatId n).
Proof.
  induction n as [|n IH]; simpl.
  - apply preserves_ret; apply _.
  - apply preserves_bind; [apply _ | apply pollOnce_grows | intros _; exact IH].
Qed.

(** The turn of a handle fails only when the write of the registry
    throws. *)
Lemma poll_handle_fails handle s e s' :
  poll_handle H W cfg chatId handle s = (inl e, s') -> write_failed W e s'.
Proof.
  unfold poll_handle. unfold bind at 1, set_changed at 1.
  unfold bind at 1, try_catch at 1.
  destruct (fetch_and_deliver H W cfg chatId handle _) as [[e0|[]] s0].
  - unfold liftIO at 1, console_log, emit. cbn [trace with_trace fst snd].
    unfold bind at 1, get_changed at 1. cbn [changed with_trace].
    destruct (changed s0); unfold bind, saveSeen, ret, liftIO, sleep, emit;
      cbn [trace with_trace]; [|discriminate].
    destruct (fs_writeFileSync W _) as [e1|] eqn:Hw; [|discriminate].
    intros [= <- <-]. eexists. split; [reflexivity | exact Hw].
  - unfold bind at 1, get_changed at 1.
    destruct (changed s0); unfold bind, saveSeen, ret, liftIO, sleep, emit;
      cbn [trace with_trace]; [|discriminate].
    destruct (fs_writeFileSync W _) as [e1|] eqn:Hw; [|discriminate].
    intros [= <- <-]. eexists. split; [reflexivity | exact Hw].
Qed.

Lemma for_each_fails {A} (P : Err -> State -> Prop) (f : A -> M unit) l s e s' :
  (forall a s0 e0 s1, f a s0 = (inl e0, s1) -> P e0 s1) ->
  for_each f l s = (inl e, s') -> P e s'.
Proof.
  intros Hf. revert s. induction l as [|a l IH]; intros s; simpl; [discriminate|].
  unfold bind. destruct (f a s) as [[e0|[]] s1] eqn:Ha.
  - intros [= <- <-]. eapply Hf, Ha.
  - apply IH.
Qed.

Lemma pollOnce_fails s e s' :
  pollOnce H W cfg chatId s = (inl e, s') -> write_failed W e s'.
Proof. apply for_each_fails, poll_handle_fails. Qed.

(** C1.  Start the process with any registry and run any number of polling
    cycles.  Once the trace records the delivery of the post with dedup
    key [key], then after any number of further cycles, whatever the
    sources return: the key is still marked, no further delivery of that
    key has been added to the trace, no key at all has been delivered
    twice, and an item of that key presented again is skipped without any
    effect. *)
Theorem delivered_post_never_resent
        (seen0 disk0 : gmap string bool) (n m : nat)
        (handle : string) (item : Item) (key : string) :
  let s1 := snd (cycles H W cfg chatId n (mkState [] seen0 disk0 false)) in
  let s2 := snd (cycles H W cfg chatId m s1) in
  key ∈ delivered (trace s1) ->
  dedup_key handle item = Some key ->
  marked s2 key /\
  (exists evs, trace s2 = trace s1 ++ evs /\ key ∉ delivered evs) /\
  NoDup (delivered (trace s2)) /\
  process_item H W cfg chatId handle item s2 = (inr tt, s2).
Proof.
  intros s1 s2 Hdel Hkey.
  destruct (cycles_grows n (mkState [] seen0 disk0 false)) as (_ & _ & Hs1).
  fold s1 in Hs1.
  assert (Hsound1 : registry_sound s1).
  { apply Hs1. split; simpl; [apply NoDup_nil_2 | intros k Hk; inversion Hk]. }
  destruct (cycles_grows m s1) as ((evs & Hevs) & Hm2 & Hs2). fold s2 in Hevs, Hm2, Hs2.
  destruct (Hs2 Hsound1) as [Hnd2 Hall2].
  assert (Hmark : marked s2 key) by (apply Hm2, Hsound1, Hdel).
  split; [exact Hmark|]. split; [|split; [exact Hnd2|]].
  - exists evs. split; [exact Hevs|].
    rewrite Hevs, delivered_app in Hnd2.
    apply NoDup_app in Hnd2. destruct Hnd2 as (_ & Hdisj & _).
    apply (Hdisj key), Hdel.
  - apply (process_item_seen handle item key); assumption.
Qed.

(** *** Exhausted tiers *)

Lemma for_mirrors_all_fail {A} (attempt : string -> IO A) bases lastErr none tr tr' :
  all_fail attempt bases tr tr' ->
  exists e, for_mirrors attempt bases lastErr none tr = (@inl Err A e, tr').
Proof.
  intros Hall. revert lastErr.
  induction Hall as [tr | b bs tr e tr1 tr2 Hb _ IH]; intros lastErr; simpl.
  - eexists. reflexivity.
  - unfold try_catch at 1. rewrite Hb. apply IH.
Qed.

Lemma withRetry_once_fails {A} (fn : IO A) t tr e1 tr1 e2 tr2 :
  fn tr = (inl e1, tr1) ->
  fn (tr1 ++ [EvSleep t]) = (inl e2, tr2) ->
  withRetry fn 1 t tr = (inl e2, tr2).
Proof.
  intros H1 H2. simpl. unfold try_catch at 1. rewrite H1.
  unfold bind, sleep, emit, try_catch. rewrite H2. reflexivity.
Qed.

Lemma fetchFeed_exhausted handle tr tr1 tr2 tr3 tr4 e5 tr5 e6 tr6 :
  all_fail (tier_attempt H W cfg TierRSS handle) NITTER_BASES tr tr1 ->
  all_fail (tier_attempt H W cfg TierRSS handle) NITTER_BASES (tr1 ++ [EvSleep 1200]) tr2 ->
  all_fail (tier_attempt H W cfg TierHTML handle) NITTER_BASES tr2 tr3 ->
  all_fail (tier_attempt H W cfg TierHTML handle) NITTER_BASES (tr3 ++ [EvSleep 1200]) tr4 ->
  fetchSyndication H W cfg handle tr4 = (inl e5, tr5) ->
  fetchSyndication H W cfg handle (tr5 ++ [EvSleep 1200]) = (inl e6, tr6) ->
  fetchFeed H W cfg handle tr = (inl e6, tr6).
Proof.
  intros R1 R2 H1 H2 S1 S2.
  destruct (for_mirrors_all_fail _ _ None "All Nitter RSS mirrors failed" _ _ R1) as (a1 & A1).
  destruct (for_mirrors_all_fail _ _ None "All Nitter RSS mirrors failed" _ _ R2) as (a2 & A2).
  destruct (for_mirrors_all_fail _ _ None "All Nitter HTML mirrors failed" _ _ H1) as (b1 & B1).
  destruct (for_mirrors_all_fail _ _ None "All Nitter HTML mirrors failed" _ _ H2) as (b2 & B2).
  unfold fetchFeed. unfold try_catch at 1.
  rewrite (withRetry_once_fails (fetchNitterRSS H W handle) 1200 tr a1 tr1 a2 tr2 A1 A2).
  unfold try_catch at 1.
  rewrite (withRetry_once_fails (fetchNitterHTML H W cfg handle) 1200 tr2 b1 tr3 b2 tr4 B1 B2).
  apply (withRetry_once_fails _ 1200 tr4 e5 tr5 e6 tr6 S1 S2).
Qed.

(** C8.  Let every mirror be rejected in both attempts of the feed tier and
    in both attempts of the HTML tier, and let the syndication tier fail
    twice.  Then the turn of that handle ends normally; it adds to the
    trace only requests and pauses, one log line for the handle and the
    pause between handles: no message is sent, no delivery is recorded
    and the file is not written.  The registry in memory and the file on
    disk are as before. *)
Theorem exhausted_handle_is_skipped
        (handle : string) (s : State) (tr1 tr2 tr3 tr4 tr5 tr6 : Trace) (e5 e6 : Err) :
  all_fail (tier_attempt H W cfg TierRSS handle) NITTER_BASES (trace s) tr1 ->
  all_fail (tier_attempt H W cfg TierRSS handle) NITTER_BASES (tr1 ++ [EvSleep 1200]) tr2 ->
  all_fail (tier_attempt H W cfg TierHTML handle) NITTER_BASES tr2 tr3 ->
  all_fail (tier_attempt H W cfg TierHTML handle) NITTER_BASES (tr3 ++ [EvSleep 1200]) tr4 ->
  fetchSyndication H W cfg handle tr4 = (inl e5, tr5) ->
  fetchSyndication H W cfg handle (tr5 ++ [EvSleep 1200]) = (inl e6, tr6) ->
  exists evs,
    Forall is_net evs /\
    poll_handle H W cfg chatId handle s =
      (inr tt,
       mkState (trace s ++ evs
                ++ [EvLog ("Feed error for " +:+ handle +:+ ": " +:+ message e6);
                    EvSleep PER_HANDLE_PAUSE_MS])
               (seen s) (disk s) false).
Proof.
  intros R1 R2 H1 H2 S1 S2.
  pose proof (fetchFeed_exhausted handle _ _ _ _ _ _ _ _ _ R1 R2 H1 H2 S1 S2) as Hfeed.
  destruct (fetchFeed_emits handle (trace s)) as (evs & Heq & Hevs).
  rewrite Hfeed in Heq. simpl in Heq. subst tr6.
  exists evs. split; [exact Hevs|].
  unfold poll_handle, fetch_and_deliver, bind, try_catch, set_changed,
    get_changed, liftIO, console_log, sleep, emit. simpl.
  rewrite Hfeed. simpl. rewrite <- !app_assoc. reflexivity.
Qed.

(** *** Persistence *)

Lemma fetch_and_deliver_turn_step handle :
  preserves turn_step (fetch_and_deliver H W cfg chatId handle).
Proof.
  unfold fetch_and_deliver.
  apply preserves_bind; [apply _ | | intros feed].
  - apply liftIO_turn_step.
    eapply emits_mono; [apply is_net_not_save | apply fetchFeed_emits].
  - apply preserves_for_each; [apply _ | apply process_item_turn_step].
Qed.

(** The turn of a handle, in terms of the state [s1] that its [try] block
    leaves. *)
Lemma poll_handle_eq handle s :
  let r := fetch_and_deliver H W cfg chatId handle
             (mkState (trace s) (seen s) (disk s) false) in
  let s1 :=
    match fst r with
    | inl e =>
        with_trace (snd r)
          (trace (snd r)
           ++ [EvLog ("Feed error for " +:+ handle +:+ ": " +:+ message e)])
    | inr _ => snd r
    end in
  poll_handle H W cfg chatId handle s =
    if changed s1
    then match fs_writeFileSync W (trace s1) with
         | None =>
             (inr tt,
              mkState ((trace s1 ++ [EvSaveSeen]) ++ [EvSleep PER_HANDLE_PAUSE_MS])
                      (seen s1) (seen s1) (changed s1))
         | Some e =>
             (inl e, mkState (trace s1 ++ [EvSaveSeen]) (seen s1) (disk s1) (changed s1))
         end
    else (inr tt,
          mkState (trace s1 ++ [EvSleep PER_HANDLE_PAUSE_MS])
                  (seen s1) (disk s1) (changed s1)).
Proof.
  intros r s1. subst s1. unfold poll_handle.
  unfold bind at 1, set_changed at 1. unfold bind at 1, try_catch at 1.
  fold r. destruct r as [[e|[]] s0]; simpl.
  - unfold bind, get_changed, liftIO, console_log, sleep, emit, with_trace. simpl.
    destruct (changed s0) eqn:Hc; unfold saveSeen, ret; simpl; rewrite ?Hc;
      [destruct (fs_writeFileSync W _)|]; reflexivity.
  - unfold bind, get_changed, liftIO, sleep, emit, with_trace. simpl.
    destruct (changed s0) eqn:Hc; unfold saveSeen, ret; simpl; rewrite ?Hc;
      [destruct (fs_writeFileSync W _)|]; reflexivity.
Qed.

(** The state that the [try] block of a turn leaves, log line included. *)
Lemma try_block_turn_step handle s :
  let r := fetch_and_deliver H W cfg chatId handle
             (mkState (trace s) (seen s) (disk s) false) in
  let s1 :=
    match fst r with
    | inl e =>
        with_trace (snd r)
          (trace (snd r)
           ++ [EvLog ("Feed error for " +:+ handle +:+ ": " +:+ message e)])
    | inr _ => snd r
    end in
  exists evs,
    Forall not_save evs /\ trace s1 = trace s ++ evs /\ disk s1 = disk s /\
    ((changed s1 = false /\ seen s1 = seen s) \/
     (changed s1 = true /\ exists key, ~ marked s key /\ marked s1 key)).
Proof.
  intros r s1.
  pose proof (fetch_and_deliver_turn_step handle
                (mkState (trace s) (seen s) (disk s) false)) as Hstep.
  fold r in Hstep. subst s1.
  destruct Hstep as ((evs & Htr & Hevs) & Hd & _ & Hcs).
  cbn [trace seen disk changed] in Htr, Hd, Hcs.
  assert (Hmarked : forall key, marked (mkState (trace s) (seen s) (disk s) false) key
                                <-> marked s key) by (intros key; reflexivity).
  destruct r as [[e|[]] s0]; cbn [fst snd] in *.
  - exists (evs ++ [EvLog ("Feed error for " +:+ handle +:+ ": " +:+ message e)]).
    split; [apply Forall_app; split; [exact Hevs | repeat constructor]|].
    unfold with_trace. cbn [trace seen disk changed].
    split; [rewrite Htr, app_assoc; reflexivity|]. split; [exact Hd|].
    destruct Hcs as [[Hc Hs]|[Hc (key & Hno & Hyes)]]; [left; auto | right].
    split; [exact Hc|]. exists key. split; [rewrite <- Hmarked; exact Hno | exact Hyes].
  - exists evs. split; [exact Hevs|]. split; [exact Htr|]. split; [exact Hd|].
    destruct Hcs as [[Hc Hs]|[Hc (key & Hno & Hyes)]]; [left; auto | right].
    split; [exact Hc|]. exists key. split; [rewrite <- Hmarked; exact Hno | exact Hyes].
Qed.

(** C9, as the code has it.  The registry is written to disk once per
    handle and cycle, after all posts of that handle have been processed,
    and exactly when a key was marked during the turn.  While the turn
    fetches and delivers, the file is not written.  At its end, either the
    registry is as it was at the start of the turn: then the file is not
    written at all and is as before; or some key that was not marked is
    now marked: then the file is written once, before the pause.  When
    that write returns, the file holds exactly the registry in memory;
    when it throws, the error leaves the turn and the pause is not
    made. *)
Theorem registry_saved_once_per_handle (handle : string) (s : State) :
  let r := poll_handle H W cfg chatId handle s in
  let s' := snd r in
  exists evs,
    Forall not_save evs /\
    ((seen s' = seen s /\ disk s' = disk s /\ fst r = inr tt /\
      trace s' = trace s ++ evs ++ [EvSleep PER_HANDLE_PAUSE_MS])
     \/
     ((exists key, ~ marked s key /\ marked s' key) /\
      match fs_writeFileSync W (trace s ++ evs) with
      | None =>
          fst r = inr tt /\
          trace s' = trace s ++ evs ++ [EvSaveSeen; EvSleep PER_HANDLE_PAUSE_MS] /\
          disk s' = seen s'
      | Some e =>
          fst r = inl e /\ trace s' = trace s ++ evs ++ [EvSaveSeen]
      end)).
Proof.
  intros r s'. subst s' r. rewrite poll_handle_eq.
  destruct (try_block_turn_step handle s) as (evs & Hevs & Htr & Hd & Hcs).
  cbv zeta in Htr, Hd, Hcs.
  set (s1 := match fst (fetch_and_deliver H W cfg chatId handle _) with
             | inl e => _
             | inr _ => _
             end) in *.
  exists evs. split; [exact Hevs|].
  destruct Hcs as [[Hc Hs]|[Hc (key & Hno & Hyes)]]; rewrite Hc.
  - left. cbn [fst snd trace seen disk]. rewrite Htr, <- app_assoc. auto.
  - right. rewrite <- Htr.
    destruct (fs_writeFileSync W (trace s1)) as [e|]; cbn [fst snd trace seen disk].
    + split; [exists key; auto|]. rewrite Htr, <- app_assoc. auto.
    + split; [exists key; auto|]. rewrite Htr, <- !app_assoc. auto.
Qed.

(** C10.  When an item that is not yet marked yields an empty text, the
    scheduler marks its key and raises [changed] without any other
    effect: nothing is fetched, sent or logged.  From then on, after any
    number of further cycles, every item with that key is skipped without
    effect, whatever its content has become. *)
Theorem empty_text_is_marked_unsent
        (handle : string) (item item' : Item) (key : string) (s : State) (m : nat) :
  dedup_key handle item = Some key ->
  ~ marked s key ->
  extractText H item = EmptyString ->
  dedup_key handle item' = Some key ->
  let s1 := mkState (trace s) (<[key := true]> (seen s)) (disk s) true in
  let s2 := snd (cycles H W cfg chatId m s1) in
  process_item H W cfg chatId handle item s = (inr tt, s1) /\
  process_item H W cfg chatId handle item' s2 = (inr tt, s2).
Proof.
  intros Hkey Hno Htext Hkey' s1 s2. split.
  - unfold process_item. rewrite Hkey. unfold bind at 1.
    destruct (is_seen_spec key s) as [[_ Hyes] | [-> _]]; [contradiction|].
    rewrite Htext. reflexivity.
  - apply (process_item_seen handle item' key); [exact Hkey'|].
    destruct (cycles_grows m s1) as (_ & Hmono & _). apply Hmono.
    unfold marked, s1. simpl. apply lookup_insert_eq.
Qed.

(** *** Display time *)

(** C4, as the code has it.  When the item carries a structured date
    that parses to a valid date, the display time is that date in the IST
    format; the raw timestamp of the item plays no part and nothing is
    fetched. *)
Theorem valid_isoDate_overrides_ts (item : Item) (d : Z) (tr : Trace) :
  Js.truthy (isoDate item) = true ->
  Date_parse H (default "" (isoDate item)) = Some d ->
  getDisplayTime H W item tr = (inr (formatIST H d), tr).
Proof.
  intros Hiso Hd. unfold getDisplayTime. rewrite Hiso, Hd. reflexivity.
Qed.

(** A structured date that does not parse is passed over: the raw
    timestamp is used. *)
Lemma invalid_isoDate_falls_through (item : Item) (tr : Trace) :
  Date_parse H (default "" (isoDate item)) = None ->
  Js.truthy (_ts item) = true ->
  getDisplayTime H W item tr =
    (inr (match Date_parse H (default "" (_ts item)) with
          | Some parsed => formatIST H parsed
          | None => default "" (_ts item)
          end), tr).
Proof.
  intros Hd Hts. unfold getDisplayTime, without_FFFD. rewrite Hd, Hts.
  destruct (Js.truthy (isoDate item)); simpl;
    destruct (Date_parse H (default "" (_ts item))); reflexivity.
Qed.

End Facts.

(** ** The text normaliser *)

Lemma eqb_nl_char c : Ascii.eqb nl_char c = true <-> c = nl_char.
Proof. rewrite Ascii.eqb_eq. split; congruence. Qed.

Lemma nl_is_space : Js.is_space nl_char = true.
Proof. reflexivity. Qed.

Lemma trimEnd_cons c s :
  Js.trimEnd (String c s) =
  match Js.trimEnd s with
  | EmptyString => if Js.is_space c then EmptyString else String c EmptyString
  | r => String c r
  end.
Proof. reflexivity. Qed.

Lemma trimEnd_idem s : Js.trimEnd (Js.trimEnd s) = Js.trimEnd s.
Proof.
  induction s as [|c s IH]; [reflexivity|].
  rewrite trimEnd_cons. destruct (Js.trimEnd s) as [|d r] eqn:Hr.
  - destruct (Js.is_space c) eqn:Hc; [reflexivity|].
    rewrite trimEnd_cons. simpl. rewrite Hc. reflexivity.
  - rewrite trimEnd_cons, IH. reflexivity.
Qed.

Lemma trimEnd_head c s d r : Js.trimEnd (String c s) = String d r -> d = c.
Proof.
  rewrite trimEnd_cons. destruct (Js.trimEnd s); [destruct (Js.is_space c)|]; congruence.
Qed.

Lemma trimEnd_head_keeps c s : Js.is_space c = false -> exists r, Js.trimEnd (String c s) = String c r.
Proof.
  intros Hc. rewrite trimEnd_cons. destruct (Js.trimEnd s); [rewrite Hc|]; eauto.
Qed.

Lemma lacks_trimEnd c s : lacks c s = true -> lacks c (Js.trimEnd s) = true.
Proof.
  induction s as [|d s IH]; [auto|]. intros Hl.
  change (negb (Ascii.eqb d c) && lacks c s = true) in Hl.
  apply andb_true_iff in Hl. destruct Hl as [Hd Hs].
  rewrite trimEnd_cons. specialize (IH Hs).
  destruct (Js.trimEnd s) as [|e r]; [destruct (Js.is_space d)|].
  - reflexivity.
  - simpl. rewrite Hd. reflexivity.
  - change (negb (Ascii.eqb d c) && lacks c (String e r) = true).
    rewrite Hd, IH. reflexivity.
Qed.

Lemma split_lines_cons c s :
  Js.split_lines (String c s) =
  if Ascii.eqb c nl_char then EmptyString :: Js.split_lines s
  else match Js.split_lines s with
       | l :: ls => String c l :: ls
       | [] => [String c EmptyString]
       end.
Proof. reflexivity. Qed.

Lemma split_lines_nonempty s : exists l ls, Js.split_lines s = l :: ls /\ lacks nl_char l = true.
Proof.
  induction s as [|c s (l & ls & Hs & Hl)]; [exists EmptyString, []; auto|].
  rewrite split_lines_cons. destruct (Ascii.eqb c nl_char) eqn:Hc.
  - exists EmptyString, (Js.split_lines s). auto.
  - rewrite Hs. exists (String c l), ls. split; [reflexivity|]. simpl. rewrite Hc, Hl. reflexivity.
Qed.

Lemma join_lines_cons c x T :
  Js.join_lines (String c x :: T) = String c (Js.join_lines (x :: T)).
Proof. destruct T; reflexivity. Qed.

Lemma join_lines_empty_head T :
  starts_line (Js.join_lines (EmptyString :: T)).
Proof. destruct T; simpl; auto. Qed.

Lemma join_lines_nl y T :
  Js.join_lines (EmptyString :: y :: T) = String nl_char (Js.join_lines (y :: T)).
Proof. reflexivity. Qed.

Lemma trim_lines_nl s : trim_lines (String nl_char s) = String nl_char (trim_lines s).
Proof.
  unfold trim_lines. rewrite split_lines_cons. simpl Ascii.eqb. cbv iota.
  destruct (split_lines_nonempty s) as (l & ls & -> & _). reflexivity.
Qed.

(** The equation of [trim_lines] on a character other than a line feed. *)
Lemma trim_lines_cons c s :
  c <> nl_char ->
  (Js.is_space c = true /\ starts_line (trim_lines s) /\ trim_lines (String c s) = trim_lines s)
  \/ trim_lines (String c s) = String c (trim_lines s).
Proof.
  intros Hc. unfold trim_lines. rewrite split_lines_cons.
  destruct (Ascii.eqb c nl_char) eqn:E; [apply Ascii.eqb_eq in E; contradiction|].
  destruct (split_lines_nonempty s) as (l & ls & -> & Hl). cbn [map].
  rewrite trimEnd_cons. destruct (Js.trimEnd l) as [|d r] eqn:Hr.
  - destruct (Js.is_space c) eqn:Hsp.
    + left. split; [reflexivity|]. split; [apply join_lines_empty_head | reflexivity].
    + right. apply join_lines_cons.
  - right. apply join_lines_cons.
Qed.

Lemma trim_lines_head_not_nl s l ls d r :
  Js.split_lines s = l :: ls -> lacks nl_char l = true -> Js.trimEnd l = String d r -> d <> nl_char.
Proof.
  intros _ Hl Hr. apply (lacks_trimEnd nl_char) in Hl. rewrite Hr in Hl. simpl in Hl.
  apply andb_true_iff in Hl. destruct Hl as [Hd _]. intros ->. discriminate.
Qed.

Lemma trim_lines_trimmed s : lines_trimmed (trim_lines s).
Proof.
  induction s as [|c s IH]; [exact I|].
  destruct (Ascii.eqb c nl_char) eqn:E.
  - apply Ascii.eqb_eq in E. subst c. rewrite trim_lines_nl. cbn [lines_trimmed].
    split; [congruence | exact IH].
  - assert (Hc : c <> nl_char) by (intros ->; discriminate).
    unfold trim_lines in *. rewrite split_lines_cons, E.
    destruct (split_lines_nonempty s) as (l & ls & Hs & Hl). rewrite Hs in *. cbn [map] in *.
    rewrite trimEnd_cons. destruct (Js.trimEnd l) as [|d r] eqn:Hr.
    + destruct (Js.is_space c) eqn:Hsp; [exact IH|].
      rewrite join_lines_cons. cbn [lines_trimmed]. split; [congruence | exact IH].
    + rewrite join_lines_cons. cbn [lines_trimmed]. split; [|exact IH].
      intros _ _. rewrite join_lines_cons. cbn [starts_line].
      eapply trim_lines_head_not_nl; eauto.
Qed.

Lemma trim_lines_id s : lines_trimmed s -> trim_lines s = s.
Proof.
  induction s as [|c s IH]; [reflexivity|]. intros [Hc Hs]. specialize (IH Hs).
  destruct (Ascii.eqb c nl_char) eqn:E.
  - apply Ascii.eqb_eq in E. subst c. rewrite trim_lines_nl, IH. reflexivity.
  - assert (Hne : c <> nl_char) by (intros ->; discriminate).
    destruct (trim_lines_cons c s Hne) as [(Hsp & Hst & _) | ->]; [|rewrite IH; reflexivity].
    rewrite IH in Hst. exfalso. exact (Hc Hsp Hne Hst).
Qed.

Lemma replace_go_skip m r k s :
  Js.replace_go m r k s = Js.replace_go m r 0 (Js.drop k s).
Proof.
  revert k. induction s as [|c s IH]; intros k.
  - destruct k; reflexivity.
  - destruct k as [|k]; [reflexivity|]. simpl Js.drop. cbn [Js.replace_go]. apply IH.
Qed.

Lemma replace_all_cons m r c s :
  Js.replace_all m r (String c s) =
  match m (String c s) with
  | Some (S k) => r +:+ Js.replace_all m r (Js.drop (S k) (String c s))
  | _ => String c (Js.replace_all m r s)
  end.
Proof.
  unfold Js.replace_all. cbn [Js.replace_go].
  destruct (m (String c s)) as [[|k]|]; try reflexivity.
  rewrite replace_go_skip. reflexivity.
Qed.

(** A matcher that only fires on a given first character finds nothing in a
    string without that character. *)
Lemma replace_all_lacks m r a s :
  (forall c u, c <> a -> m (String c u) = None) ->
  lacks a s = true -> Js.replace_all m r s = s.
Proof.
  intros Hm. induction s as [|c s IH]; [reflexivity|]. intros Hl.
  change (negb (Ascii.eqb c a) && lacks a s = true) in Hl.
  apply andb_true_iff in Hl. destruct Hl as [Hc Hs].
  rewrite replace_all_cons, Hm, (IH Hs); [reflexivity|].
  intros ->. rewrite Ascii.eqb_refl in Hc. discriminate.
Qed.

Lemma eqb_ci_lt c : Js.eqb_ci "<" c = true -> c = "<"%char.
Proof.
  destruct c as [[] [] [] [] [] [] [] []]; vm_compute; intros E; congruence.
Qed.

Lemma startsWith_ci_lt p c u :
  c <> "<"%char -> Js.startsWith_ci (String "<" p) (String c u) = false.
Proof.
  intros Hc. cbn [Js.startsWith_ci].
  destruct (Js.eqb_ci "<" c) eqn:E; [apply eqb_ci_lt in E; contradiction | reflexivity].
Qed.

Lemma match_br_lt c u : c <> "<"%char -> match_br (String c u) = None.
Proof. intros Hc. unfold match_br. rewrite (startsWith_ci_lt "br" c u Hc). reflexivity. Qed.

Lemma match_tag_lt p c u : c <> "<"%char -> match_tag (String "<" p) (String c u) = None.
Proof. intros Hc. unfold match_tag. rewrite (startsWith_ci_lt p c u Hc). reflexivity. Qed.

Lemma nl_run_cons c s :
  nl_run (String c s) = if Ascii.eqb nl_char c then S (nl_run s) else 0%nat.
Proof. unfold nl_run. cbn [Js.take_while]. destruct (Ascii.eqb nl_char c); reflexivity. Qed.

Lemma nl_run_drop s : nl_run (Js.drop (nl_run s) s) = 0%nat.
Proof.
  induction s as [|c s IH]; [reflexivity|].
  rewrite nl_run_cons. destruct (Ascii.eqb nl_char c) eqn:E.
  - cbn [Js.drop]. exact IH.
  - cbn [Js.drop]. rewrite nl_run_cons, E. reflexivity.
Qed.

Lemma length_drop k u : (String.length (Js.drop k u) <= String.length u)%nat.
Proof.
  revert u. induction k as [|k IH]; intros u; [reflexivity|].
  destruct u as [|d u]; [reflexivity|]. cbn [Js.drop String.length].
  specialize (IH u). lia.
Qed.

Lemma match_newlines_run s :
  match_newlines s = if (3 <=? nl_run s)%nat then Some (nl_run s) else None.
Proof. reflexivity. Qed.

Lemma collapse_cons c s :
  collapse (String c s) =
  if (3 <=? nl_run (String c s))%nat
  then String nl_char (String nl_char
         (collapse (Js.drop (nl_run (String c s)) (String c s))))
  else String c (collapse s).
Proof.
  unfold collapse. rewrite replace_all_cons, match_newlines_run.
  destruct (3 <=? nl_run (String c s))%nat eqn:E; [|reflexivity].
  apply Nat.leb_le in E. destruct (nl_run (String c s)) as [|k]; [lia | reflexivity].
Qed.

(** Induction along the way [collapse] reads its argument. *)
Lemma collapse_ind (P : string -> string -> Prop) :
  P EmptyString EmptyString ->
  (forall c s, (nl_run (String c s) < 3)%nat ->
               P s (collapse s) -> P (String c s) (String c (collapse s))) ->
  (forall s, (3 <= nl_run s)%nat ->
             P (Js.drop (nl_run s) s) (collapse (Js.drop (nl_run s) s)) ->
             P s (String nl_char (String nl_char (collapse (Js.drop (nl_run s) s))))) ->
  forall s, P s (collapse s).
Proof.
  intros Hnil Hkeep Hcut s.
  assert (G : forall n s, (String.length s <= n)%nat -> P s (collapse s)).
  { clear s. induction n as [|n IH]; intros s Hlen.
    - destruct s; [exact Hnil | simpl in Hlen; lia].
    - destruct s as [|c s]; [exact Hnil|].
      cbn [String.length] in Hlen. rewrite collapse_cons.
      destruct (3 <=? nl_run (String c s))%nat eqn:E.
      + apply Nat.leb_le in E. apply Hcut; [exact E|]. apply IH.
        destruct (nl_run (String c s)) as [|k]; [lia|]. cbn [Js.drop].
        pose proof (length_drop k s). lia.
      + apply Nat.leb_gt in E. apply Hkeep; [exact E|]. apply IH. lia. }
  apply (G (String.length s)). reflexivity.
Qed.

Lemma collapse_no_triple s :
  no_triple (collapse s) /\ (nl_run (collapse s) <= nl_run s)%nat.
Proof.
  apply (collapse_ind (fun s y => no_triple y /\ (nl_run y <= nl_run s)%nat)).
  - simpl. split; [split; [unfold nl_run; simpl; lia | exact I] | reflexivity].
  - intros c u Hrun [Hnt Hle].
    assert (Hle' : (nl_run (String c (collapse u)) <= nl_run (String c u))%nat).
    { rewrite !nl_run_cons. destruct (Ascii.eqb nl_char c); lia. }
    split; [|exact Hle']. cbn [no_triple]. split; [lia | exact Hnt].
  - intros u Hrun [Hnt Hle]. rewrite nl_run_drop in Hle.
    assert (H0 : nl_run (collapse (Js.drop (nl_run u) u)) = 0%nat) by lia.
    split.
    + cbn [no_triple]. rewrite !nl_run_cons, Ascii.eqb_refl, H0.
      repeat split; try lia. exact Hnt.
    + rewrite !nl_run_cons, Ascii.eqb_refl, H0. lia.
Qed.

Lemma collapse_id s : no_triple s -> collapse s = s.
Proof.
  induction s as [|c s IH]; [reflexivity|]. intros [Hrun Hnt].
  rewrite collapse_cons.
  destruct (3 <=? nl_run (String c s))%nat eqn:E; [apply Nat.leb_le in E; lia|].
  rewrite (IH Hnt). reflexivity.
Qed.

Lemma collapse_head d s : exists r, collapse (String d s) = String d r.
Proof.
  rewrite collapse_cons. destruct (3 <=? nl_run (String d s))%nat eqn:E; [|eauto].
  apply Nat.leb_le in E. rewrite nl_run_cons in E.
  destruct (Ascii.eqb nl_char d) eqn:Hd; [|lia].
  apply Ascii.eqb_eq in Hd. subst d. eauto.
Qed.

Lemma starts_line_collapse s : starts_line (collapse s) -> starts_line s.
Proof.
  destruct s as [|d s]; [auto|]. destruct (collapse_head d s) as (r & ->). auto.
Qed.

Lemma lines_trimmed_drop k s : lines_trimmed s -> lines_trimmed (Js.drop k s).
Proof.
  revert s. induction k as [|k IH]; intros s Hs; [exact Hs|].
  destruct s as [|c s]; [exact I|]. cbn [Js.drop]. apply IH. apply Hs.
Qed.

Lemma collapse_trimmed s : lines_trimmed s -> lines_trimmed (collapse s).
Proof.
  apply (collapse_ind (fun s y => lines_trimmed s -> lines_trimmed y)).
  - auto.
  - intros c u _ IH [Hc Hu]. cbn [lines_trimmed]. split; [|exact (IH Hu)].
    intros Hsp Hne Hst. apply (Hc Hsp Hne). apply starts_line_collapse, Hst.
  - intros u _ IH Hu. cbn [lines_trimmed].
    split; [congruence|]. split; [congruence|].
    apply IH, lines_trimmed_drop, Hu.
Qed.

Lemma drop_while_suffix (P : string -> Prop) f s :
  (forall c u, P (String c u) -> P u) -> P s -> P (Js.drop_while f s).
Proof.
  intros Hsuf. induction s as [|c s IH]; [auto|]. intros Hs.
  cbn [Js.drop_while]. destruct (f c); [apply IH, (Hsuf c s Hs) | exact Hs].
Qed.

Lemma drop_while_head f s :
  Js.drop_while f s = EmptyString \/
  exists c r, Js.drop_while f s = String c r /\ f c = false.
Proof.
  induction s as [|c s IH]; [left; reflexivity|].
  cbn [Js.drop_while]. destruct (f c) eqn:E; [exact IH | right; eauto].
Qed.

Lemma drop_while_id f c r : f c = false -> Js.drop_while f (String c r) = String c r.
Proof. intros E. cbn [Js.drop_while]. rewrite E. reflexivity. Qed.

Lemma nl_run_trimEnd s : (nl_run (Js.trimEnd s) <= nl_run s)%nat.
Proof.
  induction s as [|c s IH]; [reflexivity|].
  rewrite trimEnd_cons. destruct (Js.trimEnd s) as [|d r] eqn:Hr.
  - destruct (Js.is_space c) eqn:Hsp; [unfold nl_run; simpl; lia|].
    rewrite !nl_run_cons. destruct (Ascii.eqb nl_char c) eqn:E; [|lia].
    apply Ascii.eqb_eq in E. subst c. discriminate.
  - rewrite (nl_run_cons c (String d r)), (nl_run_cons c s).
    destruct (Ascii.eqb nl_char c); lia.
Qed.

Lemma trimEnd_no_triple s : no_triple s -> no_triple (Js.trimEnd s).
Proof.
  induction s as [|c s IH]; [auto|]. intros [Hrun Hs].
  pose proof (nl_run_trimEnd (String c s)) as Hle.
  specialize (IH Hs). revert Hle. rewrite trimEnd_cons.
  destruct (Js.trimEnd s) as [|d r] eqn:Hr.
  - destruct (Js.is_space c); intros Hle; cbn [no_triple]; repeat split; auto;
      try lia; unfold nl_run; simpl; lia.
  - intros Hle. cbn [no_triple]. split; [lia|]. exact IH.
Qed.

Lemma trimEnd_trimmed s : lines_trimmed s -> lines_trimmed (Js.trimEnd s).
Proof.
  induction s as [|c s IH]; [auto|]. intros [Hc Hs]. specialize (IH Hs).
  rewrite trimEnd_cons. destruct (Js.trimEnd s) as [|d r] eqn:Hr.
  - destruct (Js.is_space c) eqn:Hsp; [exact I|].
    cbn [lines_trimmed]. split; [congruence | exact I].
  - cbn [lines_trimmed]. split; [|exact IH].
    intros Hsp Hne Hst. apply (Hc Hsp Hne).
    destruct s as [|d0 s0]; [exact I|].
    apply trimEnd_head in Hr. subst d0. exact Hst.
Qed.

Lemma trim_idem s : Js.trim (Js.trim s) = Js.trim s.
Proof.
  unfold Js.trim, Js.trimStart.
  destruct (drop_while_head Js.is_space s) as [-> | (c & r & -> & Hc)]; [reflexivity|].
  destruct (trimEnd_head_keeps c r Hc) as (r' & Hr). rewrite Hr.
  rewrite (drop_while_id _ c r' Hc), <- Hr. apply trimEnd_idem.
Qed.

Lemma trim_no_triple s : no_triple s -> no_triple (Js.trim s).
Proof.
  intros Hs. apply trimEnd_no_triple.
  apply (drop_while_suffix no_triple); [|exact Hs]. intros c u Hcu. apply Hcu.
Qed.

Lemma trim_trimmed s : lines_trimmed s -> lines_trimmed (Js.trim s).
Proof.
  intros Hs. apply trimEnd_trimmed.
  apply (drop_while_suffix lines_trimmed); [|exact Hs]. intros c u Hcu. apply Hcu.
Qed.

Lemma tidy_idem text : tidy (tidy text) = tidy text.
Proof.
  unfold tidy at 1.
  rewrite trim_lines_id.
  2:{ apply trim_trimmed, collapse_trimmed, trim_lines_trimmed. }
  rewrite collapse_id.
  2:{ apply trim_no_triple, collapse_no_triple. }
  apply trim_idem.
Qed.

Section Normaliser.

Variable H : Host.

Lemma htmlToText_tidy html :
  html <> EmptyString ->
  exists text, htmlToText H html = tidy text.
Proof.
  intros Hne. unfold htmlToText. destruct html; [contradiction|]. simpl negb. cbv iota.
  eexists. reflexivity.
Qed.

Lemma htmlToText_empty : htmlToText H EmptyString = EmptyString.
Proof. reflexivity. Qed.

(** On a string without [<], whose text the parser and the entity decoder
    leave alone, [htmlToText] only tidies. *)
Lemma htmlToText_plain t :
  lacks "<" t = true ->
  html_innerText H t = t ->
  he_decode H t = t ->
  htmlToText H t = tidy t.
Proof.
  intros Hlt Hinner Hdec. destruct t as [|c t]; [reflexivity|].
  unfold htmlToText. simpl negb. cbv iota.
  rewrite (replace_all_lacks match_br nl "<" _ match_br_lt Hlt).
  rewrite (replace_all_lacks (match_tag "</p>") _ "<" _ (match_tag_lt "/p>") Hlt).
  rewrite (replace_all_lacks (match_tag "</li>") _ "<" _ (match_tag_lt "/li>") Hlt).
  rewrite (replace_all_lacks (match_tag "</ul>") _ "<" _ (match_tag_lt "/ul>") Hlt).
  rewrite Hinner. simpl Js.nonempty. cbv iota. rewrite Hdec. reflexivity.
Qed.

(** C5, as the code has it.  Normalising the output of the normaliser
    gives the same string whenever that output holds no markup for the
    second pass to act on: it contains no [<], and the parser and the
    entity decoder return it unchanged. *)
Theorem htmlToText_idempotent_on_plain_output (s : string) :
  let t := htmlToText H s in
  lacks "<" t = true ->
  html_innerText H t = t ->
  he_decode H t = t ->
  htmlToText H t = t.
Proof.
  intros t Hlt Hinner Hdec.
  rewrite (htmlToText_plain t Hlt Hinner Hdec).
  destruct s as [|c s]; [reflexivity|].
  destruct (htmlToText_tidy (String c s)) as (text & Htext); [discriminate|].
  subst t. rewrite Htext. apply tidy_idem.
Qed.

(** Escaped markup is why it fails in general: the first pass decodes it,
    the second pass reads it as markup. *)
Lemma htmlToText_escaped_br :
  html_innerText H "&lt;br&gt;" = "&lt;br&gt;" ->
  he_decode H "&lt;br&gt;" = "<br>" ->
  html_innerText H nl = nl ->
  he_decode H nl = nl ->
  htmlToText H "&lt;br&gt;" = "<br>" /\
  htmlToText H (htmlToText H "&lt;br&gt;") = EmptyString.
Proof.
  intros H1 H2 H3 H4.
  assert (Hfirst : htmlToText H "&lt;br&gt;" = "<br>").
  { unfold htmlToText. simpl negb. cbv iota.
    change (Js.replace_all (match_tag "</ul>") nl _) with "&lt;br&gt;".
    rewrite H1. simpl Js.nonempty. cbv iota. rewrite H2. reflexivity. }
  split; [exact Hfirst|]. rewrite Hfirst.
  unfold htmlToText. simpl negb. cbv iota.
  change (Js.replace_all (match_tag "</ul>") nl _) with nl.
  rewrite H3. simpl Js.nonempty. cbv iota. rewrite H4. reflexivity.
Qed.

End Normaliser.

(** ** Image addresses *)

(** The widget tier and the metadata fetch rewrite a protocol-relative
    address to the secure scheme. *)
Lemma syndication_image_rewrites u data_src :
  Js.startsWith "//" u = true ->
  syndication_image (Some (Some u, data_src)) = Some ("https:" +:+ u).
Proof.
  intros Hu. destruct u as [|c u]; [discriminate|].
  unfold syndication_image, Js.or. cbn -[Js.startsWith]. rewrite Hu. reflexivity.
Qed.

Lemma og_image_rewrites u :
  Js.startsWith "//" u = true -> og_image (Some u) = Some ("https:" +:+ u).
Proof.
  intros Hu. destruct u as [|c u]; [discriminate|].
  unfold og_image, Js.or. cbn -[Js.startsWith]. rewrite Hu. reflexivity.
Qed.

(** The DOM tier takes it for a path on the mirror. *)
Lemma nitter_image_prefixes base u :
  Js.startsWith "//" u = true ->
  nitter_image base (Some (Some u)) = Some (base +:+ u).
Proof.
  intros Hu.
  destruct u as [|c u]; [discriminate|].
  assert (Hs : Js.startsWith "/" (String c u) = true).
  { change (Ascii.eqb "/" c && Js.startsWith "/" u = true) in Hu.
    change (Ascii.eqb "/" c && true = true).
    apply andb_true_iff in Hu. destruct Hu as [-> _]. reflexivity. }
  unfold nitter_image, Js.or. cbn -[Js.startsWith String.append]. rewrite Hs.
  destruct base; reflexivity.
Qed.

(** ** The items of a turn *)

Lemma slice_last {A} (n : Z) (l : list A) :
  (0 < n)%Z ->
  Js.slice (- n) None l = List.skipn (length l - Z.to_nat n) l.
Proof.
  intros Hn. unfold Js.slice.
  assert (Hneg : (- n <? 0)%Z = true) by (apply Z.ltb_lt; lia).
  rewrite Hneg.
  replace (Z.to_nat (Z.max (Z.of_nat (length l) + - n) 0))
    with (length l - Z.to_nat n)%nat by lia.
  rewrite take_ge; [reflexivity|].
  rewrite length_skipn. lia.
Qed.

(** With a positive cap, a turn processes the last [cap] entries of the
    feed, last entry first. *)
Lemma subset_reversed_last cfg its :
  (0 < MAX_ITEMS_PER_HANDLE cfg)%Z ->
  subset_reversed cfg its =
  rev (List.skipn (length its - Z.to_nat (MAX_ITEMS_PER_HANDLE cfg)) its).
Proof. intros Hn. unfold subset_reversed. rewrite slice_last by exact Hn. reflexivity. Qed.

(** * The program on concrete inputs *)

Example classify_rate_limit :
  looksLikeRateLimit "Instance has been RATE LIMITED. Try again later" = true /\
  looksLikeWhitelistBlock "RSS reader not yet whitelisted!" = true /\
  looksLikeEmptyTimeline "This account is private" = true /\
  isXMLish ("  <?xml version='1.0'?><RSS version='2.0'></RSS>") = true /\
  isXMLish "Title: nitter" = false.
Proof. vm_compute. auto. Qed.

Example proxy_urls :
  viaHttp "HTTPS://nitter.net/LiveLawIndia/rss" = "https://r.jina.ai/http://nitter.net/LiveLawIndia/rss" /\
  viaHttps "http://nitter.net/LiveLawIndia" = "https://r.jina.ai/https://nitter.net/LiveLawIndia" /\
  viaHttps "nitter.net/x" = "https://r.jina.ai/https://nitter.net/x".
Proof. vm_compute. auto. Qed.

Example tweet_ids :
  getTweetIdFromLink (Some "https://nitter.net/h/status/1789#m") = Some "1789" /\
  getTweetIdFromLink (Some "https://example.org/status/none") = Some "https://example.org/status/none" /\
  getTweetIdFromLink (Some "") = None /\
  getTweetIdFromLink None = None.
Proof. vm_compute. auto. Qed.

Example markdown_links :
  extractStatusLinksMD
    "[a](https://nitter.net/u/status/12#m) (http://x/status/) [b](https://nitter.net/u/status/12#m) (https://nitter.net/u/status/7)"
  = ["https://nitter.net/u/status/12#m"; "https://nitter.net/u/status/7"].
Proof. vm_compute. reflexivity. Qed.

Example normalised_text :
  htmlToText (Sample.host Sample.no_feed)
    "<p>Hello &amp; bye</p><p>x  </p><br/><br><BR >z"
  = "Hello & bye" +:+ nl +:+ nl +:+ "x" +:+ nl +:+ nl +:+ "z".
Proof. vm_compute. reflexivity. Qed.

Example title_fallback :
  extractText (Sample.host Sample.no_feed)
    (mkItem None None None (Some "LiveLaw:  Supreme Court &amp; more ") None None None None None)
  = "Supreme Court & more".
Proof. vm_compute. reflexivity. Qed.

Example handles_in_priority_order :
  prioritized (Sample.config [" @x "; ""; "@barandbench"; "@x"] None)
  = ["@LiveLawIndia"; "@lawbarandbench"; "@barandbench"; "@TheLeaflet_in";
     "@LawBeatInd"; "@verdictum_in"; "@x"].
Proof. vm_compute. reflexivity. Qed.

(** All three requests fail: the error names the URL of the direct one. *)
Lemma direct_error_is_raised :
  fetchTextSmart Sample.offline "https://nitter.net/h/rss" (Some "https://nitter.net") [] =
  (inl (Error "HTTP 503 @ https://nitter.net/h/rss"),
   [EvFetch "https://nitter.net/h/rss" (Some "https://nitter.net");
    EvFetch "https://r.jina.ai/http://nitter.net/h/rss" (Some "https://nitter.net");
    EvFetch "https://r.jina.ai/https://nitter.net/h/rss" (Some "https://nitter.net")]).
Proof. vm_compute. reflexivity. Qed.

Lemma delivered_post_never_resent_witness :
  let h := Sample.host (fun _ => inr Sample.feed3) in
  let w := Sample.serving Sample.rss in
  let s1 := snd (cycles h w Sample.cap8 "chat" 1 Sample.start) in
  let s2 := snd (cycles h w Sample.cap8 "chat" 1 s1) in
  "@LiveLawIndia:12" ∈ delivered (trace s1) /\
  marked s2 "@LiveLawIndia:12" /\
  NoDup (delivered (trace s2)).
Proof.
  intros h w s1 s2.
  assert (Hdel : "@LiveLawIndia:12" ∈ delivered (trace s1)).
  { apply list_elem_of_In. vm_compute. tauto. }
  split; [exact Hdel|].
  destruct (delivered_post_never_resent h w Sample.cap8 "chat" ∅ ∅ 1 1
              "@LiveLawIndia" (Sample.post "12" "post 12") "@LiveLawIndia:12"
              Hdel eq_refl) as (Hmark & _ & Hnd & _).
  split; [exact Hmark | exact Hnd].
Defined.

Lemma exhausted_handle_is_skipped_witness :
  let r := poll_handle (Sample.host Sample.no_feed) Sample.offline Sample.cap8
             "chat" "@h" Sample.start in
  fst r = inr tt /\ seen (snd r) = ∅ /\ disk (snd r) = ∅ /\ delivered (trace (snd r)) = [].
Proof.
  intros r.
  edestruct (exhausted_handle_is_skipped (Sample.host Sample.no_feed) Sample.offline
               Sample.cap8 "chat" "@h" Sample.start) as (evs & Hevs & Heq).
  - repeat (eapply all_fail_cons; [vm_compute; reflexivity|]). apply all_fail_nil.
  - repeat (eapply all_fail_cons; [vm_compute; reflexivity|]). apply all_fail_nil.
  - repeat (eapply all_fail_cons; [vm_compute; reflexivity|]). apply all_fail_nil.
  - repeat (eapply all_fail_cons; [vm_compute; reflexivity|]). apply all_fail_nil.
  - vm_compute. reflexivity.
  - vm_compute. reflexivity.
  - subst r. rewrite Heq. simpl. repeat split; try reflexivity.
    rewrite !delivered_app.
    rewrite (delivered_none evs); [reflexivity|].
    eapply Forall_impl; [exact Hevs | apply is_net_not_delivery].
Defined.

Lemma empty_text_is_marked_unsent_witness :
  let h := Sample.host (fun _ => inr Sample.feed3) in
  let w := Sample.serving Sample.rss in
  let s1 := snd (process_item h w Sample.cap8 "chat" "@h" (Sample.post "12" "") Sample.start) in
  trace s1 = [] /\ marked s1 "@h:12" /\
  let s2 := snd (cycles h w Sample.cap8 "chat" 1 s1) in
  process_item h w Sample.cap8 "chat" "@h" (Sample.post "12" "post 12") s2 = (inr tt, s2).
Proof.
  intros h w s1.
  assert (Hno : ~ marked Sample.start "@h:12").
  { unfold marked. simpl. rewrite lookup_empty. discriminate. }
  destruct (empty_text_is_marked_unsent h w Sample.cap8 "chat" "@h"
              (Sample.post "12" "") (Sample.post "12" "post 12") "@h:12"
              Sample.start 1 eq_refl Hno eq_refl eq_refl) as [Hfirst Hlater].
  subst s1. rewrite Hfirst. simpl.
  split; [reflexivity|]. split; [apply lookup_insert_eq | exact Hlater].
Defined.

Lemma valid_isoDate_overrides_ts_witness :
  getDisplayTime (Sample.host Sample.no_feed) Sample.offline
    (Sample.dated "2024-01-01T00:00:00.000Z" "yesterday") []
  = (inr "1704067200000 ms IST", []).
Proof.
  exact (valid_isoDate_overrides_ts (Sample.host Sample.no_feed) Sample.offline
           (Sample.dated "2024-01-01T00:00:00.000Z" "yesterday")
           1704067200000 [] eq_refl eq_refl).
Defined.

(** C4 fails as stated: an item may carry a structured date that does not
    parse; the builder then shows the raw timestamp. *)
Lemma unparsable_isoDate_uses_ts :
  let item := Sample.dated "not a date" "yesterday" in
  Js.truthy (isoDate item) = true /\ Js.truthy (_ts item) = true /\
  getDisplayTime (Sample.host Sample.no_feed) Sample.offline item []
  = (inr "yesterday", []).
Proof. vm_compute. auto. Qed.

(** C9 fails as stated: when the first post of a turn has been delivered and
    marked, the file does not hold its key; the next post is fetched, sent
    and marked before the file is written. *)
Lemma mark_not_on_disk_before_next_post :
  let h := Sample.host (fun _ => inr (Sample.posts ["11"; "10"])) in
  let w := Sample.serving Sample.rss in
  let s1 := snd (process_item h w Sample.cap8 "chat" "@h" (Sample.post "10" "post 10")
                   Sample.start) in
  (marked s1 "@h:10" /\ disk s1 !! "@h:10" = None) /\
  trace (snd (poll_handle h w Sample.cap8 "chat" "@h" Sample.start)) =
    [EvFetch "https://nitter.net/h/rss" (Some "https://nitter.net");
     EvFetch "https://nitter.net/h/status/10" None;
     EvSendMessage "chat" (MsgText ("h:" +:+ nl +:+ "post 10"));
     EvDelivered "@h:10";
     EvFetch "https://nitter.net/h/status/11" None;
     EvSendMessage "chat" (MsgText ("h:" +:+ nl +:+ "post 11"));
     EvDelivered "@h:11";
     EvSaveSeen;
     EvSleep 700].
Proof. vm_compute. auto. Qed.

(** Three entries, newest first, under a cap of 8: delivered oldest first,
    and the registry holds their three keys. *)
Lemma three_entries_delivered_oldest_first :
  let s := snd (poll_handle (Sample.host (fun _ => inr Sample.feed3))
                  (Sample.serving Sample.rss) Sample.cap8 "chat" "@h" Sample.start) in
  delivered (trace s) = ["@h:10"; "@h:11"; "@h:12"] /\
  dom (seen s) = ({["@h:10"; "@h:11"; "@h:12"]} : gset string).
Proof.
  split; [vm_compute; reflexivity|].
  assert (Hs : seen (snd (poll_handle (Sample.host (fun _ => inr Sample.feed3))
                  (Sample.serving Sample.rss) Sample.cap8 "chat" "@h" Sample.start))
               = <["@h:12" := true]> (<["@h:11" := true]> (<["@h:10" := true]> ∅))).
  { vm_compute. reflexivity. }
  cbv zeta. rewrite Hs, !dom_insert_L, dom_empty_L. set_solver.
Qed.

(** C2.  A feed of nine entries, newest first, under a cap of 8: the turn
    processes the eight oldest entries and never the newest one, although
    the source says of the selection that it takes the newest. *)
Theorem newest_entry_beyond_cap_is_dropped :
  let s := snd (poll_handle (Sample.host (fun _ => inr Sample.feed9))
                  (Sample.serving Sample.rss) Sample.cap8 "chat" "@h" Sample.start) in
  map link (subset_reversed Sample.cap8 (items Sample.feed9))
  = map (fun id => Some ("https://nitter.net/h/status/" +:+ id))
        ["1"; "2"; "3"; "4"; "5"; "6"; "7"; "8"] /\
  delivered (trace s) = ["@h:1"; "@h:2"; "@h:3"; "@h:4"; "@h:5"; "@h:6"; "@h:7"; "@h:8"] /\
  seen s !! "@h:9" = None.
Proof. vm_compute. auto. Qed.

(** C3.  A protocol-relative image address is rewritten to the secure
    scheme by the widget tier and by the metadata fetch, but the DOM tier
    prefixes it with the address of the mirror and the pattern match on the
    content field returns it as it is. *)
Theorem protocol_relative_image_by_tier :
  syndication_image (Some (Some Sample.relative_image, None))
  = Some "https://example.com/x.jpg" /\
  og_image (Some Sample.relative_image) = Some "https://example.com/x.jpg" /\
  map _image (parse_nodes (Sample.host Sample.no_feed) "https://nitter.net"
                [Sample.node_with_relative_image] [])
  = [Some "https://nitter.net//example.com/x.jpg"] /\
  pickImage Sample.post_with_relative_image = Some "//example.com/x.jpg".
Proof. vm_compute. auto. Qed.

Lemma htmlToText_idempotent_on_plain_output_witness :
  let h := Sample.host Sample.no_feed in
  htmlToText h "<p>Hello &amp; bye </p><br>" = "Hello & bye" /\
  htmlToText h (htmlToText h "<p>Hello &amp; bye </p><br>") = "Hello & bye".
Proof.
  intros h. split; [vm_compute; reflexivity|].
  assert (Hfirst : htmlToText h "<p>Hello &amp; bye </p><br>" = "Hello & bye")
    by (vm_compute; reflexivity).
  transitivity (htmlToText h "<p>Hello &amp; bye </p><br>"); [|exact Hfirst].
  apply (htmlToText_idempotent_on_plain_output h "<p>Hello &amp; bye </p><br>");
    rewrite Hfirst; vm_compute; reflexivity.
Defined.

(** C5 fails as stated: escaped markup is decoded by the first pass and read
    as markup by the second. *)
Lemma htmlToText_not_idempotent :
  let h := Sample.host Sample.no_feed in
  htmlToText h "&lt;br&gt;" = "<br>" /\
  htmlToText h (htmlToText h "&lt;br&gt;") = EmptyString /\
  htmlToText h (htmlToText h "&lt;br&gt;") <> htmlToText h "&lt;br&gt;".
Proof. vm_compute. repeat split; congruence. Qed.

(** * Further properties *)

(** * Further properties *)

(** ** Strings *)

Lemma sapp_cons (x : ascii) (a b : string) : String x a +:+ b = String x (a +:+ b).
Proof. reflexivity. Qed.

Lemma sapp_assoc (a b c : string) : (a +:+ b) +:+ c = a +:+ (b +:+ c).
Proof.
  induction a as [|x a IH]; [reflexivity|]. rewrite !sapp_cons, IH. reflexivity.
Qed.

Lemma sapp_nonempty_r (a b : string) : Js.nonempty b = true -> Js.nonempty (a +:+ b) = true.
Proof. destruct a; [auto | reflexivity]. Qed.

Lemma sapp_length (a b : string) :
  String.length (a +:+ b) = (String.length a + String.length b)%nat.
Proof.
  induction a as [|x a IH]; [reflexivity|].
  rewrite sapp_cons. cbn [String.length]. rewrite IH. reflexivity.
Qed.

Lemma startsWith_app_l (p y : string) : Js.startsWith p (p +:+ y) = true.
Proof.
  induction p as [|c p IH]; [reflexivity|].
  rewrite sapp_cons. cbn [Js.startsWith]. rewrite Ascii.eqb_refl. exact IH.
Qed.

Lemma drop_app_l (p y : string) : Js.drop (String.length p) (p +:+ y) = y.
Proof. induction p as [|c p IH]; [reflexivity | exact IH]. Qed.

Lemma startsWith_app_long (p s x : string) :
  (String.length p <= String.length s)%nat ->
  Js.startsWith p (s +:+ x) = Js.startsWith p s.
Proof.
  revert s. induction p as [|c p IH]; intros s Hlen; [reflexivity|].
  destruct s as [|d s]; [simpl in Hlen; lia|].
  cbn [String.length] in Hlen. rewrite sapp_cons. cbn [Js.startsWith].
  rewrite IH by lia. reflexivity.
Qed.

Lemma drop_app_long (n : nat) (s x : string) :
  (n <= String.length s)%nat -> Js.drop n (s +:+ x) = Js.drop n s +:+ x.
Proof.
  revert s. induction n as [|n IH]; intros s Hlen; [reflexivity|].
  destruct s as [|d s]; [simpl in Hlen; lia|].
  cbn [String.length] in Hlen. rewrite sapp_cons. cbn [Js.drop]. apply IH. lia.
Qed.

Lemma drop_length (n : nat) (s : string) :
  String.length (Js.drop n s) = (String.length s - n)%nat.
Proof.
  revert s. induction n as [|n IH]; intros s; [simpl; lia|].
  destruct s as [|d s]; [reflexivity|]. cbn [Js.drop String.length]. apply IH.
Qed.

Lemma take_while_app_stop (f : ascii -> bool) (u x : string) :
  Js.nonempty u = true -> Js.take_while f u = EmptyString ->
  Js.take_while f (u +:+ x) = EmptyString.
Proof.
  destruct u as [|c u]; [discriminate|]. intros _.
  rewrite sapp_cons. cbn [Js.take_while]. destruct (f c); [discriminate | reflexivity].
Qed.

Lemma take_while_run (f : ascii -> bool) (d rest : string) :
  Js.take_while f d = d -> Js.take_while f rest = EmptyString ->
  Js.take_while f (d +:+ rest) = d.
Proof.
  intros Hd Hrest. induction d as [|c d IH]; [exact Hrest|].
  rewrite sapp_cons. cbn [Js.take_while] in *.
  destruct (f c); [|discriminate]. injection Hd as Hd. rewrite (IH Hd). reflexivity.
Qed.

Lemma take_while_idem (f : ascii -> bool) (s : string) :
  Js.take_while f (Js.take_while f s) = Js.take_while f s.
Proof.
  induction s as [|c s IH]; [reflexivity|].
  cbn [Js.take_while]. destruct (f c) eqn:E; [|reflexivity].
  cbn [Js.take_while]. rewrite E, IH. reflexivity.
Qed.

(** ** Post ids and dedup keys *)

(** The digits that [match_id] reads at the head of [s]. *)
Lemma match_id_eq (pre s : string) :
  match_id pre s =
  let here :=
    if Js.startsWith pre s
    then Js.take_while Js.is_digit (Js.drop (String.length pre) s)
    else EmptyString in
  if Js.nonempty here then Some here
  else match s with
       | EmptyString => None
       | String _ s' => match_id pre s'
       end.
Proof. destruct s; reflexivity. Qed.

Lemma match_id_digits (pre s d : string) : match_id pre s = Some d -> is_digits d.
Proof.
  induction s as [|c s IH]; rewrite match_id_eq; cbv zeta.
  - destruct (Js.startsWith pre EmptyString).
    + destruct (Js.nonempty _) eqn:E; [|discriminate].
      intros [= <-]. split; [exact E | apply take_while_idem].
    + simpl. discriminate.
  - destruct (Js.startsWith pre (String c s)).
    + destruct (Js.nonempty _) eqn:E; [|exact IH].
      intros [= <-]. split; [exact E | apply take_while_idem].
    + simpl. exact IH.
Qed.

Lemma match_id_here (pre d rest : string) :
  is_digits d -> no_digit_ahead rest ->
  match_id pre (pre +:+ d +:+ rest) = Some d.
Proof.
  intros [Hne Hd] Hrest. rewrite match_id_eq. cbv zeta.
  rewrite startsWith_app_l, drop_app_l, (take_while_run _ d rest Hd Hrest), Hne.
  reflexivity.
Qed.

Lemma match_id_skip (pre p x : string) :
  match_id pre (p +:+ pre) = None ->
  match_id pre (p +:+ pre +:+ x) = match_id pre (pre +:+ x).
Proof.
  induction p as [|c p IH]; [reflexivity|]. intros Hnone.
  rewrite match_id_eq in Hnone. cbv zeta in Hnone.
  change (String c p +:+ pre) with (String c (p +:+ pre)) in Hnone.
  change (String c p +:+ pre +:+ x) with (String c (p +:+ pre +:+ x)).
  rewrite match_id_eq. cbv zeta.
  assert (Hlen : (String.length pre < String.length (String c (p +:+ pre)))%nat).
  { cbn [String.length]. rewrite sapp_length. lia. }
  assert (Hhere :
    Js.nonempty (if Js.startsWith pre (String c (p +:+ pre +:+ x))
                 then Js.take_while Js.is_digit
                        (Js.drop (String.length pre) (String c (p +:+ pre +:+ x)))
                 else EmptyString) = false).
  { replace (String c (p +:+ pre +:+ x)) with (String c (p +:+ pre) +:+ x)
      by (rewrite sapp_cons, sapp_assoc; reflexivity).
    rewrite startsWith_app_long by lia.
    destruct (Js.startsWith pre (String c (p +:+ pre))); [|reflexivity].
    rewrite drop_app_long by lia.
    destruct (Js.nonempty (Js.take_while Js.is_digit
               (Js.drop (String.length pre) (String c (p +:+ pre))))) eqn:E;
      [discriminate|].
    rewrite take_while_app_stop; [reflexivity| |].
    - pose proof (drop_length (String.length pre) (String c (p +:+ pre))) as Hd.
      destruct (Js.drop (String.length pre) (String c (p +:+ pre)));
        [change (String.length EmptyString) with 0%nat in Hd; lia | reflexivity].
    - destruct (Js.take_while _ _); [reflexivity | discriminate]. }
  rewrite Hhere. apply IH.
  destruct (Js.nonempty _) in Hnone; [discriminate | exact Hnone].
Qed.

Lemma dedup_key_some (handle : string) (item : Item) (key : string) :
  dedup_key handle item = Some key ->
  exists id, getTweetIdFromLink (link item) = Some id /\ key = handle +:+ ":" +:+ id.
Proof.
  unfold dedup_key.
  destruct (getTweetIdFromLink (link item)) as [id|]; [|discriminate].
  destruct (negb (Js.truthy (Some id))); [discriminate|].
  intros [= <-]. exists id. auto.
Qed.

(** X1.  A link is given an id whenever it is present and not empty, and the
    id is never empty: [pollOnce] passes over an item for want of an id
    exactly when the item has no link. *)
Theorem dedup_key_defined (handle : string) (item : Item) :
  match dedup_key handle item with
  | None => Js.truthy (link item) = false
  | Some key =>
      Js.truthy (link item) = true /\
      exists id, Js.nonempty id = true /\
                 getTweetIdFromLink (link item) = Some id /\
                 key = handle +:+ ":" +:+ id
  end.
Proof.
  unfold dedup_key, getTweetIdFromLink.
  destruct (link item) as [[|c l]|]; cbn -[match_id String.append]; try reflexivity.
  destruct (match_id "status/" (String c l)) as [id|] eqn:E; cbn -[String.append].
  - apply match_id_digits in E. destruct E as [E _].
    destruct id as [|d id]; [discriminate|]. cbn -[String.append].
    split; [reflexivity|]. exists (String d id). auto.
  - split; [reflexivity|]. exists (String c l). auto.
Qed.

(** X2.  The id of a status link is the run of digits after the first
    [status/] that a digit follows, whatever stands before it (the mirror,
    the account) and after it (a fragment, a query): the same post read
    from different mirrors or tiers gets the same id. *)
Theorem status_id_is_mirror_independent (p d rest : string) :
  match_id "status/" (p +:+ "status/") = None ->
  is_digits d ->
  no_digit_ahead rest ->
  getTweetIdFromLink (Some (p +:+ "status/" +:+ d +:+ rest)) = Some d.
Proof.
  intros Hp Hd Hrest. unfold getTweetIdFromLink.
  assert (Hne : Js.truthy (Some (p +:+ "status/" +:+ d +:+ rest)) = true).
  { assert (H1 : Js.nonempty (p +:+ "status/" +:+ d +:+ rest) = true)
      by (apply sapp_nonempty_r; reflexivity).
    destruct (p +:+ "status/" +:+ d +:+ rest); [discriminate | reflexivity]. }
  rewrite Hne. simpl negb. cbv iota.
  rewrite (match_id_skip "status/" p (d +:+ rest) Hp).
  rewrite (match_id_here "status/" d rest Hd Hrest). reflexivity.
Qed.

Lemma lacks_cons (a c : ascii) (s : string) :
  lacks a (String c s) = negb (Ascii.eqb c a) && lacks a s.
Proof. reflexivity. Qed.

Lemma sapp_colon_inj (h1 h2 a b : string) :
  lacks ":" h1 = true -> lacks ":" h2 = true ->
  h1 +:+ ":" +:+ a = h2 +:+ ":" +:+ b -> h1 = h2 /\ a = b.
Proof.
  revert h2. induction h1 as [|c h1 IH]; intros h2 H1 H2 Heq.
  - destruct h2 as [|c2 h2]; simpl in Heq.
    + injection Heq as Heq. auto.
    + injection Heq as Hc Heq. subst c2. rewrite lacks_cons in H2. discriminate.
  - destruct h2 as [|c2 h2]; simpl in Heq.
    + injection Heq as Hc Heq. subst c. rewrite lacks_cons in H1. discriminate.
    + injection Heq as Hc Heq. subst c2.
      rewrite lacks_cons in H1, H2.
      apply andb_true_iff in H1. apply andb_true_iff in H2.
      destruct (IH h2 (proj2 H1) (proj2 H2) Heq) as [-> ->]. auto.
Qed.

(** X3.  For handles that contain no colon the dedup key determines the
    handle and the id: two items share a key only if they belong to the
    same handle and have the same id. *)
Theorem dedup_key_injective (h1 h2 : string) (i1 i2 : Item) (key : string) :
  lacks ":" h1 = true -> lacks ":" h2 = true ->
  dedup_key h1 i1 = Some key -> dedup_key h2 i2 = Some key ->
  h1 = h2 /\ getTweetIdFromLink (link i1) = getTweetIdFromLink (link i2).
Proof.
  intros L1 L2 K1 K2.
  destruct (dedup_key_some h1 i1 key K1) as (id1 & G1 & E1).
  destruct (dedup_key_some h2 i2 key K2) as (id2 & G2 & E2).
  rewrite E1 in E2. destruct (sapp_colon_inj h1 h2 id1 id2 L1 L2 E2) as [-> ->].
  split; [reflexivity | congruence].
Qed.

(** ** Normalised text *)

Lemma tidy_normal (text : string) :
  Js.trim (tidy text) = tidy text /\ lines_trimmed (tidy text) /\ no_triple (tidy text).
Proof.
  unfold tidy. split; [apply trim_idem|]. split.
  - apply trim_trimmed, collapse_trimmed, trim_lines_trimmed.
  - apply trim_no_triple, collapse_no_triple.
Qed.


(** X4.  The text that [htmlToText] returns is in normal form, whatever the
    markup and whatever the parser and the decoder make of it: it has no
    white space at either end, no line of it ends with white space, and it
    never holds three line feeds in a row. *)
Theorem htmlToText_normal_form (H : Host) (html : string) :
  Js.trim (htmlToText H html) = htmlToText H html /\
  lines_trimmed (htmlToText H html) /\
  no_triple (htmlToText H html).
Proof.
  destruct html as [|c html].
  - rewrite htmlToText_empty. repeat split. unfold nl_run. simpl. lia.
  - destruct (htmlToText_tidy H (String c html)) as (text & ->); [discriminate|].
    apply tidy_normal.
Qed.


(** ** Images *)

Lemma take_while_lacks (a : ascii) (s : string) :
  lacks a (Js.take_while (fun c => negb (Ascii.eqb c a)) s) = true.
Proof.
  induction s as [|c s IH]; [reflexivity|].
  cbn [Js.take_while]. destruct (negb (Ascii.eqb c a)) eqn:E; [|reflexivity].
  rewrite lacks_cons, E, IH. reflexivity.
Qed.

Lemma src_attr_capture (s u : string) :
  src_attr s = Some u -> Js.nonempty u = true /\ lacks "034" u = true.
Proof.
  unfold src_attr. destruct (Js.startsWith_ci _ s); [|discriminate].
  destruct (Js.nonempty _ && _) eqn:E; [|discriminate].
  intros [= <-]. apply andb_true_iff in E. destruct E as [E _].
  split; [exact E | apply take_while_lacks].
Qed.

Lemma img_scan_capture (P : string -> Prop) (s : string) (best : option string) (u : string) :
  (forall t v, src_attr t = Some v -> P v) ->
  (forall v, best = Some v -> P v) ->
  img_scan s best = Some u -> P u.
Proof.
  intros Hsrc. revert best. induction s as [|c s IH]; intros best Hbest.
  - cbn [img_scan]. destruct (src_attr EmptyString) as [v|] eqn:E.
    + intros [= <-]. eapply Hsrc, E.
    + apply Hbest.
  - cbn [img_scan]. destruct (src_attr (String c s)) as [v|] eqn:E.
    + destruct (Ascii.eqb c ">").
      * intros [= <-]. eapply Hsrc, E.
      * apply IH. intros w [= <-]. eapply Hsrc, E.
    + destruct (Ascii.eqb c ">"); [apply Hbest | apply IH, Hbest].
Qed.

Lemma img_src_match_capture (s u : string) :
  img_src_match s = Some u -> Js.nonempty u = true /\ lacks "034" u = true.
Proof.
  assert (Hhere : forall t, img_here t = Some u ->
                    Js.nonempty u = true /\ lacks "034" u = true).
  { intros t. unfold img_here. destruct (Js.startsWith_ci "<img" t); [|discriminate].
    destruct (Js.drop 4 t) as [|c r]; [discriminate|].
    destruct (Ascii.eqb c ">"); [discriminate|].
    apply (img_scan_capture
             (fun v => Js.nonempty v = true /\ lacks "034" v = true));
      [apply src_attr_capture | discriminate]. }
  induction s as [|c s IH]; cbn [img_src_match].
  - destruct (img_here EmptyString) eqn:E; [|discriminate].
    intros [= ->]. eapply Hhere, E.
  - destruct (img_here (String c s)) eqn:E; [|exact IH].
    intros [= ->]. eapply Hhere, E.
Qed.

(** X6.  [pickImage] never returns an empty address: it returns nothing, or
    an address with at least one character, so that the test [if (imageUrl)]
    of [sendToWhatsApp] is true for every address picked. *)
Theorem pickImage_never_empty (item : Item) (u : string) :
  pickImage item = Some u -> Js.truthy (pickImage item) = true.
Proof.
  unfold pickImage.
  destruct (Js.truthy (_image item)) eqn:E1; [intros _; exact E1|].
  destruct (Js.truthy (enclosure_url item)) eqn:E2; [intros _; exact E2|].
  destruct (Js.truthy (enclosures0_url item)) eqn:E3; [intros _; exact E3|].
  intros Hm. rewrite Hm. apply img_src_match_capture in Hm.
  destruct u; [destruct Hm; discriminate | reflexivity].
Qed.

(** ** Lists without repetition *)

Lemma uniq_go_elem (acc l : list string) (x : string) :
  x ∈ uniq_go acc l <-> x ∈ l /\ x ∉ acc.
Proof.
  revert acc. induction l as [|y l IH]; intros acc; cbn [uniq_go].
  - split; [intros Hx; inversion Hx | intros [Hx _]; inversion Hx].
  - case_bool_decide as Hy.
    + rewrite IH, elem_of_cons. split; [tauto|].
      intros [[->|Hx] Hn]; [contradiction | auto].
    + rewrite !elem_of_cons, IH, elem_of_cons. split.
      * intros [->|[Hx Hn]]; [auto | split; [auto | tauto]].
      * intros [[->|Hx] Hn]; [auto|].
        destruct (decide (x = y)) as [->|Hne]; [auto | right; tauto].
Qed.

Lemma uniq_go_NoDup (acc l : list string) : NoDup (uniq_go acc l).
Proof.
  revert acc. induction l as [|y l IH]; intros acc; cbn [uniq_go]; [constructor|].
  case_bool_decide as Hy; [apply IH|].
  constructor; [|apply IH]. rewrite uniq_go_elem, elem_of_cons. tauto.
Qed.

Lemma uniq_go_ext (acc acc' l : list string) :
  (forall x, x ∈ acc <-> x ∈ acc') -> uniq_go acc l = uniq_go acc' l.
Proof.
  revert acc acc'. induction l as [|y l IH]; intros acc acc' Hext; [reflexivity|].
  cbn [uniq_go]. rewrite (bool_decide_ext _ _ (Hext y)).
  destruct (bool_decide (y ∈ acc')); [apply IH, Hext|].
  f_equal. apply IH. intros x. rewrite !elem_of_cons, Hext. reflexivity.
Qed.

Lemma uniq_go_app (acc l1 l2 : list string) :
  uniq_go acc (l1 ++ l2) = uniq_go acc l1 ++ uniq_go (l1 ++ acc) l2.
Proof.
  revert acc. induction l1 as [|y l1 IH]; intros acc; [reflexivity|].
  cbn [uniq_go app]. case_bool_decide as Hy.
  - rewrite IH. f_equal. apply uniq_go_ext. intros x.
    rewrite elem_of_cons, !elem_of_app. split; [tauto|].
    intros [->|H]; tauto.
  - rewrite IH. cbn [app]. f_equal. f_equal. apply uniq_go_ext. intros x.
    rewrite !elem_of_cons, !elem_of_app, elem_of_cons. tauto.
Qed.

Lemma uniq_go_id (acc l : list string) :
  NoDup l -> (forall x, x ∈ l -> x ∉ acc) -> uniq_go acc l = l.
Proof.
  revert acc. induction l as [|y l IH]; intros acc Hnd Hdis; [reflexivity|].
  apply NoDup_cons in Hnd. destruct Hnd as [Hy Hnd].
  cbn [uniq_go]. case_bool_decide as Hin.
  - exfalso. apply (Hdis y); [left | exact Hin].
  - f_equal. apply IH; [exact Hnd|].
    intros x Hx. rewrite elem_of_cons. intros [->|Hacc]; [contradiction|].
    apply (Hdis x); [right; exact Hx | exact Hacc].
Qed.

Lemma PRIORITY_HANDLES_NoDup : NoDup PRIORITY_HANDLES.
Proof. apply (bool_decide_unpack _). vm_compute. reflexivity. Qed.

(** X7.  The handles are polled with the fixed priority handles first, in
    their fixed order, followed by the configured handles that are not
    among them, trimmed, without the blank ones; no handle is polled twice
    in a cycle. *)
Theorem priority_handles_come_first (cfg : Config) :
  exists rest,
    prioritized cfg = PRIORITY_HANDLES ++ rest /\
    NoDup (prioritized cfg) /\
    forall h, h ∈ rest <->
              ((h ∉ PRIORITY_HANDLES) /\ Js.nonempty h = true /\
               exists raw, raw ∈ handles cfg /\ h = Js.trim raw).
Proof.
  unfold prioritized, uniq.
  set (allHandles := uniq_go [] (List.filter Js.nonempty (map Js.trim (handles cfg)))).
  exists (uniq_go PRIORITY_HANDLES allHandles).
  rewrite uniq_go_app, app_nil_r.
  rewrite (uniq_go_id [] PRIORITY_HANDLES PRIORITY_HANDLES_NoDup)
    by (intros x _ Hx; inversion Hx).
  split; [reflexivity|]. split.
  - rewrite <- (uniq_go_id [] PRIORITY_HANDLES PRIORITY_HANDLES_NoDup) at 1
      by (intros x _ Hx; inversion Hx).
    rewrite <- (app_nil_r PRIORITY_HANDLES) at 2. rewrite <- uniq_go_app.
    apply uniq_go_NoDup.
  - intros h. rewrite uniq_go_elem. unfold allHandles. rewrite uniq_go_elem.
    rewrite list_elem_of_In, filter_In, in_map_iff.
    split.
    + intros [[[(raw & <- & Hraw) Hne] _] Hp]. split; [exact Hp|]. split; [exact Hne|].
      exists raw. rewrite list_elem_of_In. auto.
    + intros (Hp & Hne & raw & Hraw & ->). split; [|exact Hp].
      split; [|intros Hx; inversion Hx]. split; [|exact Hne].
      exists raw. rewrite <- list_elem_of_In. auto.
Qed.

(** ** Harvested links *)

Lemma exec_all_Forall {A} (P : A -> Prop) (m : string -> option (nat * A))
      (skip : nat) (s : string) :
  (forall t n a, m t = Some (n, a) -> P a) -> Forall P (exec_all m skip s).
Proof.
  intros Hm. revert skip. induction s as [|c s IH]; intros skip; [constructor|].
  cbn [exec_all]. destruct skip as [|k]; [|apply IH].
  destruct (m (String c s)) as [[[|k] a]|] eqn:E; try apply IH.
  constructor; [eapply Hm, E | apply IH].
Qed.

Lemma uniq_Forall (P : string -> Prop) (l : list string) :
  Forall P l -> Forall P (uniq l).
Proof.
  rewrite !Forall_forall. intros Hl x Hx. apply Hl.
  unfold uniq in Hx. apply uniq_go_elem in Hx. apply Hx.
Qed.

Lemma startsWith_take_while_lacks (p : string) (a : ascii) (r : string) :
  lacks a p = true -> Js.startsWith p r = true ->
  Js.startsWith p (Js.take_while (fun c => negb (Ascii.eqb c a)) r) = true.
Proof.
  revert r. induction p as [|c p IH]; intros r Hl Hs; [reflexivity|].
  destruct r as [|d r]; [discriminate|].
  rewrite lacks_cons in Hl. apply andb_true_iff in Hl. destruct Hl as [Hc Hp].
  cbn [Js.startsWith] in Hs. apply andb_true_iff in Hs. destruct Hs as [Hcd Hr].
  apply Ascii.eqb_eq in Hcd. subst d.
  cbn [Js.take_while]. rewrite Hc. cbn [Js.startsWith].
  rewrite Ascii.eqb_refl. apply IH; assumption.
Qed.

Lemma some_suffix_drop (f : string -> bool) (n : nat) (s : string) :
  some_suffix f (Js.drop n s) = true -> some_suffix f s = true.
Proof.
  revert s. induction n as [|n IH]; intros s; [auto|].
  destruct s as [|c s]; [auto|]. cbn [Js.drop]. intros Hs.
  cbn [some_suffix]. rewrite (IH s Hs). apply orb_true_r.
Qed.

Lemma md_links_are_status_urls (markdownText : string) :
  Forall (fun l => (Js.startsWith "http://" l || Js.startsWith "https://" l) = true /\
                   lacks ")" l = true /\
                   some_suffix status_digit l = true)
         (extractStatusLinksMD markdownText).
Proof.
  apply uniq_Forall, exec_all_Forall.
  intros t n cap. unfold match_md_link.
  destruct t as [|c r]; [discriminate|].
  destruct (Ascii.eqb c "(") eqn:Ec; [apply Ascii.eqb_eq in Ec; subst c | idtac].
  2:{ destruct c as [[] [] [] [] [] [] [] []]; try discriminate. }
  set (capture := Js.take_while (fun c => negb (Ascii.eqb c ")")) r).
  destruct (Js.startsWith "https://" r) eqn:Es.
  - destruct (Js.drop 8 capture) as [|x seg] eqn:Ed; [discriminate|].
    destruct (Js.drop (String.length capture) r) as [|y rest]; [discriminate|].
    destruct y as [[] [] [] [] [] [] [] []]; try discriminate.
    destruct (some_suffix status_digit seg) eqn:Eseg; [|discriminate].
    intros [= _ <-]. split; [|split].
    + unfold capture.
      rewrite (startsWith_take_while_lacks "https://" ")" r eq_refl Es).
      apply orb_true_r.
    + apply take_while_lacks.
    + apply (some_suffix_drop _ 8). rewrite Ed. cbn [some_suffix].
      rewrite Eseg. apply orb_true_r.
  - destruct (Js.startsWith "http://" r) eqn:Es'; [|discriminate].
    destruct (Js.drop 7 capture) as [|x seg] eqn:Ed; [discriminate|].
    destruct (Js.drop (String.length capture) r) as [|y rest]; [discriminate|].
    destruct y as [[] [] [] [] [] [] [] []]; try discriminate.
    destruct (some_suffix status_digit seg) eqn:Eseg; [|discriminate].
    intros [= _ <-]. split; [|split].
    + unfold capture.
      rewrite (startsWith_take_while_lacks "http://" ")" r eq_refl Es'). reflexivity.
    + apply take_while_lacks.
    + apply (some_suffix_drop _ 7). rewrite Ed. cbn [some_suffix].
      rewrite Eseg. apply orb_true_r.
Qed.

(** X8.  Every link that [extractStatusLinksMD] harvests is an absolute
    [http] or [https] address without a closing parenthesis, in which
    [/status/] is followed by a digit; and no link is returned twice. *)
Theorem harvested_links_are_status_urls (markdownText : string) :
  NoDup (extractStatusLinksMD markdownText) /\
  Forall (fun l => (Js.startsWith "http://" l || Js.startsWith "https://" l) = true /\
                   lacks ")" l = true /\
                   some_suffix status_digit l = true)
         (extractStatusLinksMD markdownText).
Proof. split; [apply uniq_go_NoDup | apply md_links_are_status_urls]. Qed.

(** ** Messaging and the loop body *)

Section MoreFacts.

Variable H : Host.
Variable W : World.
Variable cfg : Config.
Variable chatId : string.

(** Case analysis on the next answer of the messaging client. *)
Ltac case_send :=
  match goal with
  | |- context [client_sendMessage ?w ?t ?c ?m] =>
      destruct (client_sendMessage w t c m) eqn:?
  end.

(** X9.  [sendToWhatsApp] raises an error only from its last step, the
    text-only send of the whole body: a failure to load the image or to
    send it is logged and never reaches the caller. *)
Theorem only_text_send_can_fail
        (label timeStr text : string) (imageUrl : option string)
        (tr tr' : Trace) (e : Err) :
  sendToWhatsApp W chatId label timeStr text imageUrl tr = (inl e, tr') ->
  exists tr0,
    tr' = tr0 ++ [EvSendMessage chatId (MsgText (message_body label timeStr text))] /\
    client_sendMessage W tr0 chatId (MsgText (message_body label timeStr text)) = Some e.
Proof.
  unfold sendToWhatsApp, message_body, bind, try_catch, MessageMedia_fromUrl,
    sendMessage, console_log, emit, ret.
  destruct (Js.truthy imageUrl); cbv zeta;
    [destruct (media_fromUrl W tr _); [|destruct (CAPTION_MAX <? _)%Z]|];
    repeat case_send;
    intros Heq; try discriminate Heq;
    injection Heq as <- <-; eexists; (split; [reflexivity | eassumption]).
Qed.

(** X10.  When [sendToWhatsApp] returns normally, the last thing it did was a
    send that succeeded and that carried the text: the whole body as text,
    the image with the whole body as caption, or, for a body longer than
    [CAPTION_MAX], the bare text after the short-captioned image. *)
Theorem normal_return_means_text_sent
        (label timeStr text : string) (imageUrl : option string)
        (tr tr' : Trace) :
  sendToWhatsApp W chatId label timeStr text imageUrl tr = (inr tt, tr') ->
  exists tr0 m,
    tr' = tr0 ++ [EvSendMessage chatId m] /\
    client_sendMessage W tr0 chatId m = None /\
    (m = MsgText (message_body label timeStr text) \/
     (exists url, imageUrl = Some url /\
                  (m = MsgMedia url (message_body label timeStr text) \/
                   (m = MsgText text /\
                    (CAPTION_MAX < Z.of_nat (String.length
                                     (message_body label timeStr text)))%Z)))).
Proof.
  unfold sendToWhatsApp, message_body, bind, try_catch, MessageMedia_fromUrl,
    sendMessage, console_log, emit, ret.
  destruct (Js.truthy imageUrl) eqn:Himg; cbv zeta;
    [destruct imageUrl as [url|]; [|discriminate]; cbn [default];
     destruct (media_fromUrl W tr _); [|destruct (CAPTION_MAX <? _)%Z eqn:Hlen]|];
    repeat case_send;
    intros Heq; try discriminate Heq;
    injection Heq as <-; eexists _, _; (split; [reflexivity|]);
    (split; [eassumption|]);
    first [ left; reflexivity
          | right; exists url; split; [reflexivity|];
            first [ left; reflexivity
                  | right; split; [reflexivity | apply Z.ltb_lt; exact Hlen] ] ].
Qed.

Lemma process_item_no_id (handle : string) (item : Item) (s : State) :
  dedup_key handle item = None ->
  process_item H W cfg chatId handle item s = (inr tt, s).
Proof. intros Hk. unfold process_item. rewrite Hk. reflexivity. Qed.

Lemma process_item_empty (handle : string) (item : Item) (key : string) (s : State) :
  dedup_key handle item = Some key ->
  ~ marked s key ->
  extractText H item = EmptyString ->
  process_item H W cfg chatId handle item s =
    (inr tt, mkState (trace s) (<[key := true]> (seen s)) (disk s) true).
Proof.
  intros Hk Hm Ht. unfold process_item. rewrite Hk. unfold bind at 1.
  destruct (is_seen_spec key s) as [[_ Hyes] | [-> _]]; [contradiction|].
  rewrite Ht. reflexivity.
Qed.

Lemma process_item_text (handle : string) (item : Item) (key : string) (s : State) :
  dedup_key handle item = Some key ->
  ~ marked s key ->
  Js.nonempty (extractText H item) = true ->
  exists evs, Forall is_io evs /\
    ((exists e, process_item H W cfg chatId handle item s =
                  (inl e, with_trace s (trace s ++ evs)))
     \/
     process_item H W cfg chatId handle item s =
       (inr tt, mkState (trace s ++ evs ++ [EvDelivered key])
                        (<[key := true]> (seen s)) (disk s) true)).
Proof.
  intros Hk Hm Ht.
  destruct (process_item H W cfg chatId handle item s) as [r s'] eqn:Hrun.
  unfold process_item in Hrun. rewrite Hk in Hrun. unfold bind at 1 in Hrun.
  destruct (is_seen_spec key s) as [[_ Hyes] | [E0 _]]; [contradiction|].
  rewrite E0, Ht in Hrun. cbn [negb] in Hrun. unfold bind at 1 in Hrun.
  destruct (liftIO_run is_io (getDisplayTime H W item) s)
    as (r1 & evs1 & Hevs1 & _ & E1).
  { eapply emits_mono; [|apply getDisplayTime_emits]. intros ev; left; assumption. }
  rewrite E1 in Hrun.
  destruct r1 as [e|timeStr].
  { injection Hrun as <- <-. exists evs1. split; [exact Hevs1 | left; eauto]. }
  unfold bind at 1 in Hrun.
  set (s1 := with_trace s (trace s ++ evs1)) in *.
  destruct (liftIO_run is_io
              (sendToWhatsApp W chatId (label_of cfg handle) timeStr
                 (extractText H item) (pickImage item)) s1)
    as (r2 & evs2 & Hevs2 & _ & E2).
  { eapply emits_mono; [|apply sendToWhatsApp_emits]. intros ev; right; assumption. }
  rewrite E2 in Hrun.
  exists (evs1 ++ evs2). split; [apply Forall_app; auto|].
  subst s1. unfold with_trace in Hrun. cbn [trace seen disk changed] in Hrun.
  rewrite <- (app_assoc (trace s) evs1 evs2) in Hrun.
  destruct r2 as [e|[]].
  - injection Hrun as <- <-. left. exists e. reflexivity.
  - right. rewrite <- Hrun.
    unfold bind, liftIO, emit, set_seen, set_changed, with_trace.
    cbn [trace seen disk changed]. rewrite <- !app_assoc. reflexivity.
Qed.

(** The four ways the body of the inner loop can go. *)
Lemma process_item_cases (handle : string) (item : Item) (s : State) :
  (dedup_key handle item = None /\
   process_item H W cfg chatId handle item s = (inr tt, s))
  \/
  (exists key,
     dedup_key handle item = Some key /\
     ((marked s key /\ process_item H W cfg chatId handle item s = (inr tt, s))
      \/
      (~ marked s key /\ extractText H item = EmptyString /\
       process_item H W cfg chatId handle item s =
         (inr tt, mkState (trace s) (<[key := true]> (seen s)) (disk s) true))
      \/
      (~ marked s key /\ Js.nonempty (extractText H item) = true /\
       exists evs, Forall is_io evs /\
         ((exists e, process_item H W cfg chatId handle item s =
                       (inl e, with_trace s (trace s ++ evs)))
          \/
          process_item H W cfg chatId handle item s =
            (inr tt, mkState (trace s ++ evs ++ [EvDelivered key])
                             (<[key := true]> (seen s)) (disk s) true))))).
Proof.
  destruct (dedup_key handle item) as [key|] eqn:Hk;
    [right; exists key; split; [reflexivity|] | left; split; [reflexivity|]].
  2:{ apply process_item_no_id, Hk. }
  destruct (is_seen_spec key s) as [[_ Hm] | [_ Hm]].
  - left. split; [exact Hm|]. apply (process_item_seen H W cfg chatId handle item key s Hk Hm).
  - right. destruct (extractText H item) as [|c t] eqn:Ht.
    + left. split; [exact Hm|]. split; [reflexivity|].
      apply process_item_empty; assumption.
    + right. split; [exact Hm|]. split; [reflexivity|].
      apply process_item_text; [assumption | assumption | rewrite Ht; reflexivity].
Qed.

Lemma is_io_not_delivery (e : Event) : is_io e -> not_delivery e.
Proof. intros [He|He]; [apply is_net_not_delivery | apply is_messaging_not_delivery]; exact He. Qed.

(** X11.  When the loop body fails for an item, because the timestamp could
    not be fetched or the message could not be sent, nothing is recorded:
    the registry, the file, the flag and the deliveries are as before, so
    the post is tried again in the next cycle. *)
Theorem failed_item_stays_unmarked
        (handle : string) (item : Item) (s s' : State) (e : Err) :
  process_item H W cfg chatId handle item s = (inl e, s') ->
  seen s' = seen s /\ disk s' = disk s /\ changed s' = changed s /\
  delivered (trace s') = delivered (trace s).
Proof.
  intros Hrun.
  destruct (process_item_cases handle item s)
    as [[_ Hr] | (key & _ & [[_ Hr] | [(_ & _ & Hr) | (_ & _ & evs & Hevs & [[e' Hr] | Hr])]])];
    rewrite Hr in Hrun; try discriminate.
  injection Hrun as _ <-. cbn [with_trace seen disk changed trace].
  rewrite delivered_app, (delivered_none evs), app_nil_r; [auto|].
  eapply Forall_impl; [exact Hevs | apply is_io_not_delivery].
Qed.

(** X12.  When the loop body succeeds for an item that has text and is not
    yet marked, exactly that key is marked and exactly one delivery, of that
    key, is recorded; the file is not written at this point. *)
Theorem delivered_item_is_marked
        (handle : string) (item : Item) (key : string) (s s' : State) :
  dedup_key handle item = Some key ->
  ~ marked s key ->
  Js.nonempty (extractText H item) = true ->
  process_item H W cfg chatId handle item s = (inr tt, s') ->
  seen s' = <[key := true]> (seen s) /\
  delivered (trace s') = delivered (trace s) ++ [key] /\
  changed s' = true /\ disk s' = disk s.
Proof.
  intros Hkey Hno Htext Hrun.
  destruct (process_item_cases handle item s)
    as [[Hk _] | (key' & Hk & [[Hm _] | [(_ & Ht & _) | (_ & _ & evs & Hevs & [[e' Hr] | Hr])]])].
  - congruence.
  - assert (key' = key) by congruence. subst key'. contradiction.
  - rewrite Ht in Htext. discriminate.
  - rewrite Hr in Hrun. discriminate.
  - assert (key' = key) by congruence. subst key'.
    rewrite Hr in Hrun. injection Hrun as <-. cbn [seen disk changed trace].
    rewrite !delivered_app, (delivered_none evs); [auto|].
    eapply Forall_impl; [exact Hevs | apply is_io_not_delivery].
Qed.

(** ** The registry over time *)

#[local] Instance appended_preorder : PreOrder appended.
Proof.
  split.
  - intros s key. left. reflexivity.
  - intros s1 s2 s3 H12 H23 key.
    destruct (H23 key) as [E|E]; [|right; exact E].
    rewrite E. apply H12.
Qed.

Lemma insert_appended (key : string) (s : State) (tr : Trace) (d : gmap string bool) (c : bool) :
  appended s (mkState tr (<[key := true]> (seen s)) d c).
Proof.
  intros k. cbn [seen]. destruct (decide (key = k)) as [->|Hne].
  - right. apply lookup_insert_eq.
  - left. apply lookup_insert_ne, Hne.
Qed.

Lemma same_seen_appended (s s' : State) : seen s' = seen s -> appended s s'.
Proof. intros E key. left. rewrite E. reflexivity. Qed.

Lemma process_item_appended (handle : string) (item : Item) :
  preserves appended (process_item H W cfg chatId handle item).
Proof.
  intros s.
  destruct (process_item_cases handle item s)
    as [[_ ->] | (key & _ & [[_ ->] | [(_ & _ & ->) | (_ & _ & evs & _ & [[e ->] | ->])]])];
    cbn [snd]; try reflexivity; try apply insert_appended.
  apply same_seen_appended. reflexivity.
Qed.

Lemma liftIO_appended {A} (m : IO A) : preserves appended (liftIO m).
Proof.
  intros s. unfold liftIO. destruct (m (trace s)) as [r tr1]. cbn [snd].
  apply same_seen_appended. reflexivity.
Qed.

Lemma poll_handle_appended (handle : string) :
  preserves appended (poll_handle H W cfg chatId handle).
Proof.
  assert (Hsame : forall {A} (m : M A),
            (forall s, seen (snd (m s)) = seen s) -> preserves appended m).
  { intros A m Hm s. apply same_seen_appended, Hm. }
  unfold poll_handle.
  apply (preserves_bind appended); [apply Hsame; reflexivity | intros _].
  apply (preserves_bind appended); [|intros _].
  { apply (preserves_try_catch appended); [|intros e; apply liftIO_appended].
    unfold fetch_and_deliver.
    apply (preserves_bind appended); [apply liftIO_appended | intros feed].
    apply (preserves_for_each appended). apply process_item_appended. }
  apply (preserves_bind appended); [apply Hsame; reflexivity | intros c].
  apply (preserves_bind appended); [|intros _; apply liftIO_appended].
  destruct c; apply Hsame; [|reflexivity].
  intros s. unfold saveSeen. destruct (fs_writeFileSync W (trace s)); reflexivity.
Qed.

(** X13.  The registry is append-only: over any number of cycles no key is
    removed, and the value of a key stays as it was or becomes [true]. *)
Theorem registry_is_append_only (n : nat) (s : State) (key : string) :
  let s' := snd (cycles H W cfg chatId n s) in
  seen s' !! key = seen s !! key \/ seen s' !! key = Some true.
Proof.
  intros s'. subst s'. revert s. induction n as [|n IH]; intros s; [left; reflexivity|].
  cbn [cycles]. unfold bind.
  assert (Hp : appended s (snd (pollOnce H W cfg chatId s))).
  { apply (preserves_for_each appended). apply poll_handle_appended. }
  destruct (pollOnce H W cfg chatId s) as [[e|[]] s1]; cbn [snd] in *; [apply Hp|].
  destruct (IH s1) as [E|E]; [rewrite E; apply Hp | right; exact E].
Qed.

(** X14.  The polling loop stops only on a failed write of the registry.
    Whatever the sources and the messaging client answer, their failures
    are caught and logged at the boundary of the handle; but [saveSeen] is
    called outside that boundary, so when a run of cycles ends in an error,
    its last action was a write of [seen.json], and the error is the one
    that this write threw.  In a world whose writes never throw, every
    cycle runs to its end. *)
Theorem only_a_failed_write_stops_polling (n : nat) (s s' : State) (e : Err) :
  cycles H W cfg chatId n s = (inl e, s') ->
  exists tr0, trace s' = tr0 ++ [EvSaveSeen] /\ fs_writeFileSync W tr0 = Some e.
Proof.
  revert s. induction n as [|n IH]; intros s; cbn [cycles]; [discriminate|].
  unfold bind. destruct (pollOnce H W cfg chatId s) as [[e0|[]] s1] eqn:Hp; [|apply IH].
  intros [= <- <-]. exact (pollOnce_fails H W cfg chatId s e0 s1 Hp).
Qed.

(** ** The cap on a turn *)

Lemma process_item_delivers_at_most_one (handle : string) (item : Item) (s : State) :
  (length (delivered (trace (snd (process_item H W cfg chatId handle item s))))
   <= S (length (delivered (trace s))))%nat.
Proof.
  destruct (process_item_cases handle item s)
    as [[_ ->] | (key & _ & [[_ ->] | [(_ & _ & ->) | (_ & _ & evs & Hevs & [[e ->] | ->])]])];
    cbn [snd trace with_trace]; try lia;
    rewrite ?delivered_app, (delivered_none evs)
      by (eapply Forall_impl; [exact Hevs | apply is_io_not_delivery]);
    rewrite ?app_nil_r, ?length_app; cbn [delivered length]; lia.
Qed.

Lemma for_each_delivers_at_most (handle : string) (l : list Item) (s : State) :
  (length (delivered (trace (snd (for_each (process_item H W cfg chatId handle) l s))))
   <= length (delivered (trace s)) + length l)%nat.
Proof.
  revert s. induction l as [|x l IH]; intros s; cbn [for_each]; [simpl; lia|].
  unfold bind. pose proof (process_item_delivers_at_most_one handle x s) as H1.
  destruct (process_item H W cfg chatId handle x s) as [[e|[]] s1]; cbn [snd] in *.
  - cbn [length]. lia.
  - specialize (IH s1). cbn [length]. lia.
Qed.

Lemma subset_reversed_length (its : list Item) :
  (0 < MAX_ITEMS_PER_HANDLE cfg)%Z ->
  (length (subset_reversed cfg its) <= Z.to_nat (MAX_ITEMS_PER_HANDLE cfg))%nat.
Proof.
  intros Hcap. rewrite subset_reversed_last by exact Hcap.
  rewrite length_rev, length_skipn. lia.
Qed.

(** X15.  With a positive cap, the turn of a handle records at most [cap]
    deliveries, however long the feed is. *)
Theorem turn_delivers_at_most_cap (handle : string) (s : State) :
  (0 < MAX_ITEMS_PER_HANDLE cfg)%Z ->
  (length (delivered (trace (snd (poll_handle H W cfg chatId handle s))))
   <= length (delivered (trace s)) + Z.to_nat (MAX_ITEMS_PER_HANDLE cfg))%nat.
Proof.
  intros Hcap. rewrite poll_handle_eq. cbv zeta.
  set (s0 := mkState (trace s) (seen s) (disk s) false).
  assert (Hbody :
    (length (delivered (trace (snd (fetch_and_deliver H W cfg chatId handle s0))))
     <= length (delivered (trace s)) + Z.to_nat (MAX_ITEMS_PER_HANDLE cfg))%nat).
  { unfold fetch_and_deliver, bind.
    destruct (liftIO_run is_net (fetchFeed H W cfg handle) s0 (fetchFeed_emits H W cfg handle))
      as (r & evs & Hevs & _ & ->).
    assert (Hsame : delivered (trace s0 ++ evs) = delivered (trace s)).
    { rewrite delivered_app, (delivered_none evs), app_nil_r; [reflexivity|].
      eapply Forall_impl; [exact Hevs | apply is_net_not_delivery]. }
    destruct r as [e|feed]; [cbn [snd with_trace trace]; rewrite Hsame; lia|].
    set (s1 := with_trace s0 (trace s0 ++ evs)).
    pose proof (for_each_delivers_at_most handle (subset_reversed cfg (items feed)) s1)
      as Hfe.
    pose proof (subset_reversed_length (items feed) Hcap) as Hlen.
    change (trace s1) with (trace s0 ++ evs) in Hfe. rewrite Hsame in Hfe. lia. }
  destruct (fetch_and_deliver H W cfg chatId handle s0) as [[e|[]] s1];
    cbn [fst snd] in *; unfold with_trace; cbn [trace seen disk changed];
    (destruct (changed s1); [destruct (fs_writeFileSync W _)|]); cbn [snd trace];
    rewrite ?delivered_app; cbn [delivered]; rewrite ?app_nil_r; exact Hbody.
Qed.

(** ** Bounded retries *)

Lemma withRetry_S {A} (fn : IO A) (r : nat) (t : Z) :
  withRetry fn (S r) t = try_catch fn (fun e => sleep t ;; withRetry fn r t).
Proof. reflexivity. Qed.

Lemma withRetry_O {A} (fn : IO A) (t : Z) :
  withRetry fn O t = try_catch fn (fun e => throw e).
Proof. reflexivity. Qed.

(** X16.  [withRetry] makes at most [retries + 1] attempts, with a pause
    between two attempts and none after the last.  It returns the outcome of
    the first attempt that succeeds; when all attempts fail, the error it
    raises is that of the last attempt. *)
Theorem withRetry_outcome {A} (fn : IO A) (t : Z) (retries k : nat)
        (tr tr1 tr2 : Trace) (r : Err + A) :
  (k <= retries)%nat ->
  retries_fail fn t k tr tr1 ->
  fn tr1 = (r, tr2) ->
  ((k < retries)%nat -> exists v, r = inr v) ->
  withRetry fn retries t tr = (r, tr2).
Proof.
  intros Hk Hfail. revert retries Hk.
  induction Hfail as [tr | k tr e tr1 tr1' Hfn _ IH]; intros retries Hk Hlast Hok.
  - destruct retries as [|n]; [rewrite withRetry_O | rewrite withRetry_S];
      unfold try_catch; rewrite Hlast.
    + destruct r; reflexivity.
    + destruct (Hok ltac:(lia)) as (v & ->). reflexivity.
  - destruct retries as [|n]; [lia|].
    rewrite withRetry_S. unfold try_catch at 1. rewrite Hfn.
    unfold bind, sleep, emit. apply IH; [lia | exact Hlast |].
    intros Hlt. apply Hok. lia.
Qed.

(** ** What the tiers return *)

Lemma for_mirrors_last {A} (attempt : string -> IO A) (pre : list string) (b : string)
      (lastErr : option Err) (none : string) (tr tr1 tr2 : Trace) (e : Err) :
  all_fail attempt pre tr tr1 ->
  attempt b tr1 = (inl e, tr2) ->
  for_mirrors attempt (pre ++ [b]) lastErr none tr = (inl e, tr2).
Proof.
  intros Hpre Hb. revert lastErr.
  induction Hpre as [tr | b0 bs tr e0 tr1 tr1' Hb0 _ IH]; intros lastErr; cbn [app for_mirrors].
  - unfold try_catch. rewrite Hb. reflexivity.
  - unfold try_catch at 1. rewrite Hb0. apply IH, Hb.
Qed.

(** X17.  When every mirror of a Nitter tier is rejected, the error that the
    tier raises is the one of the last mirror in the list; the errors of the
    mirrors before it are dropped. *)
Theorem exhausted_tier_raises_last_error
        (t : NitterTier) (handle : string) (pre : list string) (b : string)
        (tr tr1 tr2 : Trace) (e : Err) :
  NITTER_BASES = pre ++ [b] ->
  all_fail (tier_attempt H W cfg t handle) pre tr tr1 ->
  tier_attempt H W cfg t handle b tr1 = (inl e, tr2) ->
  tier_fetch H W cfg t handle tr = (inl e, tr2).
Proof.
  intros Hbases Hpre Hb. rewrite tier_fetch_eq, Hbases.
  eapply for_mirrors_last; eauto.
Qed.

Lemma for_mirrors_success {A} (attempt : string -> IO A) (bases : list string)
      (lastErr : option Err) (none : string) (tr tr' : Trace) (v : A) :
  for_mirrors attempt bases lastErr none tr = (inr v, tr') ->
  exists b tr0, b ∈ bases /\ attempt b tr0 = (inr v, tr').
Proof.
  revert lastErr tr. induction bases as [|b bases IH]; intros lastErr tr; cbn [for_mirrors].
  - discriminate.
  - unfold try_catch. destruct (attempt b tr) as [[e|a] tr1] eqn:E.
    + intros Hrest. destruct (IH _ _ Hrest) as (b' & tr0 & Hin & Hb').
      exists b', tr0. split; [right; exact Hin | exact Hb'].
    + intros [= <- <-]. exists b, tr. split; [left | exact E].
Qed.

End MoreFacts.

(** ** The fallback tiers *)

Lemma truthy_Some (s : string) : Js.truthy (Some s) = Js.nonempty s.
Proof. destruct s; reflexivity. Qed.

Lemma match_id_empty (c : ascii) (pre : string) : match_id (String c pre) EmptyString = None.
Proof. reflexivity. Qed.

Lemma slice_front_length {A} (n : Z) (l : list A) :
  (0 < n)%Z -> (length (Js.slice 0 (Some n) l) <= Z.to_nat n)%nat.
Proof.
  intros Hn. unfold Js.slice. rewrite length_take. 
  assert (Hneg : (n <? 0)%Z = false) by (apply Z.ltb_ge; lia).
  rewrite Hneg. cbn [Z.ltb Z.compare]. lia.
Qed.

Lemma slice_Forall {A} (P : A -> Prop) (a : Z) (b : option Z) (l : list A) :
  Forall P l -> Forall P (Js.slice a b l).
Proof. intros Hl. unfold Js.slice. apply Forall_take, Forall_drop, Hl. Qed.

Section Tiers.

Variable H : Host.
Variable W : World.
Variable cfg : Config.

Lemma parse_nodes_items (base : string) (nodes : list TimelineNode) (seenIds : list string) :
  Forall has_link_and_text (parse_nodes H base nodes seenIds) /\
  (length (parse_nodes H base nodes seenIds) <= length nodes)%nat.
Proof.
  revert seenIds. induction nodes as [|node nodes IH]; intros seenIds.
  - split; [constructor | reflexivity].
  - cbn [parse_nodes length].
    destruct (tn_link node) as [[href_attr title_attr]|];
      [|destruct (IH seenIds); split; [assumption | lia]].
    set (href := default "" (Js.or href_attr (Some ""))).
    destruct (match_id "/status/" href) as [id|] eqn:Eid;
      [|destruct (IH seenIds); split; [assumption | lia]].
    destruct (bool_decide (id ∈ seenIds));
      [destruct (IH seenIds); split; [assumption | lia]|].
    destruct (htmlToText H (tn_content node)) as [|c t] eqn:Et; cbn [Js.nonempty negb];
      [destruct (IH (id :: seenIds)); split; [assumption | lia]|].
    destruct (IH (id :: seenIds)) as [IH1 IH2]. split; [|cbn [length]; lia].
    constructor; [|exact IH1].
    split; cbn [link content]; [|reflexivity].
    rewrite truthy_Some.
    assert (Hh : Js.nonempty href = true).
    { destruct href; [discriminate Eid | reflexivity]. }
    destruct (Js.startsWith "/" href); [apply sapp_nonempty_r, Hh | exact Hh].
Qed.

Lemma harvest_items (mdLinks : list string) (acc : list Item) (tr tr' : Trace)
      (its : list Item) :
  Forall (fun l => Js.nonempty l = true) mdLinks ->
  Forall has_link_and_text acc ->
  harvest H W mdLinks acc tr = (inr its, tr') ->
  Forall has_link_and_text its /\ (length its <= length acc + length mdLinks)%nat.
Proof.
  revert acc tr. induction mdLinks as [|abs rest IH]; intros acc tr Hl Hacc; cbn [harvest].
  - intros [= <- _]. split; [exact Hacc | simpl; lia].
  - apply Forall_cons in Hl. destruct Hl as [Habs Hrest].
    unfold bind at 1. destruct (fetchStatusViaOG H W abs tr) as [[e|og] tr1]; [discriminate|].
    unfold bind at 1. destruct (getTweetTimeFromStatus H W abs tr1) as [[e|ts] tr2];
      [discriminate|].
    unfold bind at 1, sleep, emit. intros Hrun.
    apply IH in Hrun; [|exact Hrest|].
    + destruct Hrun as [Hits Hlen]. split; [exact Hits|].
      destruct (Js.nonempty (fst og)); rewrite ?length_app in Hlen; cbn [length] in *; lia.
    + destruct (Js.nonempty (fst og)) eqn:Eog; [|exact Hacc].
      apply Forall_app. split; [exact Hacc|]. constructor; [|constructor].
      split; cbn [link content]; rewrite truthy_Some; assumption.
Qed.

Lemma md_links_nonempty (body : string) :
  Forall (fun l => Js.nonempty l = true) (extractStatusLinksMD body).
Proof.
  eapply Forall_impl; [apply md_links_are_status_urls|].
  intros l (Hs & _ & _). cbv beta in Hs.
  destruct l; [discriminate | reflexivity].
Qed.

Lemma html_attempt_items (user base : string) (tr tr' : Trace) (feed : Feed) :
  (0 < MAX_ITEMS_PER_HANDLE cfg)%Z ->
  html_attempt H W cfg user base tr = (inr feed, tr') ->
  items feed <> [] /\
  Forall has_link_and_text (items feed) /\
  (length (items feed) <= Z.to_nat (MAX_ITEMS_PER_HANDLE cfg))%nat.
Proof.
  intros Hcap. unfold html_attempt. unfold bind at 1.
  destruct (fetchTextSmart W _ (Some base) tr) as [[e|body] tr1]; [discriminate|].
  destruct (looksLikeWhitelistBlock body || looksLikeRateLimit body); [discriminate|].
  unfold bind at 1.
  set (mdLinks := Js.slice 0 (Some (MAX_ITEMS_PER_HANDLE cfg)) (extractStatusLinksMD body)).
  match goal with
  | |- context [let (_, _) := ?m in _] => destruct m as [[e|harvested] tr2] eqn:Eh
  end; [discriminate|].
  assert (Hh : Forall has_link_and_text harvested /\
               (length harvested <= Z.to_nat (MAX_ITEMS_PER_HANDLE cfg))%nat).
  { destruct (Js.test_ci "Markdown Content:" body).
    - apply harvest_items in Eh; [|apply slice_Forall, md_links_nonempty | constructor].
      destruct Eh as [Hits Hlen]. split; [exact Hits|].
      pose proof (slice_front_length (MAX_ITEMS_PER_HANDLE cfg)
                    (extractStatusLinksMD body) Hcap) as Hs.
      fold mdLinks in Hs. cbn [length] in Hlen. lia.
    - injection Eh as <- _. split; [constructor | simpl; lia]. }
  destruct harvested as [|it its].
  - unfold parseNitterHTML.
    set (nodes := Js.slice 0 (Some (MAX_ITEMS_PER_HANDLE cfg)) _).
    destruct (parse_nodes_items base nodes []) as [Hits Hlen].
    pose proof (slice_front_length (MAX_ITEMS_PER_HANDLE cfg)
                  (dom_timeline H
                     (Js.replace_all (match_block "<style" "</style>") EmptyString
                        (Js.replace_all (match_block "<script" "</script>") EmptyString body)))
                  Hcap) as Hs.
    fold nodes in Hs.
    destruct (parse_nodes H base nodes []) as [|d ds]; [discriminate|].
    intros [= <- _]. cbn [items]. split; [discriminate|]. split; [exact Hits | lia].
  - intros [= <- _]. cbn [items]. split; [discriminate | exact Hh].
Qed.

(** X19.  The HTML tier never returns an empty feed (it fails instead, so
    that the resolver goes on), and with a positive cap it returns at most
    [cap] items, each with a link and a text. *)
Theorem html_tier_feed_is_well_formed
        (handle : string) (tr tr' : Trace) (feed : Feed) :
  (0 < MAX_ITEMS_PER_HANDLE cfg)%Z ->
  fetchNitterHTML H W cfg handle tr = (inr feed, tr') ->
  items feed <> [] /\
  Forall has_link_and_text (items feed) /\
  (length (items feed) <= Z.to_nat (MAX_ITEMS_PER_HANDLE cfg))%nat.
Proof.
  intros Hcap Hrun. unfold fetchNitterHTML, fetchNitterHTML_from in Hrun.
  destruct (for_mirrors_success _ _ _ _ _ _ _ Hrun) as (base & tr0 & _ & Hat).
  eapply html_attempt_items; eauto.
Qed.

Lemma widget_items_shape (user : string) (nodes : list WidgetNode) (acc : list Item)
      (tr tr' : Trace) (its : list Item) :
  Forall (is_widget_item user) acc ->
  widget_items H W user nodes acc tr = (inr its, tr') ->
  Forall (is_widget_item user) its /\ (length its <= length acc + length nodes)%nat.
Proof.
  revert acc tr. induction nodes as [|node rest IH]; intros acc tr Hacc; cbn [widget_items].
  - intros [= <- _]. split; [exact Hacc | simpl; lia].
  - destruct (Js.truthy (wn_id node)) eqn:Eid; cbn [negb].
    2:{ intros Hrun. apply IH in Hrun; [|exact Hacc]. cbn [length]. split; [apply Hrun | lia]. }
    destruct (htmlToText H (wn_text node)) as [|c t] eqn:Et; cbn [Js.nonempty negb].
    { intros Hrun. apply IH in Hrun; [|exact Hacc]. cbn [length]. split; [apply Hrun | lia]. }
    unfold bind at 1. destruct (getTweetTimeFromStatus H W _ tr) as [[e|ts] tr1]; [discriminate|].
    unfold bind at 1, sleep, emit. intros Hrun.
    apply IH in Hrun.
    + destruct Hrun as [Hits Hlen]. split; [exact Hits|].
      rewrite length_app in Hlen. cbn [length] in *. lia.
    + apply Forall_app. split; [exact Hacc|]. constructor; [|constructor].
      split; cbn [link content]; [reflexivity|].
      exists (default "" (wn_id node)). split; [|reflexivity].
      destruct (wn_id node) as [[|d i]|]; try discriminate. reflexivity.
Qed.

(** X20.  The syndication tier never returns an empty feed, and with a
    positive cap it returns at most [cap] items; each has a text and links
    to the status page, on the first mirror, of the account and of a
    non-empty post id, so that it has a dedup key. *)
Theorem syndication_feed_is_well_formed
        (handle : string) (tr tr' : Trace) (feed : Feed) :
  (0 < MAX_ITEMS_PER_HANDLE cfg)%Z ->
  fetchSyndication H W cfg handle tr = (inr feed, tr') ->
  items feed <> [] /\
  Forall (is_widget_item (handleToUser handle)) (items feed) /\
  (length (items feed) <= Z.to_nat (MAX_ITEMS_PER_HANDLE cfg))%nat.
Proof.
  intros Hcap. unfold fetchSyndication. unfold bind at 1.
  destruct (fetchRaw W _ None tr) as [[e|txt] tr1]; [discriminate|].
  destruct (JSON_parse_body H txt) as [body|]; [|discriminate].
  destruct (Js.truthy body); cbn [negb]; [|discriminate].
  unfold bind at 1.
  set (nodes := Js.slice 0 (Some (MAX_ITEMS_PER_HANDLE cfg)) _).
  destruct (widget_items H W (handleToUser handle) nodes [] tr1) as [[e|its] tr2] eqn:Ew;
    [discriminate|].
  apply widget_items_shape in Ew; [|constructor]. destruct Ew as [Hits Hlen].
  pose proof (slice_front_length (MAX_ITEMS_PER_HANDLE cfg)
                (dom_widget H (default "" body)) Hcap) as Hs.
  fold nodes in Hs. cbn [length] in Hlen.
  destruct its as [|it its]; [discriminate|].
  intros [= <- _]. cbn [items]. split; [discriminate|]. split; [exact Hits | lia].
Qed.

(** ** Ids on a timeline page *)

Lemma parse_nodes_ext (base : string) (nodes : list TimelineNode) (seen seen' : list string) :
  (forall x, x ∈ seen <-> x ∈ seen') ->
  parse_nodes H base nodes seen = parse_nodes H base nodes seen'.
Proof.
  revert seen seen'. induction nodes as [|node nodes IH]; intros seen seen' Hext;
    [reflexivity|].
  cbn [parse_nodes].
  destruct (tn_link node) as [[href_attr title_attr]|]; [|apply IH, Hext].
  destruct (match_id "/status/" _) as [id|]; [|apply IH, Hext].
  rewrite (bool_decide_ext _ _ (Hext id)).
  destruct (bool_decide (id ∈ seen')); [apply IH, Hext|].
  assert (Hext' : forall x, x ∈ id :: seen <-> x ∈ id :: seen').
  { intros x. rewrite !elem_of_cons, Hext. reflexivity. }
  rewrite (IH (id :: seen) (id :: seen') Hext'). reflexivity.
Qed.

Lemma omap_node_id_cons (node : TimelineNode) (l : list TimelineNode) :
  omap node_id (node :: l) =
  match node_id node with Some id => id :: omap node_id l | None => omap node_id l end.
Proof. reflexivity. Qed.

Lemma parse_nodes_app (base : string) (l1 l2 : list TimelineNode) (seen : list string) :
  parse_nodes H base (l1 ++ l2) seen =
  parse_nodes H base l1 seen ++ parse_nodes H base l2 (omap node_id l1 ++ seen).
Proof.
  revert seen. induction l1 as [|node l1 IH]; intros seen; [reflexivity|].
  rewrite omap_node_id_cons. cbn [app parse_nodes].
  destruct (node_id node) as [id|] eqn:En; unfold node_id in En;
    destruct (tn_link node) as [[href_attr title_attr]|]; try discriminate;
    try rewrite En; try apply IH.
  case_bool_decide as Hin.
  - rewrite IH. f_equal. apply parse_nodes_ext. intros x.
    cbn [app]. rewrite elem_of_cons, !elem_of_app. split; [tauto|].
    intros [->|Hx]; tauto.
  - assert (Hext : forall x, x ∈ omap node_id l1 ++ id :: seen
                             <-> x ∈ (id :: omap node_id l1) ++ seen).
    { intros x. cbn [app]. rewrite !elem_of_cons, !elem_of_app, elem_of_cons. tauto. }
    rewrite (IH (id :: seen)), (parse_nodes_ext base l2 _ _ Hext).
    destruct (negb _); reflexivity.
Qed.

Lemma parse_nodes_seen (base : string) (node : TimelineNode) (rest : list TimelineNode)
      (seen : list string) (id : string) :
  node_id node = Some id -> id ∈ seen ->
  parse_nodes H base (node :: rest) seen = parse_nodes H base rest seen.
Proof.
  unfold node_id. intros Hid Hin. cbn [parse_nodes].
  destruct (tn_link node) as [[href_attr title_attr]|]; [|discriminate].
  rewrite Hid. rewrite bool_decide_true by exact Hin. reflexivity.
Qed.

Lemma parse_nodes_repeated (base : string) (pre : list TimelineNode)
      (node : TimelineNode) (post : list TimelineNode) (id : string) :
  node_id node = Some id ->
  id ∈ omap node_id pre ->
  parse_nodes H base (pre ++ node :: post) [] = parse_nodes H base (pre ++ post) [].
Proof.
  intros Hid Hin. rewrite !parse_nodes_app. f_equal.
  apply (parse_nodes_seen base node post _ id Hid).
  rewrite app_nil_r. exact Hin.
Qed.

Lemma slice_front {A} (n : Z) (l : list A) :
  (0 < n)%Z -> Js.slice 0 (Some n) l = take (Z.to_nat n) l.
Proof.
  intros Hn. unfold Js.slice.
  assert (Hneg : (n <? 0)%Z = false) by (apply Z.ltb_ge; lia).
  rewrite Hneg. cbn [Z.ltb Z.compare].
  replace (Z.min 0 (Z.of_nat (length l))) with 0%Z by lia.
  change (List.skipn (Z.to_nat 0) l) with l.
  destruct (Z.le_ge_cases n (Z.of_nat (length l))) as [Hle|Hge].
  - f_equal. lia.
  - rewrite !take_ge by lia. reflexivity.
Qed.

(** X21.  A timeline node whose status id was already met on the page adds
    no item, but it takes up one of the places under the cap, because the
    page is cut to the first [cap] nodes before the ids are compared.  Let
    a page hold the nodes [pre], then a node whose id occurs among [pre],
    then [post], the repeated node lying within the first [cap] nodes.
    Then the page yields what the page without that node yields under a
    cap smaller by one.  This holds also when the earlier node with that id
    gave no item for want of text. *)
Theorem repeated_status_id_takes_a_place
        (cfg' : Config) (html html' base : string)
        (pre : list TimelineNode) (node : TimelineNode)
        (post : list TimelineNode) (id : string) :
  dom_timeline H (without_scripts html) = pre ++ node :: post ->
  dom_timeline H (without_scripts html') = pre ++ post ->
  node_id node = Some id ->
  id ∈ omap node_id pre ->
  (Z.of_nat (length pre) < MAX_ITEMS_PER_HANDLE cfg)%Z ->
  MAX_ITEMS_PER_HANDLE cfg' = (MAX_ITEMS_PER_HANDLE cfg - 1)%Z ->
  parseNitterHTML H cfg html base = parseNitterHTML H cfg' html' base.
Proof.
  intros Hpage Hpage' Hid Hin Hlen Hcap.
  assert (Hpre : (1 <= length pre)%nat).
  { destruct pre; [inversion Hin | simpl; lia]. }
  unfold parseNitterHTML. fold (without_scripts html) (without_scripts html').
  rewrite Hpage, Hpage', Hcap.
  rewrite !slice_front by lia.
  replace (Z.to_nat (MAX_ITEMS_PER_HANDLE cfg))
    with (S (Z.to_nat (MAX_ITEMS_PER_HANDLE cfg - 1))) by lia.
  set (k := Z.to_nat (MAX_ITEMS_PER_HANDLE cfg - 1)).
  assert (Hk : (length pre <= k)%nat) by (subst k; lia).
  rewrite (take_app_ge pre (node :: post) (S k)) by lia.
  rewrite (take_app_ge pre post k) by exact Hk.
  replace (S k - length pre)%nat with (S (k - length pre)) by lia.
  cbn [take]. apply (parse_nodes_repeated base pre node _ id Hid Hin).
Qed.

End Tiers.

(** ** Chat lookup *)

Lemma is_space_toLower (c : ascii) : Js.is_space (toLower_char c) = Js.is_space c.
Proof. destruct c as [[] [] [] [] [] [] [] []]; vm_compute; reflexivity. Qed.

Lemma toLowerCase_cons (c : ascii) (s : string) :
  toLowerCase (String c s) = String (toLower_char c) (toLowerCase s).
Proof. reflexivity. Qed.

Lemma toLowerCase_trimEnd (s : string) :
  toLowerCase (Js.trimEnd s) = Js.trimEnd (toLowerCase s).
Proof.
  induction s as [|c s IH]; [reflexivity|].
  rewrite toLowerCase_cons, !trimEnd_cons, <- IH.
  destruct (Js.trimEnd s) as [|d r]; cbn [toLowerCase]; [|reflexivity].
  rewrite is_space_toLower. destruct (Js.is_space c); reflexivity.
Qed.

Lemma toLowerCase_trimStart (s : string) :
  toLowerCase (Js.trimStart s) = Js.trimStart (toLowerCase s).
Proof.
  unfold Js.trimStart. induction s as [|c s IH]; [reflexivity|].
  cbn [toLowerCase Js.drop_while]. rewrite is_space_toLower.
  destruct (Js.is_space c); [exact IH | reflexivity].
Qed.

Lemma toLowerCase_trim (s : string) : toLowerCase (Js.trim s) = Js.trim (toLowerCase s).
Proof. unfold Js.trim. rewrite toLowerCase_trimEnd, toLowerCase_trimStart. reflexivity. Qed.

Lemma or_empty_default (o : option string) : default "" (Js.or o (Some "")) = default "" o.
Proof. destruct o as [[|c s]|]; reflexivity. Qed.

Lemma find_app_none {A} (f : A -> bool) (pre : list A) (x : A) (post : list A) :
  Forall (fun y => f y = false) pre -> f x = true ->
  List.find f (pre ++ x :: post) = Some x.
Proof.
  intros Hpre Hx. induction Hpre as [|y pre Hy _ IH]; cbn [app List.find].
  - rewrite Hx. reflexivity.
  - rewrite Hy. exact IH.
Qed.

(** X22.  The chat that [getChatIdByName] resolves is one of the chats of the
    account, and its name agrees with the requested one up to surrounding
    white space and letter case. *)
Theorem resolved_chat_bears_the_name (chats : list Chat) (name id : string) :
  getChatIdByName chats name = inr id ->
  exists c, c ∈ chats /\ chat_id c = id /\
            toLowerCase (Js.trim (default "" (chat_name c))) = toLowerCase (Js.trim name).
Proof.
  unfold getChatIdByName.
  destruct (List.find (chat_matches_exactly name) chats) as [c|] eqn:Ee.
  - intros [= <-]. apply find_some in Ee. destruct Ee as [Hin Hm].
    exists c. split; [apply list_elem_of_In, Hin|]. split; [reflexivity|].
    unfold chat_matches_exactly in Hm. apply andb_prop in Hm. destruct Hm as [_ Hm].
    apply String.eqb_eq in Hm. rewrite Hm. reflexivity.
  - destruct (List.find (chat_matches_ci name) chats) as [c|] eqn:Ec; [|discriminate].
    intros [= <-]. apply find_some in Ec. destruct Ec as [Hin Hm].
    exists c. split; [apply list_elem_of_In, Hin|]. split; [reflexivity|].
    unfold chat_matches_ci in Hm. apply String.eqb_eq in Hm.
    rewrite or_empty_default in Hm.
    rewrite toLowerCase_trim, Hm, <- toLowerCase_trim, trim_idem. reflexivity.
Qed.

(** X23.  A chat whose trimmed name is exactly the trimmed requested name
    wins over every chat listed before it that agrees only up to letter
    case. *)
Theorem exact_name_wins_over_case_match
        (pre : list Chat) (c : Chat) (post : list Chat) (name : string) :
  Forall (fun x => chat_matches_exactly name x = false) pre ->
  chat_matches_exactly name c = true ->
  getChatIdByName (pre ++ c :: post) name = inr (chat_id c).
Proof.
  intros Hpre Hc. unfold getChatIdByName.
  rewrite (find_app_none _ pre c post Hpre Hc). reflexivity.
Qed.

(** ** Links of a profile page *)

Lemma startsWith_app_r (p b x : string) :
  Js.startsWith p b = true -> Js.startsWith p (b +:+ x) = true.
Proof.
  revert b. induction p as [|c p IH]; intros b; [reflexivity|].
  destruct b as [|d b]; [discriminate|].
  rewrite sapp_cons. cbn [Js.startsWith].
  intros Hb. apply andb_prop in Hb. destruct Hb as [-> Hb]. exact (IH b Hb).
Qed.

Lemma some_suffix_cons (f : string -> bool) (c : ascii) (s : string) :
  some_suffix f (String c s) = f (String c s) || some_suffix f s.
Proof. reflexivity. Qed.

Lemma some_suffix_app_l (f : string -> bool) (b s : string) :
  some_suffix f s = true -> some_suffix f (b +:+ s) = true.
Proof.
  intros Hs. induction b as [|c b IH]; [exact Hs|].
  rewrite sapp_cons, some_suffix_cons, IH. apply orb_true_r.
Qed.

(** X24.  On an absolute base address, every link that [extractStatusLinks]
    returns is absolute and contains [/status/] followed by a digit, and no
    link is returned twice. *)
Theorem extracted_links_are_absolute (html base : string) :
  Js.startsWith "http" base = true ->
  NoDup (extractStatusLinks html base) /\
  Forall (fun l => Js.startsWith "http" l = true /\ some_suffix status_digit l = true)
         (extractStatusLinks html base).
Proof.
  intros Hbase. split; [apply uniq_go_NoDup|].
  apply uniq_Forall, Forall_map, exec_all_Forall.
  intros t n cap. unfold match_href.
  destruct (Js.startsWith _ t); [|discriminate].
  destruct (Js.drop _ (Js.drop 6 t)); [discriminate|].
  destruct (some_suffix status_digit _) eqn:Es; [|discriminate].
  intros [= _ <-]. cbv beta.
  set (cap := Js.take_while _ _) in *.
  destruct (Js.startsWith "http" cap) eqn:Eh; [split; assumption|].
  destruct (Js.startsWith "/" cap).
  - split; [apply startsWith_app_r, Hbase | apply some_suffix_app_l, Es].
  - split; [apply startsWith_app_r, Hbase | rewrite <- sapp_assoc; apply some_suffix_app_l, Es].
Qed.

(** ** Which mirror a request is for *)

Lemma NITTER_BASES_nonempty : Forall (fun b => Js.nonempty b = true) NITTER_BASES.
Proof. repeat constructor. Qed.

Lemma or_nonempty (b : string) : Js.nonempty b = true -> Js.or (Some b) None = Some b.
Proof. destruct b; [discriminate | reflexivity]. Qed.




Section Mirrors.

Variable H : Host.
Variable W : World.
Variable cfg : Config.











(** *** The body behind a feed *)

Lemma fetchTextSmart_success (url : string) (referer : option string)
      (tr tr' : Trace) (body : string) :
  fetchTextSmart W url referer tr = (inr body, tr') ->
  exists u evs status,
    address_of url u /\
    tr' = (tr ++ evs) ++ [EvFetch u (Js.or referer None)] /\
    http W (tr ++ evs) u (Js.or referer None) = FetchResponse true status body.
Proof.
  assert (Hresp : forall u o, response_text u o = inr body ->
                              exists status, o = FetchResponse true status body).
  { intros u [e|[] status text]; cbn [response_text]; try discriminate.
    intros [= ->]. eauto. }
  unfold fetchTextSmart, try_catch, fetchRaw, viaHttp, viaHttps.
  set (h := Js.or referer None).
  destruct (response_text url (http W tr url h)) as [e1|b1] eqn:E1.
  2:{ intros [= <- <-]. destruct (Hresp _ _ E1) as (status & Hs).
      exists url, [], status. rewrite app_nil_r.
      split; [left; reflexivity | split; [reflexivity | exact Hs]]. }
  destruct (response_text _ (http W (tr ++ [EvFetch url h]) _ h)) as [e2|b2] eqn:E2.
  2:{ intros [= <- <-]. destruct (Hresp _ _ E2) as (status & Hs).
      eexists _, [EvFetch url h], status.
      split; [right; left; reflexivity | split; [reflexivity | exact Hs]]. }
  destruct (response_text _ (http W ((tr ++ [EvFetch url h]) ++ [_]) _ h))
    as [e3|b3] eqn:E3; [discriminate|].
  intros [= <- <-]. destruct (Hresp _ _ E3) as (status & Hs).
  eexists _, [EvFetch url h; _], status.
  split; [right; right; reflexivity|].
  rewrite <- (app_assoc tr [EvFetch url h]) in Hs |- *.
  split; [reflexivity | exact Hs].
Qed.

Lemma for_mirrors_success_from {A} (attempt : string -> IO A) (bases : list string)
      (lastErr : option Err) (none : string) (tr tr' : Trace) (v : A) :
  (forall b, emits is_net (attempt b)) ->
  for_mirrors attempt bases lastErr none tr = (inr v, tr') ->
  exists b evs, b ∈ bases /\ attempt b (tr ++ evs) = (inr v, tr').
Proof.
  intros Hat. revert lastErr tr.
  induction bases as [|b bases IH]; intros lastErr tr; cbn [for_mirrors].
  - discriminate.
  - unfold try_catch. destruct (attempt b tr) as [[e|a] tr1] eqn:E.
    + intros Hrest. destruct (Hat b tr) as (evs1 & Heq1 & _).
      rewrite E in Heq1. cbn [snd] in Heq1. subst tr1.
      destruct (IH _ _ Hrest) as (b' & evs2 & Hin & Hb').
      exists b', (evs1 ++ evs2). rewrite app_assoc.
      split; [right; exact Hin | exact Hb'].
    + intros [= <- <-]. exists b, []. rewrite app_nil_r. split; [left | exact E].
Qed.

(** X18.  A feed that [fetchNitterRSS] returns was parsed from the body of
    the last response of the run.  That response answered, with a success
    status, a request for the feed page of one of the mirrors of
    [NITTER_BASES], made directly or through the proxy with the mirror as
    Referer; its body looked like XML and matched none of the refusal
    phrases.  So a refused or non-XML body is never handed on as a feed,
    and nothing is requested after the accepted response. *)
Theorem rss_feed_comes_from_accepted_xml
        (handle : string) (tr tr' : Trace) (feed : Feed) :
  fetchNitterRSS H W handle tr = (inr feed, tr') ->
  exists base u status body evs,
    base ∈ NITTER_BASES /\
    address_of (page_of TierRSS (handleToUser handle) base) u /\
    tr' = (tr ++ evs) ++ [EvFetch u (Some base)] /\
    http W (tr ++ evs) u (Some base) = FetchResponse true status body /\
    refused body = false /\
    isXMLish body = true /\
    parser_parseString H body = inr feed.
Proof.
  intros Hrun. unfold fetchNitterRSS, fetchNitterRSS_from in Hrun.
  apply for_mirrors_success_from in Hrun.
  2:{ intros b. eapply emits_mono; [apply by_mirror_is_net | apply rss_attempt_emits]. }
  destruct Hrun as (base & evs0 & Hin & Hat).
  assert (Hb : Js.nonempty base = true).
  { pose proof NITTER_BASES_nonempty as Hne. rewrite Forall_forall in Hne.
    apply Hne, Hin. }
  unfold rss_attempt in Hat. unfold bind at 1 in Hat.
  destruct (fetchTextSmart W _ (Some base) (tr ++ evs0)) as [[e|body] tr1] eqn:Hft;
    [discriminate|].
  apply fetchTextSmart_success in Hft. destruct Hft as (u & evs1 & status & Hu & -> & Hresp).
  rewrite (or_nonempty base Hb) in Hresp, Hat.
  fold (refused body) in Hat.
  destruct (refused body) eqn:Hrefused; [discriminate|].
  destruct (isXMLish body) eqn:Hxml; [|discriminate]. cbn [negb] in Hat.
  destruct (parser_parseString H body) as [e|f] eqn:Hparse; [discriminate|].
  injection Hat as <- <-.
  exists base, u, status, body, (evs0 ++ evs1). rewrite app_assoc.
  repeat split; assumption.
Qed.

End Mirrors.

(** * Further runs on concrete inputs *)

Example extractStatusLinks_profile_page :
  extractStatusLinks Demo.profile_page "https://nitter.net"
  = ["https://nitter.net/h/status/12#m"; "https://nitter.net/h/status/13";
     "https://x.example/h/status/14"].
Proof. vm_compute. reflexivity. Qed.

Example getChatIdByName_unknown :
  getChatIdByName Demo.chats "news"
  = inl (Error ("WhatsApp chat named " +:+ dq +:+ "news" +:+ dq
                +:+ " not found. Create a group named exactly news.")).
Proof. vm_compute. reflexivity. Qed.

(** The letter-case comparison does not trim the name of the chat. *)
Example getChatIdByName_padded_name_needs_exact_case :
  getChatIdByName [mkChat (Some " Tweets ") "2@g.us"] "tweets"
  = inl (Error ("WhatsApp chat named " +:+ dq +:+ "tweets" +:+ dq
                +:+ " not found. Create a group named exactly tweets.")).
Proof. vm_compute. reflexivity. Qed.

Example html_tier_on_a_timeline_page :
  fst (fetchNitterHTML Demo.dom_host (Sample.serving "<html></html>") Sample.cap8 "@h" [])
  = inr (mkFeed [mkItem (Some "https://nitter.net/h/status/1#m") None (Some "hello") None
                        None (Some "Jan 1, 2024")
                        (Some "https://nitter.net//example.com/x.jpg") None None]).
Proof. vm_compute. reflexivity. Qed.

Lemma status_id_is_mirror_independent_witness :
  getTweetIdFromLink (Some "https://nitter.net/h/status/12#m") = Some "12" /\
  getTweetIdFromLink (Some "https://nitter.poast.org/h/status/12?x=1") = Some "12".
Proof.
  split.
  - exact (status_id_is_mirror_independent "https://nitter.net/h/" "12" "#m"
             eq_refl (conj eq_refl eq_refl) eq_refl).
  - exact (status_id_is_mirror_independent "https://nitter.poast.org/h/" "12" "?x=1"
             eq_refl (conj eq_refl eq_refl) eq_refl).
Defined.

Lemma dedup_key_injective_witness :
  dedup_key "@h" (Sample.post "12" "a") = Some "@h:12" /\
  dedup_key "@h" Demo.mirrored_post = Some "@h:12" /\
  getTweetIdFromLink (link (Sample.post "12" "a")) = getTweetIdFromLink (link Demo.mirrored_post).
Proof.
  split; [reflexivity|]. split; [reflexivity|].
  exact (proj2 (dedup_key_injective "@h" "@h" (Sample.post "12" "a") Demo.mirrored_post
                  "@h:12" eq_refl eq_refl eq_refl eq_refl)).
Defined.

Lemma pickImage_never_empty_witness :
  Js.truthy (pickImage Sample.post_with_relative_image) = true.
Proof.
  exact (pickImage_never_empty Sample.post_with_relative_image "//example.com/x.jpg" eq_refl).
Defined.

Lemma only_text_send_can_fail_witness :
  let r := sendToWhatsApp Demo.rejecting "chat" "@h" "now" "hello"
             (Some "https://e.example/x.jpg") [] in
  fst r = inl (Error "closed") /\
  exists tr0,
    snd r = tr0 ++ [EvSendMessage "chat" (MsgText (message_body "@h" "now" "hello"))] /\
    client_sendMessage Demo.rejecting tr0 "chat" (MsgText (message_body "@h" "now" "hello"))
    = Some (Error "closed").
Proof.
  intros r. split; [vm_compute; reflexivity|].
  apply (only_text_send_can_fail Demo.rejecting "chat" "@h" "now" "hello"
           (Some "https://e.example/x.jpg") [] (snd r) (Error "closed")).
  vm_compute. reflexivity.
Defined.

Lemma normal_return_means_text_sent_witness :
  let w := Sample.serving Sample.rss in
  let r := sendToWhatsApp w "chat" "@h" "now" "hello" (Some "https://e.example/x.jpg") [] in
  fst r = inr tt /\
  exists tr0 m,
    snd r = tr0 ++ [EvSendMessage "chat" m] /\
    client_sendMessage w tr0 "chat" m = None /\
    (m = MsgText (message_body "@h" "now" "hello") \/
     (exists url, Some "https://e.example/x.jpg" = Some url /\
                  (m = MsgMedia url (message_body "@h" "now" "hello") \/
                   (m = MsgText "hello" /\
                    (CAPTION_MAX < Z.of_nat (String.length
                                     (message_body "@h" "now" "hello")))%Z)))).
Proof.
  intros w r. split; [vm_compute; reflexivity|].
  apply (normal_return_means_text_sent w "chat" "@h" "now" "hello"
           (Some "https://e.example/x.jpg") [] (snd r)).
  vm_compute. reflexivity.
Defined.

Lemma failed_item_stays_unmarked_witness :
  let r := process_item (Sample.host Sample.no_feed) Demo.rejecting Sample.cap8 "chat" "@h"
             (Sample.post "12" "hello") Sample.start in
  fst r = inl (Error "closed") /\
  seen (snd r) = seen Sample.start /\ disk (snd r) = disk Sample.start /\
  changed (snd r) = changed Sample.start /\
  delivered (trace (snd r)) = delivered (trace Sample.start).
Proof.
  intros r. split; [vm_compute; reflexivity|].
  apply (failed_item_stays_unmarked (Sample.host Sample.no_feed) Demo.rejecting Sample.cap8
           "chat" "@h" (Sample.post "12" "hello") Sample.start (snd r) (Error "closed")).
  vm_compute. reflexivity.
Defined.

Lemma delivered_item_is_marked_witness :
  let r := process_item (Sample.host Sample.no_feed) (Sample.serving Sample.rss) Sample.cap8
             "chat" "@h" (Sample.post "12" "hello") Sample.start in
  fst r = inr tt /\
  seen (snd r) = <["@h:12" := true]> (seen Sample.start) /\
  delivered (trace (snd r)) = delivered (trace Sample.start) ++ ["@h:12"] /\
  changed (snd r) = true /\ disk (snd r) = disk Sample.start.
Proof.
  intros r. split; [vm_compute; reflexivity|].
  apply (delivered_item_is_marked (Sample.host Sample.no_feed) (Sample.serving Sample.rss)
           Sample.cap8 "chat" "@h" (Sample.post "12" "hello") "@h:12" Sample.start (snd r)).
  - reflexivity.
  - unfold marked. simpl. rewrite lookup_empty. discriminate.
  - vm_compute. reflexivity.
  - vm_compute. reflexivity.
Defined.

Lemma turn_delivers_at_most_cap_witness :
  let r := poll_handle (Sample.host (fun _ => inr Sample.feed9)) (Sample.serving Sample.rss)
             Sample.cap8 "chat" "@h" Sample.start in
  length (delivered (trace (snd r))) = 8%nat /\
  (length (delivered (trace (snd r)))
   <= length (delivered (trace Sample.start)) + Z.to_nat (MAX_ITEMS_PER_HANDLE Sample.cap8))%nat.
Proof.
  intros r. split; [vm_compute; reflexivity|].
  apply (turn_delivers_at_most_cap (Sample.host (fun _ => inr Sample.feed9))
           (Sample.serving Sample.rss) Sample.cap8 "chat" "@h" Sample.start).
  reflexivity.
Defined.

Lemma withRetry_outcome_witness :
  withRetry Demo.third_time_lucky 2 500 []
  = (inr 7%nat, [EvFetch "u" None; EvSleep 500; EvFetch "u" None; EvSleep 500;
                 EvFetch "u" None]).
Proof.
  eapply (withRetry_outcome Demo.third_time_lucky 500 2 2 []).
  - lia.
  - eapply retries_fail_S; [vm_compute; reflexivity|].
    eapply retries_fail_S; [vm_compute; reflexivity|].
    apply retries_fail_O.
  - vm_compute. reflexivity.
  - intros Hlt. lia.
Defined.

Lemma exhausted_tier_raises_last_error_witness :
  exists tr,
    tier_fetch (Sample.host Sample.no_feed) Sample.offline Sample.cap8 TierRSS "@h" []
    = (inl (Error "HTTP 503 @ https://nitter.space/h/rss"), tr).
Proof.
  eexists.
  eapply (exhausted_tier_raises_last_error (Sample.host Sample.no_feed) Sample.offline
            Sample.cap8 TierRSS "@h"
            ["https://nitter.net"; "https://nitter.poast.org";
             "https://nitter.privacydev.net"; "https://nitter.tiekoetter.com"]
            "https://nitter.space" [] _ _ _ eq_refl).
  - repeat (eapply all_fail_cons; [vm_compute; reflexivity|]). apply all_fail_nil.
  - vm_compute. reflexivity.
Defined.

Lemma html_tier_feed_is_well_formed_witness :
  exists feed tr,
    fetchNitterHTML Demo.dom_host (Sample.serving "<html></html>") Sample.cap8 "@h" []
    = (inr feed, tr) /\
    items feed <> [] /\ Forall has_link_and_text (items feed) /\
    (length (items feed) <= Z.to_nat (MAX_ITEMS_PER_HANDLE Sample.cap8))%nat.
Proof.
  do 2 eexists. split; [vm_compute; reflexivity|].
  eapply (html_tier_feed_is_well_formed Demo.dom_host (Sample.serving "<html></html>")
            Sample.cap8 "@h" []); [reflexivity | vm_compute; reflexivity].
Defined.

Lemma syndication_feed_is_well_formed_witness :
  exists feed tr,
    fetchSyndication Demo.dom_host (Sample.serving "{}") Sample.cap8 "@h" [] = (inr feed, tr) /\
    length (items feed) = 2%nat /\
    Forall (is_widget_item (handleToUser "@h")) (items feed) /\
    (length (items feed) <= Z.to_nat (MAX_ITEMS_PER_HANDLE Sample.cap8))%nat.
Proof.
  do 2 eexists. split; [vm_compute; reflexivity|]. split; [reflexivity|].
  eapply proj2.
  eapply (syndication_feed_is_well_formed Demo.dom_host (Sample.serving "{}")
            Sample.cap8 "@h" []); [reflexivity | vm_compute; reflexivity].
Defined.

Lemma resolved_chat_bears_the_name_witness :
  exists c, c ∈ Demo.chats /\ chat_id c = "1@g.us" /\
            toLowerCase (Js.trim (default "" (chat_name c))) = toLowerCase (Js.trim "TWEETS").
Proof. exact (resolved_chat_bears_the_name Demo.chats "TWEETS" "1@g.us" eq_refl). Defined.

Lemma exact_name_wins_over_case_match_witness :
  getChatIdByName Demo.chats "Tweets" = inr "2@g.us".
Proof.
  apply (exact_name_wins_over_case_match
           [mkChat None "0@g.us"; mkChat (Some "tweets") "1@g.us"]
           (mkChat (Some " Tweets ") "2@g.us") [] "Tweets").
  - repeat constructor.
  - reflexivity.
Defined.

Lemma extracted_links_are_absolute_witness :
  NoDup (extractStatusLinks Demo.profile_page "https://nitter.net") /\
  Forall (fun l => Js.startsWith "http" l = true /\ some_suffix status_digit l = true)
         (extractStatusLinks Demo.profile_page "https://nitter.net").
Proof.
  exact (extracted_links_are_absolute Demo.profile_page "https://nitter.net" eq_refl).
Defined.

(** The turn that cannot write the file: the three posts are delivered and
    marked in memory, then the write throws; the pause is not made and the
    file holds nothing. *)
Example turn_with_failed_write :
  let r := poll_handle (Sample.host (fun _ => inr Sample.feed3)) Demo.read_only_disk
             Sample.cap8 "chat" "@h" Sample.start in
  fst r = inl (Error "EROFS: read-only file system") /\
  delivered (trace (snd r)) = ["@h:10"; "@h:11"; "@h:12"] /\
  last (trace (snd r)) = Some EvSaveSeen /\
  marked (snd r) "@h:12" /\ disk (snd r) = ∅.
Proof. vm_compute. auto. Qed.

(** A handle that names a member of [Object.prototype] is labelled with
    that member, a configured label of the same name apart. *)
Example inherited_label :
  label_of (mkConfig [] (Some ∅) None) "toString"
  = "function toString() { [native code] }" /\
  label_of (mkConfig [] (Some (<["toString" := "court"]> ∅)) None) "toString" = "court" /\
  label_of (mkConfig [] (Some ∅) None) "@h" = "h" /\
  label_of (mkConfig [] None None) "toString" = "toString".
Proof. vm_compute. auto. Qed.

(** Under one and the same cap the repeated node costs the page its third
    status. *)
Example repeated_node_under_the_same_cap :
  let cap2 := Sample.config [] (Some 2) in
  map link (parseNitterHTML Demo.paging_host cap2 "twice" "https://nitter.net")
  = [Some "https://nitter.net/h/status/1#m"] /\
  map link (parseNitterHTML Demo.paging_host cap2 "once" "https://nitter.net")
  = [Some "https://nitter.net/h/status/1#m"; Some "https://nitter.net/h/status/3"].
Proof. vm_compute. auto. Qed.




Lemma only_a_failed_write_stops_polling_witness :
  let h := Sample.host (fun _ => inr Sample.feed3) in
  let r := cycles h Demo.read_only_disk Sample.cap8 "chat" 3 Sample.start in
  fst r = inl (Error "EROFS: read-only file system") /\
  delivered (trace (snd r)) = ["@LiveLawIndia:10"; "@LiveLawIndia:11"; "@LiveLawIndia:12"] /\
  exists tr0,
    trace (snd r) = tr0 ++ [EvSaveSeen] /\
    fs_writeFileSync Demo.read_only_disk tr0 = Some (Error "EROFS: read-only file system").
Proof.
  intros h r. split; [vm_compute; reflexivity|]. split; [vm_compute; reflexivity|].
  apply (only_a_failed_write_stops_polling h Demo.read_only_disk Sample.cap8 "chat" 3
           Sample.start (snd r) (Error "EROFS: read-only file system")).
  vm_compute. reflexivity.
Defined.

Lemma rss_feed_comes_from_accepted_xml_witness :
  exists base u status body evs,
    base ∈ NITTER_BASES /\
    address_of (page_of TierRSS "h" base) u /\
    [EvFetch "https://nitter.net/h/rss" (Some "https://nitter.net");
     EvFetch "https://r.jina.ai/http://nitter.net/h/rss" (Some "https://nitter.net");
     EvFetch "https://r.jina.ai/https://nitter.net/h/rss" (Some "https://nitter.net");
     EvFetch "https://nitter.poast.org/h/rss" (Some "https://nitter.poast.org")]
    = ([] ++ evs) ++ [EvFetch u (Some base)] /\
    http Sample.second_mirror_up ([] ++ evs) u (Some base) = FetchResponse true status body /\
    refused body = false /\
    isXMLish body = true /\
    parser_parseString Demo.feed_host body = inr Sample.feed3.
Proof.
  apply (rss_feed_comes_from_accepted_xml Demo.feed_host Sample.second_mirror_up "@h" []
           _ Sample.feed3).
  vm_compute. reflexivity.
Defined.

Lemma repeated_status_id_takes_a_place_witness :
  parseNitterHTML Demo.paging_host (Sample.config [] (Some 2)) "twice" "https://nitter.net"
  = parseNitterHTML Demo.paging_host (Sample.config [] (Some 1)) "once" "https://nitter.net".
Proof.
  apply (repeated_status_id_takes_a_place Demo.paging_host (Sample.config [] (Some 2))
           (Sample.config [] (Some 1)) "twice" "once" "https://nitter.net"
           [Sample.node_with_relative_image] Demo.repeated_node [Demo.third_node] "1").
  - reflexivity.
  - reflexivity.
  - reflexivity.
  - apply list_elem_of_In. vm_compute. tauto.
  - reflexivity.
  - reflexivity.
Defined.
